(** * KPConvX scene segmentation dataset: sampling, extraction, batching

    A shallow embedding of [SceneSegDataset]
    (Standalone/KPConvX/data_handlers/scene_seg.py): the centre sampler
    [sample_input_center], the region extractor [get_input_area], the
    batch assembler [__getitem__] and the calibration routine
    [calib_batch_limit].

    Conventions.
    - Python numbers (ints and floats) are rationals [Q]; a 64-bit torch
      integer is a [Z] wrapped by [wrap64].
    - A numpy / torch array of points is a [list Point], a point being the
      list of its coordinates.
    - An exception is [Raise name], [name] being the Python class name.
    - A [while] loop runs on fuel; running out of fuel is [Diverge]. *)

From Stdlib Require Import ZArith QArith Qround List String Ascii Bool Lia
  Permutation Sorted PeanoNat Lqa Qabs Qminmax.
Import ListNotations.

Set Implicit Arguments.
Close Scope Q_scope.
Open Scope string_scope.
Open Scope list_scope.

(* ------------------------------------------------------------------ *)
(** ** Python values and control *)

Module Py.

Inductive result (A : Type) : Type :=
| Ok (a : A)
| Raise (exn : string)
| Diverge.
Arguments Raise {A} exn.
Arguments Diverge {A}.

Definition bind {A B} (r : result A) (k : A -> result B) : result B :=
  match r with
  | Ok a => k a
  | Raise e => Raise e
  | Diverge => Diverge
  end.

(** [l[i]] for a Python sequence: a negative index counts from the end,
    an index out of range raises [IndexError]. *)
Definition index {A} (l : list A) (i : Z) : result A :=
  let n := Z.of_nat (List.length l) in
  let j := (if i <? 0 then i + n else i)%Z in
  if (j <? 0)%Z then Raise "IndexError"
  else match nth_error l (Z.to_nat j) with
       | Some a => Ok a
       | None => Raise "IndexError"
       end.

(** [a[inds]] with an integer array [inds] (numpy fancy indexing). *)
Fixpoint take {A} (l : list A) (inds : list nat) : result (list A) :=
  match inds with
  | [] => Ok []
  | i :: inds' =>
      match nth_error l i with
      | None => Raise "IndexError"
      | Some a => bind (take l inds') (fun r => Ok (a :: r))
      end
  end.

(** [l[:-u]] and [l[-u:]] for [u >= 0]; note [-0 = 0], so [l[:-0]] is
    empty and [l[-0:]] is the whole sequence. *)
Definition slice_to_neg {A} (l : list A) (u : nat) : list A :=
  match u with
  | O => []
  | _ => firstn (List.length l - u) l
  end.

Definition slice_from_neg {A} (l : list A) (u : nat) : list A :=
  match u with
  | O => l
  | _ => skipn (List.length l - u) l
  end.

(** [sub in s] on strings. *)
Fixpoint contains (sub s : string) : bool :=
  String.prefix sub s
  || match s with
     | EmptyString => false
     | String _ s' => contains sub s'
     end.

(** [x in a] for an integer array. *)
Definition mem (x : Z) (a : list Z) : bool := existsb (Z.eqb x) a.

(** [int(x)]: truncation towards zero. *)
Definition int (x : Q) : Z :=
  if Qle_bool 0 x then Qfloor x else Qceiling x.

(** A number usable where Python wants an [int] (a count, an index). *)
Definition as_int (x : Q) : result Z :=
  if Qeq_bool x (inject_Z (Qfloor x)) then Ok (Qfloor x)
  else Raise "TypeError".

(** Arithmetic of a torch int64 tensor. *)
Definition wrap64 (z : Z) : Z :=
  ((z + 2 ^ 63) mod 2 ^ 64 - 2 ^ 63)%Z.

Definition Qlt_bool (x y : Q) : bool := negb (Qle_bool y x).

End Py.
Import Py.

Declare Scope py_scope.
Notation "x <- c ;; k" := (bind c (fun x => k))
  (at level 61, c at next level, right associativity) : py_scope.
Notation "' pat <- c ;; k" := (bind c (fun x => match x with pat => k end))
  (at level 61, pat pattern, c at next level, right associativity) : py_scope.
Open Scope py_scope.

(* ------------------------------------------------------------------ *)
(** ** Data model *)

Definition Point := list Q.
Definition Points := list Point.
Definition Features := list (list Q).
Definition Labels := list Z.

(** The settings [__init__] copies from [cfg]. *)
Record Config := {
  set_ : string;            (* self.set *)
  data_sampler : string;
  in_radius : Q;
  b_lim : Q;
  use_cubes : bool;
  cylindric_input : bool;
  dim : nat;
  num_classes : nat;
  label_values : list Z;
  ignored_labels : list Z;
  mix3D : Q;                (* cfg.augment_train.mix3D *)
  in_sub_size : Q;          (* cfg.model.in_sub_size *)
  init_sub_size : Q         (* cfg.data.init_sub_size *)
}.

(** The scenes held in memory, immutable after loading; [all_inds] and
    [label_indices] are the tables built by [prepare_label_inds], whose
    columns [(cloud_ind, point_ind)] are pairs here. *)
Record Scenes := {
  input_trees : list Points;          (* tree.data of each KDTree *)
  input_features : list Features;
  input_labels : list Labels;
  input_z : list (option (list (list Q)));
  all_inds : option (list (Z * Z));
  label_indices : list (list (Z * Z))
}.

(** What one call returns: [(None, None)] or [(cloud_ind, center_point)]. *)
Inductive Center :=
| NoneNone
| Pair (cloud_ind : Z) (center_point : Point).

(** The collaborators of the dataset: random generators, the KD-tree,
    numpy's partial selection, augmentation, subsampling and the pyramid
    builder.  They are used through this interface only. *)
Class Externals := {
  Rng : Type;
  (** a raw draw of numpy's generator; [np.random.choice n] reduces it
      modulo [n] *)
  np_random_raw : Rng -> nat * Rng;
  (** [np.random.normal(scale, size)] for [size] values *)
  np_random_normal : Q -> nat -> Rng -> list Q * Rng;
  (** body of [new_reg_sampling_pts] after its radius check: random
      offsets, [subsample_pack_batch] on a grid of cell [reg_dl] and
      [torch.randperm]; returns the shuffled points and their clouds *)
  grid_queue : Config -> list Points -> Rng -> (Points * list Z) * Rng;
  (** [KDTree.query(q, k, return_distance=False)] *)
  tree_query : Points -> Point -> nat -> result (list nat);
  (** [KDTree.query_radius(q, r)[0]]; the radius is passed squared, so a
      radius [R * sqrt m] is the rational [R^2 * m] *)
  tree_query_radius : Points -> Point -> Q -> result (list nat);
  (** [np.argpartition(a, kth)], [0 <= kth < len(a)] *)
  np_argpartition : list Q -> nat -> list nat;
  (** [self.augmentation_transform] and [ComposeAugment(self.base_augments)] *)
  augmentation_transform :
    Points -> Features -> Labels -> Rng -> (Points * Features * Labels) * Rng;
  calib_augment :
    Points -> Features -> Labels -> Rng -> (Points * Features * Labels) * Rng;
  select_features : Features -> Features;
  (** [subsample_cloud(..., return_inverse=True)] *)
  subsample_cloud :
    Points -> Q -> Features -> Labels ->
    Points * Features * Labels * option (list Z);
  (** [subsample_pack_batch(points, [n], dl, method)[0]] *)
  subsample_pack_batch : Points -> Q -> Points;
  batch_knn_neighbors : Points -> Points -> list Z;
  (** [build_full_pyramid] / [build_base_pyramid] *)
  Pyramid : Type;
  build_pyramid : Config -> Points -> list Z -> Pyramid;
  pyramid_points : Pyramid -> list Points
}.

(** The mutable part of a dataset: the shared regular-sampling state
    ([reg_sampling_i], [reg_votes], the queue), the random generator and
    the time spent in [time.sleep]. *)
Record State `{Externals} := {
  reg_sampling_i : Z;
  reg_votes : Z;
  reg_sample_pts : option Points;
  reg_sample_clouds : option (list Z);
  rng : Rng;
  slept : list Q
}.

Definition M `{Externals} (A : Type) : Type := State -> result (A * State).

Section Sampler.
Context `{E : Externals}.
Variable cfg : Config.
Variable scenes : Scenes.

Definition with_cursor (s : State) (i : Z) : State :=
  {| reg_sampling_i := i; reg_votes := reg_votes s;
     reg_sample_pts := reg_sample_pts s;
     reg_sample_clouds := reg_sample_clouds s;
     rng := rng s; slept := slept s |}.

Definition with_rng (s : State) (g : Rng) : State :=
  {| reg_sampling_i := reg_sampling_i s; reg_votes := reg_votes s;
     reg_sample_pts := reg_sample_pts s;
     reg_sample_clouds := reg_sample_clouds s;
     rng := g; slept := slept s |}.

(** [np.random.choice(n)] *)
Definition np_random_choice (n : nat) : M nat :=
  fun s =>
    match n with
    | O => Raise "ValueError"
    | _ => let '(x, g) := np_random_raw (rng s) in
           Ok (x mod n, with_rng s g)
    end.

(** [new_reg_sampling_pts]: refuses a negative radius, then replaces
    the queue. *)
Definition new_reg_sampling_pts : M unit :=
  fun s =>
    if Qlt_bool (in_radius cfg) 0 then Raise "ValueError"
    else
      let '((pts, clouds), g) :=
        grid_queue cfg (input_trees scenes) (rng s) in
      Ok (tt, {| reg_sampling_i := reg_sampling_i s;
                 reg_votes := reg_votes s;
                 reg_sample_pts := Some pts;
                 reg_sample_clouds := Some clouds;
                 rng := g; slept := slept s |}).

(** The [regular] branch, the body of [with self.worker_lock]: one
    atomic transition of the shared state. *)
Definition sample_regular : M Center :=
  fun s =>
    match reg_sample_pts s with
    | None => Raise "AttributeError"
    | Some pts =>
        let reg_sampling_N := Z.of_nat (List.length pts) in
        let refreshed : result (option State) :=
          if (reg_sampling_i s >=? reg_sampling_N)%Z then
            if String.eqb (set_ cfg) "validation" then
              '(_, s1) <- new_reg_sampling_pts
                            (with_cursor s (wrap64 (reg_sampling_i s * 0))) ;;
              Ok (Some {| reg_sampling_i := reg_sampling_i s1;
                          reg_votes := wrap64 (reg_votes s1 + 1);
                          reg_sample_pts := reg_sample_pts s1;
                          reg_sample_clouds := reg_sample_clouds s1;
                          rng := rng s1; slept := slept s1 |})
            else Ok None
          else Ok (Some s) in
        r <- refreshed ;;
        match r with
        | None => Ok (NoneNone, s)
        | Some s2 =>
            match reg_sample_clouds s2, reg_sample_pts s2 with
            | Some clouds, Some pts2 =>
                cloud_ind <- index clouds (reg_sampling_i s2) ;;
                center_point <- index pts2 (reg_sampling_i s2) ;;
                Ok (Pair cloud_ind center_point,
                    with_cursor s2 (wrap64 (reg_sampling_i s2 + 1)))
            | _, _ => Raise "TypeError"
            end
        end
    end.

(** The loop [while rand_l in self.ignored_labels]: the drawn class
    index is compared with the ignored label values. *)
Fixpoint redraw_label (fuel : nat) (rand_l : nat) : M nat :=
  fun s =>
    if mem (Z.of_nat rand_l) (ignored_labels cfg) then
      match fuel with
      | O => Diverge
      | S fuel' =>
          '(r, s1) <- np_random_choice (num_classes cfg) s ;;
          redraw_label fuel' r s1
      end
    else Ok (rand_l, s).

(** The three ways of choosing [(cloud_ind, point_ind)]. *)
Definition choose_point (fuel : nat) : M (Z * Z) :=
  fun s =>
    if String.eqb (data_sampler cfg) "c-random" then
      '(rand_l0, s1) <- np_random_choice (num_classes cfg) s ;;
      '(rand_l, s2) <- redraw_label fuel rand_l0 s1 ;;
      col <- index (label_indices scenes) (Z.of_nat rand_l) ;;
      '(rand_ind, s3) <- np_random_choice (List.length col) s2 ;;
      cp <- index col (Z.of_nat rand_ind) ;;
      Ok (cp, s3)
    else if String.eqb (data_sampler cfg) "A-random" then
      '(cloud_ind, s1) <-
        np_random_choice (List.length (input_features scenes)) s ;;
      feats <- index (input_features scenes) (Z.of_nat cloud_ind) ;;
      '(point_ind, s2) <- np_random_choice (List.length feats) s1 ;;
      Ok ((Z.of_nat cloud_ind, Z.of_nat point_ind), s2)
    else
      match all_inds scenes with
      | None => Raise "AttributeError"
      | Some all =>
          '(rand_ind, s1) <- np_random_choice (List.length all) s ;;
          cp <- index all (Z.of_nat rand_ind) ;;
          Ok (cp, s1)
      end.

Fixpoint add_noise (p noise : list Q) : list Q :=
  match p, noise with
  | x :: p', n :: noise' => (x + n)%Q :: add_noise p' noise'
  | _, _ => p
  end.

(** The [random] branch.  The noise is added to the centre that is
    returned. *)
Definition sample_random (fuel : nat) (center_noise : Q) : M Center :=
  fun s =>
    '((cloud_ind, point_ind), s1) <- choose_point fuel s ;;
    points <- index (input_trees scenes) cloud_ind ;;
    row <- index points point_ind ;;
    center_point <-
      (if cylindric_input cfg then
         z <- index (input_z scenes) cloud_ind ;;
         match z with
         | None => Raise "TypeError"
         | Some zs =>
             zrow <- index zs point_ind ;;
             match zrow with
             | [h] => Ok (row ++ [h])
             | _ => Raise "ValueError"
             end
         end
       else Ok row) ;;
    let '(noise, g) :=
      np_random_normal center_noise (List.length center_point) (rng s1) in
    Ok (Pair cloud_ind (add_noise center_point noise), with_rng s1 g).

(** [sample_input_center(center_noise=0.05)] *)
Definition sample_input_center (fuel : nat) (center_noise : Q) : M Center :=
  if String.eqb (data_sampler cfg) "regular" then sample_regular
  else if contains "random" (data_sampler cfg) then
    sample_random fuel center_noise
  else fun _ => Raise "ValueError".

End Sampler.

(** [prepare_label_inds]: the table of all [(cloud_ind, point_ind)] and,
    appended to [label_indices], one table per entry of [label_values].
    [np.hstack] of no array at all raises [ValueError]. *)
Definition enum_from {A} (l : list A) : list (nat * A) :=
  combine (seq 0 (List.length l)) l.

Definition cloud_inds_of (cloud_ind : nat) (cloud_labels : Labels)
  : list (Z * Z) :=
  map (fun j => (Z.of_nat cloud_ind, Z.of_nat j))
      (seq 0 (List.length cloud_labels)).

Definition label_inds_of (label : Z) (cloud_ind : nat) (cloud_labels : Labels)
  : list (Z * Z) :=
  map (fun jl => (Z.of_nat cloud_ind, Z.of_nat (fst jl)))
      (filter (fun jl => Z.eqb (snd jl) label) (enum_from cloud_labels)).

Definition prepare_label_inds (cfg : Config) (sc : Scenes) : result Scenes :=
  let clouds := enum_from (input_labels sc) in
  match clouds with
  | [] => Raise "ValueError"
  | _ =>
      Ok {| input_trees := input_trees sc;
            input_features := input_features sc;
            input_labels := input_labels sc;
            input_z := input_z sc;
            all_inds :=
              Some (flat_map (fun cl => cloud_inds_of (fst cl) (snd cl))
                             clouds);
            label_indices :=
              label_indices sc ++
              map (fun label =>
                     flat_map
                       (fun cl => label_inds_of label (fst cl) (snd cl))
                       clouds)
                  (label_values cfg) |}
  end.

(* ------------------------------------------------------------------ *)
(** ** Region extraction *)

(** What [get_input_area] returns.  [squeezed] records that [np.squeeze]
    collapsed a one-neighbour query to a 0-d index, so that
    [input_points] is the single row [points[i]] (a 1-D array) and not a
    one-row matrix; [shape0] is then the width of that row. *)
Record Region := {
  input_inds : list nat;
  input_points : Points;
  region_features : Features;
  region_labels : Labels;
  squeezed : bool
}.

Definition shape0 (r : Region) : nat :=
  if squeezed r then List.length (hd [] (input_points r))
  else List.length (input_points r).

(** Squared Euclidean distance. *)
Definition dist_sq (q p : Point) : Q :=
  fold_right Qplus 0%Q
    (map (fun xc => (fst xc - snd xc) * (fst xc - snd xc))%Q (combine p q)).

(** [np.max(np.abs(p - q))]: Chebyshev distance. *)
Definition cube_dist (q p : Point) : Q :=
  fold_right Qmax 0%Q (map (fun xc => Qabs (fst xc - snd xc)) (combine p q)).

(** One row of [cube_mask]. *)
Definition in_cube (q : Point) (R : Q) (p : Point) : bool :=
  forallb (fun xc => Qlt_bool (snd xc - R) (fst xc)) (combine p q)
  && forallb (fun xc => Qlt_bool (fst xc) (snd xc + R)) (combine p q).

(** Rows and query must have the same width to be combined. *)
Definition same_width (q : Point) (pts : Points) : bool :=
  forallb (fun p => Nat.eqb (List.length p) (List.length q)) pts.

Section Extractor.
Context `{E : Externals}.
Variable cfg : Config.
Variable scenes : Scenes.

Definition q_point_of (center_point : Point) : Point :=
  if cylindric_input cfg then firstn 2 center_point else center_point.

(** The candidates of the fixed-count regime: the [k] nearest neighbours
    when the scene has more than [k] points, all its points otherwise;
    [k] is [-in_radius], doubled for cubes. *)
Definition fixed_count_candidates (points : Points) (q_point : Point)
  : result (list nat * bool) :=
  let k := (- in_radius cfg)%Q in
  let k := if use_cubes cfg then (k * 2)%Q else k in
  if Qlt_bool k (inject_Z (Z.of_nat (List.length points))) then
    kz <- as_int k ;;
    inds <- tree_query points q_point (Z.to_nat kz) ;;
    Ok (inds, Nat.eqb (List.length inds) 1)
  else Ok (seq 0 (List.length points), false).

(** The crop of the fixed-count regime:
    [np.argpartition(cube_dists, -in_radius)[:-in_radius]]. *)
Definition fixed_count_crop (q_point : Point) (inds : list nat) (pts : Points)
  : result (list nat * Points) :=
  if same_width q_point pts then
    let cube_dists := map (cube_dist q_point) pts in
    kth <- as_int (- in_radius cfg) ;;
    if (kth <? Z.of_nat (List.length cube_dists))%Z then
      let pick_indices :=
        firstn (Z.to_nat kth) (np_argpartition cube_dists (Z.to_nat kth)) in
      pts' <- take pts pick_indices ;;
      inds' <- take inds pick_indices ;;
      Ok (inds', pts')
    else Raise "ValueError"
  else Raise "ValueError".

(** The squared radius of the ball query: [in_radius], times [sqrt(dim)]
    or [sqrt(dim - 1)] for cubes. *)
Definition query_radius_sq : Q :=
  let r2 := (in_radius cfg * in_radius cfg)%Q in
  if use_cubes cfg then
    if cylindric_input cfg
    then (r2 * inject_Z (Z.of_nat (dim cfg) - 1))%Q
    else (r2 * inject_Z (Z.of_nat (dim cfg)))%Q
  else r2.

(** [get_input_area(cloud_ind, center_point, only_inds=True)], with the
    selected rows of the tree. *)
Definition get_input_inds (cloud_ind : Z) (center_point : Point)
  : result (list nat * Points * bool) :=
  let q_point := q_point_of center_point in
  if Qlt_bool (in_radius cfg) 0 then
    points <- index (input_trees scenes) cloud_ind ;;
    '(inds, sq) <- fixed_count_candidates points q_point ;;
    pts <- take points inds ;;
    if use_cubes cfg then
      '(inds', pts') <- fixed_count_crop q_point inds pts ;;
      Ok (inds', pts', sq)
    else Ok (inds, pts, sq)
  else
    points <- index (input_trees scenes) cloud_ind ;;
    inds <- tree_query_radius points q_point query_radius_sq ;;
    pts <- take points inds ;;
    if use_cubes cfg then
      if same_width q_point pts then
        let kept :=
          filter (fun ip => in_cube q_point (in_radius cfg) (snd ip))
                 (combine inds pts) in
        Ok (map fst kept, map snd kept, false)
      else Raise "ValueError"
    else Ok (inds, pts, false).

(** [get_input_area(cloud_ind, center_point)] *)
Definition get_input_area (cloud_ind : Z) (center_point : Point)
  : result Region :=
  '(inds, pts, sq) <- get_input_inds cloud_ind center_point ;;
  pts <-
    (if cylindric_input cfg then
       z <- index (input_z scenes) cloud_ind ;;
       match z with
       | None => Raise "TypeError"
       | Some zs =>
           zrows <- take zs inds ;;
           Ok (map (fun pz => fst pz ++ snd pz) (combine pts zrows))
       end
     else Ok pts) ;;
  feats <- index (input_features scenes) cloud_ind ;;
  fs <- take feats inds ;;
  let n := if sq then List.length (hd [] pts) else List.length pts in
  ls <-
    (if String.eqb (set_ cfg) "test" || String.eqb (set_ cfg) "ERF"
     then Ok (repeat 0%Z n)
     else labels <- index (input_labels scenes) cloud_ind ;;
          take labels inds) ;;
  Ok {| input_inds := inds; input_points := pts; region_features := fs;
        region_labels := ls; squeezed := sq |}.

End Extractor.

(* ------------------------------------------------------------------ *)
(** ** Batch assembly *)

(** The lists filled by the loop of [__getitem__] and its point count. *)
Record Acc := {
  p_list : list Points;
  f_list : list Features;
  l_list : list Labels;
  i_list : list Point;
  pi_list : list (list nat);
  pinv_list : list (list Z);
  ci_list : list Z;
  batch_n_pts : Q
}.

Definition empty_acc : Acc :=
  {| p_list := []; f_list := []; l_list := []; i_list := []; pi_list := [];
     pinv_list := []; ci_list := []; batch_n_pts := 0 |}.

(** The concatenated arrays and the two length vectors. *)
Record Stacked := {
  stacked_points : Points;
  stacked_features : Features;
  stacked_labels : Labels;
  center_points : Points;
  cloud_inds : list Z;
  stacked_inds : list nat;
  input_invs : list Z;
  stack_lengths : list Z;
  stack_lengths0 : list Z
}.

(** [np.hstack((a, b))] on two matrices with the same rows. *)
Fixpoint hstack (a b : list (list Q)) : list (list Q) :=
  match a, b with
  | x :: a', y :: b' => (x ++ y) :: hstack a' b'
  | _, _ => []
  end.

(** [torch.sum(torch.reshape(l, (-1, 2)), axis=1)] on an int64 vector. *)
Fixpoint pair_sums (l : list Z) : result (list Z) :=
  match l with
  | [] => Ok []
  | a :: b :: l' => r <- pair_sums l' ;; Ok (wrap64 (a + b) :: r)
  | [_] => Raise "RuntimeError"
  end.

(** The count of regions left untouched by Mix3D among [B]. *)
Definition untouched_count (m : Q) (B : nat) : Z :=
  let untouched :=
    Z.max 0 (Qceiling (inject_Z (Z.of_nat B) * (1 - m))) in
  if ((Z.of_nat B - untouched) mod 2 =? 1)%Z
  then (untouched + 1)%Z else untouched.

(** One length vector through Mix3D:
    [cat([sum(reshape(l[:-untouched], (-1, 2)), 1), l[-untouched:]])]. *)
Definition mix_lengths (untouched : nat) (l : list Z) : result (list Z) :=
  combined <- pair_sums (slice_to_neg l untouched) ;;
  Ok (combined ++ slice_from_neg l untouched).

Definition stack (acc : Acc) : Stacked :=
  {| stacked_points := List.concat (p_list acc);
     stacked_features := List.concat (f_list acc);
     stacked_labels := List.concat (l_list acc);
     center_points := i_list acc;
     cloud_inds := ci_list acc;
     stacked_inds := List.concat (pi_list acc);
     input_invs := List.concat (pinv_list acc);
     stack_lengths := map (fun pp => Z.of_nat (List.length pp)) (p_list acc);
     stack_lengths0 :=
       map (fun pp => Z.of_nat (List.length pp)) (pi_list acc) |}.

(** The optional Mix3D augment; [B] is [len(p_list)]. *)
Definition mix3D_augment (cfg : Config) (B : nat) (st : Stacked)
  : result Stacked :=
  if String.eqb (set_ cfg) "training" && Qlt_bool 0 (mix3D cfg) then
    let untouched := Z.to_nat (untouched_count (mix3D cfg) B) in
    lengths <- mix_lengths untouched (stack_lengths st) ;;
    lengths0 <- mix_lengths untouched (stack_lengths0 st) ;;
    Ok {| stacked_points := stacked_points st;
          stacked_features := stacked_features st;
          stacked_labels := stacked_labels st;
          center_points := center_points st;
          cloud_inds := cloud_inds st;
          stacked_inds := stacked_inds st;
          input_invs := input_invs st;
          stack_lengths := lengths;
          stack_lengths0 := lengths0 |}
  else Ok st.

Section Assembler.
Context `{E : Externals}.
Variable cfg : Config.
Variable scenes : Scenes.

(** The dictionary a call returns: the empty one, holding only
    [points = []], or the pyramid with the batch fields attached. *)
Record BatchDict := {
  pyramid : Pyramid;
  features : Features;
  labels : Labels;
  lengths0 : list Z;
  dict_cloud_inds : list Z;
  dict_center_points : Points;
  dict_input_inds : list nat;
  dict_input_invs : list Z
}.

Inductive InputDict :=
| EmptyDict
| FullDict (d : BatchDict).

Definition points (d : InputDict) : list Points :=
  match d with
  | EmptyDict => []
  | FullDict d => pyramid_points (pyramid d)
  end.

(** Whether the input is subsampled:
    [in_dl > 0 and in_dl > init_sub_size * 1.01]. *)
Definition wants_subsampling : bool :=
  Qlt_bool 0 (in_sub_size cfg)
  && Qlt_bool (init_sub_size cfg * (101 # 100)) (in_sub_size cfg).

(** Steps of one accepted region: height feature, augmentation, feature
    selection, optional subsampling, stacking and the point count. *)
Definition accept_region (acc : Acc) (cloud_ind : Z) (c_point : Point)
    (r : Region) (g : Rng) : Acc * Rng :=
  let in_features :=
    hstack (region_features r) (map (skipn 2) (input_points r)) in
  let '((in_points2, in_features, in_labels), g') :=
    augmentation_transform (input_points r) in_features (region_labels r) g in
  let in_features := select_features in_features in
  let '(in_points, in_features, in_labels, inv_inds) :=
    if wants_subsampling then
      let '(sp, sf, sl, inv) :=
        subsample_cloud in_points2 (in_sub_size cfg) in_features in_labels in
      (sp, sf, sl,
       match inv with
       | Some inv => inv
       | None => batch_knn_neighbors in_points2 sp
       end)
    else
      (in_points2, in_features, in_labels,
       map Z.of_nat (seq 0 (List.length in_points2))) in
  let n := inject_Z (Z.of_nat (List.length in_points)) in
  let total := (batch_n_pts acc + n)%Q in
  let total :=
    if Qlt_bool (in_radius cfg) 0
    then (total + (- in_radius cfg - n))%Q else total in
  ({| p_list := p_list acc ++ [in_points];
      f_list := f_list acc ++ [in_features];
      l_list := l_list acc ++ [in_labels];
      i_list := i_list acc ++ [c_point];
      pi_list := pi_list acc ++ [input_inds r];
      pinv_list := pinv_list acc ++ [inv_inds];
      ci_list := ci_list acc ++ [cloud_ind];
      batch_n_pts := total |}, g').

(** [batch_n_pts > int(self.b_lim)] *)
Definition batch_full (acc : Acc) : bool :=
  Qlt_bool (inject_Z (int (b_lim cfg))) (batch_n_pts acc).

(** The [while True] loop of [__getitem__]. *)
Fixpoint batch_loop (sfuel fuel : nat) (acc : Acc) : M Acc :=
  fun s =>
    match fuel with
    | O => Diverge
    | S fuel' =>
        '(c, s1) <- sample_input_center cfg scenes sfuel (5 # 100) s ;;
        match c with
        | NoneNone => Ok (acc, s1)
        | Pair cloud_ind c_point =>
            r <- get_input_area cfg scenes cloud_ind c_point ;;
            if Nat.ltb (shape0 r) 1 then batch_loop sfuel fuel' acc s1
            else if squeezed r then Raise "IndexError"
            else
              let '(acc', g) :=
                accept_region acc cloud_ind c_point r (rng s1) in
              let s2 := with_rng s1 g in
              if batch_full acc' then Ok (acc', s2)
              else batch_loop sfuel fuel' acc' s2
        end
    end.

Definition sleep (t : Q) : M unit :=
  fun s =>
    Ok (tt, {| reg_sampling_i := reg_sampling_i s; reg_votes := reg_votes s;
               reg_sample_pts := reg_sample_pts s;
               reg_sample_clouds := reg_sample_clouds s;
               rng := rng s; slept := slept s ++ [t] |}).

(** [__getitem__(batch_i)] *)
Definition __getitem__ (sfuel fuel : nat) : M InputDict :=
  fun s =>
    '(acc, s1) <- batch_loop sfuel fuel empty_acc s ;;
    if Nat.ltb (List.length (p_list acc)) 1 then
      '(_, s2) <- sleep (1 # 10) s1 ;;
      Ok (EmptyDict, s2)
    else
      st <- mix3D_augment cfg (List.length (p_list acc)) (stack acc) ;;
      Ok (FullDict
            {| pyramid := build_pyramid cfg (stacked_points st)
                                        (stack_lengths st);
               features := stacked_features st;
               labels := stacked_labels st;
               lengths0 := stack_lengths0 st;
               dict_cloud_inds := cloud_inds st;
               dict_center_points := center_points st;
               dict_input_inds := stacked_inds st;
               dict_input_invs := input_invs st |}, s1).

End Assembler.

(* ------------------------------------------------------------------ *)
(** ** Batch-limit calibration *)

(** The value returned by [calib_batch_limit] ([None] is numpy's [nan],
    the mean of no sample) and the lists its report is computed from. *)
Record Calibration := {
  new_b_lim : option Q;
  all_cloud_n : list Z;
  all_batch_n : list Z;
  all_batch_n_pts : list Z
}.

(** [np.mean] of a list of integers. *)
Definition np_mean (l : list Z) : option Q :=
  match l with
  | [] => None
  | _ => Some (inject_Z (fold_right Z.add 0%Z l)
               / inject_Z (Z.of_nat (List.length l)))%Q
  end.

Section Calibrator.
Context `{E : Externals}.
Variable cfg : Config.
Variable scenes : Scenes.

(** First loop: [while len(all_cloud_n) < samples].  A squeezed region is
    a 1-D array, on which the augmentation and subsampling routines,
    written for N x D arrays, are not defined: the model stops there. *)
Fixpoint collect_cloud_n (sfuel fuel samples : nat) (acc : list Z)
  : M (list Z) :=
  fun s =>
    if Nat.ltb (List.length acc) samples then
      match fuel with
      | O => Diverge
      | S fuel' =>
          '(c, s1) <- sample_input_center cfg scenes sfuel (5 # 100) s ;;
          match c with
          | NoneNone => Ok (acc, s1)
          | Pair cloud_ind center_p =>
              r <- get_input_area cfg scenes cloud_ind center_p ;;
              if Nat.ltb 0 (shape0 r) then
                if squeezed r then Raise "IndexError"
                else
                  let '((in_points, _, _), g) :=
                    calib_augment (input_points r) (region_features r)
                                  (region_labels r) (rng s1) in
                  let n :=
                    if wants_subsampling cfg
                    then List.length
                           (subsample_pack_batch in_points (in_sub_size cfg))
                    else List.length in_points in
                  collect_cloud_n sfuel fuel' samples (acc ++ [Z.of_nat n])
                                  (with_rng s1 g)
              else collect_cloud_n sfuel fuel' samples acc s1
          end
      end
    else Ok (acc, s).

(** [batch_n_pts > new_b_lim]; a comparison with [nan] is false. *)
Definition over_limit (lim : option Q) (batch_n_pts : Z) : bool :=
  match lim with
  | None => false
  | Some b => Qlt_bool b (inject_Z batch_n_pts)
  end.

(** One synthetic batch: sizes drawn from [all_cloud_n] until the total
    exceeds the limit. *)
Fixpoint simulate_batch (fuel samples : nat) (sizes : list Z)
    (lim : option Q) (batch_n batch_n_pts : Z) : M (Z * Z) :=
  fun s =>
    match fuel with
    | O => Diverge
    | S fuel' =>
        '(rand_i, s1) <- np_random_choice samples s ;;
        n <- index sizes (Z.of_nat rand_i) ;;
        let batch_n_pts := (batch_n_pts + n)%Z in
        let batch_n := (batch_n + 1)%Z in
        if over_limit lim batch_n_pts then Ok ((batch_n, batch_n_pts), s1)
        else simulate_batch fuel' samples sizes lim batch_n batch_n_pts s1
    end.

(** [for i in range(samples)]: [todo] batches remain. *)
Fixpoint simulate_batches (fuel samples todo : nat) (sizes : list Z)
    (lim : option Q) (ns pts : list Z) : M (list Z * list Z) :=
  fun s =>
    match todo with
    | O => Ok ((ns, pts), s)
    | S todo' =>
        '((n, p), s1) <- simulate_batch fuel samples sizes lim 0 0 s ;;
        simulate_batches fuel samples todo' sizes lim (ns ++ [n]) (pts ++ [p])
                         s1
    end.

(** [calib_batch_limit(batch_size, samples=100)] *)
Definition calib_batch_limit (sfuel fuel : nat) (batch_size : Q)
    (samples : nat) : M Calibration :=
  fun s =>
    '(sizes, s1) <- collect_cloud_n sfuel fuel samples [] s ;;
    let lim :=
      match np_mean sizes with
      | None => None
      | Some mean_cloud_n => Some (mean_cloud_n * batch_size - 1)%Q
      end in
    '((ns, pts), s2) <-
      simulate_batches fuel samples samples sizes lim [] [] s1 ;;
    Ok ({| new_b_lim := lim; all_cloud_n := sizes;
           all_batch_n := ns; all_batch_n_pts := pts |}, s2).

End Calibrator.

(* ------------------------------------------------------------------ *)
(** ** A reference implementation of the collaborators

    Used to run the model on concrete data.  The generator reads a tape
    of draws; the KD-tree is a linear scan; partial selection is a stable
    insertion sort; augmentation, feature selection and subsampling are
    the identity. *)

Module Ref.

(** Indices sorted by key, ties by position. *)
Fixpoint insert_by (key : nat -> Q) (i : nat) (l : list nat) : list nat :=
  match l with
  | [] => [i]
  | j :: l' =>
      if Qle_bool (key i) (key j) then i :: l else j :: insert_by key i l'
  end.

Definition argsort (a : list Q) : list nat :=
  fold_right (insert_by (fun i => nth i a 0%Q)) [] (seq 0 (List.length a)).

Definition query (data : Points) (q : Point) (k : nat) : result (list nat) :=
  if same_width q data then
    if Nat.leb k (List.length data)
    then Ok (firstn k (argsort (map (dist_sq q) data)))
    else Raise "ValueError"
  else Raise "ValueError".

Definition query_radius (data : Points) (q : Point) (r_sq : Q)
  : result (list nat) :=
  if same_width q data then
    Ok (map fst (filter (fun ip => Qle_bool (dist_sq q (snd ip)) r_sq)
                        (combine (seq 0 (List.length data)) data)))
  else Raise "ValueError".

(** The generator: a tape of raw draws and the queues handed out by
    successive regenerations. *)
Record Tape := {
  draws : list nat;
  queues : list (Points * list Z)
}.

Definition raw (t : Tape) : nat * Tape :=
  match draws t with
  | [] => (0, t)
  | x :: d => (x, {| draws := d; queues := queues t |})
  end.

Definition next_queue (t : Tape) : (Points * list Z) * Tape :=
  match queues t with
  | [] => (([], []), t)
  | x :: qs => (x, {| draws := draws t; queues := qs |})
  end.

#[export] Instance externals : Externals := {|
  Rng := Tape;
  np_random_raw := raw;
  np_random_normal := fun _ n t => (repeat 0%Q n, t);
  grid_queue := fun _ _ t => next_queue t;
  tree_query := query;
  tree_query_radius := query_radius;
  np_argpartition := fun a _ => argsort a;
  augmentation_transform := fun p f l t => ((p, f, l), t);
  calib_augment := fun p f l t => ((p, f, l), t);
  select_features := fun f => f;
  subsample_cloud := fun p _ f l => (p, f, l, None);
  subsample_pack_batch := fun p _ => p;
  batch_knn_neighbors := fun p _ => map Z.of_nat (seq 0 (List.length p));
  Pyramid := Points * list Z;
  build_pyramid := fun _ p l => (p, l);
  pyramid_points := fun pl => [fst pl]
|}.

End Ref.


(* ------------------------------------------------------------------ *)
(** ** Progress of the regular sweep and batch-size calibration *)

Section Progress.
Context `{E : Externals}.
Variable cfg : Config.

(** [get_votes]: the votes plus the fraction of the queue already
    served; a float division by zero raises [ZeroDivisionError]. *)
Definition get_votes (s : State) : result Q :=
  if String.eqb (data_sampler cfg) "regular" then
    match reg_sample_pts s with
    | None => Raise "AttributeError"
    | Some pts =>
        let reg_sampling_N := inject_Z (Z.of_nat (List.length pts)) in
        if Qeq_bool reg_sampling_N 0 then Raise "ZeroDivisionError"
        else Ok (inject_Z (reg_votes s)
                 + inject_Z (reg_sampling_i s) / reg_sampling_N)%Q
    end
  else Ok 0%Q.

End Progress.

(** What [calib_batch_size] computes: the new [self.b_n] ([None] is
    [nan]) and the lists of its report. *)
Record SizeCalibration := {
  new_b_n : option Q;
  size_batch_n : list Z;
  size_batch_n_pts : list Z
}.

Section BatchSizeCalibration.
Context `{E : Externals}.
Variable cfg : Config.
Variable scenes : Scenes.
(** [calib_augment(in_points, None, None)[0]]: the base augmentations
    applied to points alone. *)
Variable calib_augment_points : Points -> Rng -> Points * Rng.

(** The [while True] loop of [calib_batch_size].  The result of the
    sampler is passed on unchecked: [get_input_area(None, None)] raises
    [TypeError].  A squeezed region is a 1-D array, on which the
    augmentations are not defined: the model stops there. *)
Fixpoint size_batch (sfuel fuel : nat) (batch_n batch_n_pts : Z)
  : M (Z * Z) :=
  fun s =>
    match fuel with
    | O => Diverge
    | S fuel' =>
        '(c, s1) <- sample_input_center cfg scenes sfuel (5 # 100) s ;;
        match c with
        | NoneNone => Raise "TypeError"
        | Pair cloud_ind center_p =>
            r <- get_input_area cfg scenes cloud_ind center_p ;;
            if squeezed r then Raise "IndexError"
            else
              let '(in_points, g) :=
                calib_augment_points (input_points r) (rng s1) in
              let s2 := with_rng s1 g in
              if Nat.ltb 0 (List.length in_points) then
                let n :=
                  if wants_subsampling cfg
                  then List.length
                         (subsample_pack_batch in_points (in_sub_size cfg))
                  else List.length in_points in
                let batch_n_pts := (batch_n_pts + Z.of_nat n)%Z in
                let batch_n := (batch_n + 1)%Z in
                if Qlt_bool (b_lim cfg) (inject_Z batch_n_pts)
                then Ok ((batch_n, batch_n_pts), s2)
                else size_batch sfuel fuel' batch_n batch_n_pts s2
              else size_batch sfuel fuel' batch_n batch_n_pts s2
        end
    end.

(** [for i in range(samples)]: [todo] trial batches remain. *)
Fixpoint size_batches (sfuel fuel todo : nat) (ns pts : list Z)
  : M (list Z * list Z) :=
  fun s =>
    match todo with
    | O => Ok ((ns, pts), s)
    | S todo' =>
        '((n, p), s1) <- size_batch sfuel fuel 0 0 s ;;
        size_batches sfuel fuel todo' (ns ++ [n]) (pts ++ [p]) s1
    end.

(** [calib_batch_size(samples=20)] *)
Definition calib_batch_size (sfuel fuel samples : nat) : M SizeCalibration :=
  fun s =>
    '((ns, pts), s1) <- size_batches sfuel fuel samples [] [] s ;;
    Ok ({| new_b_n := np_mean ns; size_batch_n := ns;
           size_batch_n_pts := pts |}, s1).

End BatchSizeCalibration.

(** What [calib_batch] leaves behind: the new [self.b_n] and
    [self.b_lim] ([None] is [nan]), and the pairs written to [cfg.train]
    and to [cfg.test] ([None] when the section is not written). *)
Record BatchCalibration := {
  calibrated_b_n : option Q;
  calibrated_b_lim : option Q;
  train_batch : option (option Q * option Q);
  test_batch : option (option Q * option Q)
}.

Section BatchCalibrationEntry.
Context `{E : Externals}.
Variable cfg : Config.
Variable scenes : Scenes.
Variable calib_augment_points : Points -> Rng -> Points * Rng.

(** [calib_batch(cfg, update_test=True)], for a dataset whose batch size
    is [b_n].  A batch limit set by the user has the batch size measured
    ([calib_batch_size()], 20 samples); otherwise the limit is searched
    from the batch size ([calib_batch_limit(self.b_n)], 100 samples).
    The cursor of the regular sweep is reset at the end. *)
Definition calib_batch (sfuel fuel : nat) (b_n : Q) (update_test : bool)
  : M BatchCalibration :=
  fun s =>
    '((new_n, new_lim), s1) <-
      (if Qlt_bool 0 (b_lim cfg) then
         '(cal, s1) <-
           calib_batch_size cfg scenes calib_augment_points sfuel fuel 20 s ;;
         Ok ((new_b_n cal, Some (b_lim cfg)), s1)
       else
         '(cal, s1) <- calib_batch_limit cfg scenes sfuel fuel b_n 100 s ;;
         Ok ((Some b_n, new_b_lim cal), s1)) ;;
    let written := Some (new_n, new_lim) in
    let '(train, test) :=
      if String.eqb (set_ cfg) "training"
      then (written, if update_test then written else None)
      else (None, written) in
    Ok ({| calibrated_b_n := new_n; calibrated_b_lim := new_lim;
           train_batch := train; test_batch := test |},
        with_cursor s1 (wrap64 (reg_sampling_i s1 * 0))).

End BatchCalibrationEntry.
(* ------------------------------------------------------------------ *)
(** ** Vocabulary of the properties *)

(** The sums of the adjacent pairs of a vector, as the reshape to two
    columns pairs them: [[a; b; c; d]] gives [[a + b; c + d]]. *)
Fixpoint adjacent_sums (l : list Z) : list Z :=
  match l with
  | a :: b :: l' => (a + b)%Z :: adjacent_sums l'
  | _ => []
  end.

Definition total (l : list Z) : Z := fold_right Z.add 0%Z l.

(** A vector of lengths: sizes of arrays held in memory. *)
Definition lengths_ok (l : list Z) : Prop :=
  Forall (fun x => (0 <= x < 2 ^ 62)%Z) l.

(** What [mix_lengths] computes, in terms of the number [n] of leading
    regions that are merged. *)
Definition merged_prefix (n : nat) (l : list Z) : list Z :=
  adjacent_sums (firstn n l) ++ skipn n l.

(** The number of merged regions for an untouched count [u]: Python's
    [l[:-u]] keeps [len(l) - u] entries, except that [l[:-0]] is empty. *)
Definition merged_count (B u : nat) : nat :=
  match u with O => O | _ => B - u end.

(** [n] successive calls of [sample_input_center], results in order. *)
Fixpoint draw_centers `{Externals} (cfg : Config) (scenes : Scenes)
    (sfuel : nat) (noise : Q) (n : nat) : M (list Center) :=
  fun s =>
    match n with
    | O => Ok ([], s)
    | S n' =>
        '(c, s1) <- sample_input_center cfg scenes sfuel noise s ;;
        '(cs, s2) <- draw_centers cfg scenes sfuel noise n' s1 ;;
        Ok (c :: cs, s2)
    end.

(** The centres queued from position [i] on. *)
Fixpoint queued_from (i : nat) (clouds : list Z) (pts : Points)
  : list Center :=
  match i, clouds, pts with
  | O, c :: clouds', p :: pts' => Pair c p :: queued_from O clouds' pts'
  | S i', _ :: clouds', _ :: pts' => queued_from i' clouds' pts'
  | _, _, _ => []
  end.

Definition is_pair (c : Center) : bool :=
  match c with NoneNone => false | Pair _ _ => true end.

(** The policy names of the documentation: [regular] and the random
    variants. *)
Definition recognized_policies : list string :=
  ["regular"; "random"; "c-random"; "A-random"].

(** What a list of accepted regions adds to the running total of
    [__getitem__]: [k = -in_radius] for each region in the fixed-count
    regime, its number of points otherwise. *)
Definition contribution (cfg : Config) (ps : list Points) : Q :=
  if Qlt_bool (in_radius cfg) 0
  then (- in_radius cfg * inject_Z (Z.of_nat (List.length ps)))%Q
  else inject_Z (Z.of_nat (List.length (List.concat ps))).

(** The state after [time.sleep(t)]. *)
Definition after_sleep `{Externals} (s : State) (t : Q) : State :=
  {| reg_sampling_i := reg_sampling_i s; reg_votes := reg_votes s;
     reg_sample_pts := reg_sample_pts s;
     reg_sample_clouds := reg_sample_clouds s;
     rng := rng s; slept := slept s ++ [t] |}.

(** The regular queue is used up: the cursor is at or past its end. *)
Definition exhausted `{Externals} (s : State) : Prop :=
  exists pts,
    reg_sample_pts s = Some pts
    /\ (Z.of_nat (List.length pts) <= reg_sampling_i s)%Z.

(** A point within Euclidean distance [R >= 0] of [q]. *)
Definition inside_ball (q : Point) (R : Q) (p : Point) : Prop :=
  (dist_sq q p <= R * R)%Q.

(** A point each of whose coordinates is strictly within [R] of the
    matching coordinate of [q]. *)
Definition inside_cube (q : Point) (R : Q) (p : Point) : Prop :=
  List.length p = List.length q
  /\ Forall (fun xc => (snd xc - R < fst xc /\ fst xc < snd xc + R)%Q)
            (combine p q).

(** Contract of the ball query of a spatial index: it returns indices of
    stored points, all within the radius of the query point. *)
Definition radius_query_sound `{Externals} : Prop :=
  forall (data : Points) (q : Point) (r_sq : Q) (inds : list nat),
    tree_query_radius data q r_sq = Ok inds ->
    Forall (fun i => exists p,
                nth_error data i = Some p /\ (dist_sq q p <= r_sq)%Q) inds.

(** Contract of the nearest-neighbour query: [k] distinct indices of
    stored points. *)
Definition knn_query_sound `{Externals} : Prop :=
  forall (data : Points) (q : Point) (k : nat) (inds : list nat),
    tree_query data q k = Ok inds ->
    List.length inds = k /\ NoDup inds
    /\ Forall (fun i => i < List.length data) inds.

(** Contract of [np.argpartition(a, kth)] for [kth < len(a)]: a
    permutation of the positions of [a] whose first [kth] entries hold
    values no larger than those of the entries from [kth] on. *)
Definition argpartition_sound `{Externals} : Prop :=
  forall (a : list Q) (kth : nat),
    kth < List.length a ->
    Permutation (np_argpartition a kth) (seq 0 (List.length a))
    /\ forall x y,
         In x (firstn kth (np_argpartition a kth)) ->
         In y (skipn kth (np_argpartition a kth)) ->
         (nth x a 0 <= nth y a 0)%Q.

(** Order of two positions by their keys. *)
Definition key_le (key : nat -> Q) (i j : nat) : Prop := (key i <= key j)%Q.

(** The sizes picked by a list of draws among the recorded sizes. *)
Definition drawn_sizes (sizes : list Z) (draws : list nat) : list Z :=
  map (fun i => nth i sizes 0%Z) draws.

(** One synthetic batch of the verification: [n] draws with replacement
    among [samples] recorded sizes, accumulated to [pts], which exceeds
    the limit while the draws before the last one did not. *)
Definition simulated_batch (samples : nat) (sizes : list Z) (lim : Q)
    (n pts : Z) : Prop :=
  exists (init : list nat) (j : nat),
    Forall (fun i => i < samples) (init ++ [j])
    /\ n = Z.of_nat (List.length (init ++ [j]))
    /\ pts = total (drawn_sizes sizes (init ++ [j]))
    /\ (lim < inject_Z pts)%Q
    /\ (init <> [] -> (inject_Z (total (drawn_sizes sizes init)) <= lim)%Q).

(** A recorded region size: the number of points of a non-empty region
    after the calibration augmentation and the optional subsampling. *)
Definition measured_size `{Externals} (cfg : Config) (n : Z) : Prop :=
  exists (r : Region) (g : Rng),
    1 <= shape0 r
    /\ let in_points :=
         fst (fst (fst (calib_augment (input_points r) (region_features r)
                                      (region_labels r) g))) in
       n = Z.of_nat
             (if wants_subsampling cfg
              then List.length (subsample_pack_batch in_points
                                                     (in_sub_size cfg))
              else List.length in_points).

(** Contract of the ball query, second half: no stored point within the
    radius is left out. *)
Definition radius_query_complete `{Externals} : Prop :=
  forall (data : Points) (q : Point) (r_sq : Q) (inds : list nat),
    tree_query_radius data q r_sq = Ok inds ->
    forall i p,
      nth_error data i = Some p -> (dist_sq q p <= r_sq)%Q -> In i inds.

(** Two states that differ at most by the random generator. *)
Definition same_sampling_state `{Externals} (s s' : State) : Prop :=
  reg_sampling_i s' = reg_sampling_i s
  /\ reg_votes s' = reg_votes s
  /\ reg_sample_pts s' = reg_sample_pts s
  /\ reg_sample_clouds s' = reg_sample_clouds s
  /\ slept s' = slept s.

(** The cursor is a position of the queue, or its end. *)
Definition cursor_in_queue `{Externals} (s : State) : Prop :=
  exists pts,
    reg_sample_pts s = Some pts
    /\ (0 <= reg_sampling_i s <= Z.of_nat (List.length pts))%Z.

(** The queue, if any, is an array: fewer than [2^63] entries. *)
Definition queue_fits `{Externals} (s : State) : Prop :=
  forall pts,
    reg_sample_pts s = Some pts -> (Z.of_nat (List.length pts) < 2 ^ 63)%Z.


(** [n] successive calls of [__getitem__], results in order. *)
Fixpoint get_items `{Externals} (cfg : Config) (scenes : Scenes)
    (sfuel fuel n : nat) : M (list InputDict) :=
  fun s =>
    match n with
    | O => Ok ([], s)
    | S n' =>
        '(d, s1) <- __getitem__ cfg scenes sfuel fuel s ;;
        '(ds, s2) <- get_items cfg scenes sfuel fuel n' s1 ;;
        Ok (d :: ds, s2)
    end.

(** The state after [n] calls of [time.sleep(t)]. *)
Definition after_sleeps `{Externals} (s : State) (t : Q) (n : nat) : State :=
  {| reg_sampling_i := reg_sampling_i s; reg_votes := reg_votes s;
     reg_sample_pts := reg_sample_pts s;
     reg_sample_clouds := reg_sample_clouds s;
     rng := rng s; slept := slept s ++ repeat t n |}.

(** Whether the loop of [__getitem__] keeps the region of a centre: the
    extraction succeeds and returns at least one point. *)
Definition region_nonempty `{Externals} (cfg : Config) (scenes : Scenes)
    (c : Center) : bool :=
  match c with
  | NoneNone => false
  | Pair cloud_ind c_point =>
      match get_input_area cfg scenes cloud_ind c_point with
      | Ok r => negb (Nat.ltb (shape0 r) 1)
      | _ => false
      end
  end.

(** The centres recorded in a batch, with their cloud indices. *)
Definition batch_centers (acc : Acc) : list Center :=
  map (fun cp => Pair (fst cp) (snd cp))
      (combine (ci_list acc) (i_list acc)).

(** Two states with the same queue, votes and sleep log: they differ at
    most by the cursor and the random generator. *)
Definition same_queue `{Externals} (s s' : State) : Prop :=
  reg_votes s' = reg_votes s
  /\ reg_sample_pts s' = reg_sample_pts s
  /\ reg_sample_clouds s' = reg_sample_clouds s
  /\ slept s' = slept s.

(** The queue is replaced only by the regular policy in the validation
    role. *)
Definition single_pass (cfg : Config) : Prop :=
  data_sampler cfg <> "regular" \/ set_ cfg <> "validation".
(* ------------------------------------------------------------------ *)
(** ** Concrete datasets *)

Module Data.

(** The scenes once [prepare_label_inds] has run. *)
Definition prepared (cfg : Config) (sc : Scenes) : Scenes :=
  match prepare_label_inds cfg sc with
  | Ok sc' => sc'
  | _ => sc
  end.

(** Four regions of 3, 4, 5 and 6 points, stacked. *)
Definition stacked4 : Stacked :=
  {| stacked_points := []; stacked_features := []; stacked_labels := [];
     center_points := []; cloud_inds := [0; 0; 0; 0]%Z; stacked_inds := [];
     input_invs := []; stack_lengths := [3; 4; 5; 6]%Z;
     stack_lengths0 := [3; 4; 5; 6]%Z |}.


(** A training configuration, sphere regions of radius 1, Mix3D with
    fraction [m]. *)
Definition train_cfg (m : Q) : Config :=
  {| set_ := "training"; data_sampler := "random"; in_radius := 1;
     b_lim := 100; use_cubes := false; cylindric_input := false; dim := 3;
     num_classes := 2; label_values := [0; 1]%Z; ignored_labels := [];
     mix3D := m; in_sub_size := 0; init_sub_size := 0 |}.

End Data.

Module RegularData.
Import Ref.

(** One scene of three points on a line, with one feature each. *)
Definition scenes : Scenes :=
  {| input_trees := [[[0; 0; 0]; [1 # 2; 0; 0]; [3; 0; 0]]%Q];
     input_features := [[[1]; [2]; [3]]%Q];
     input_labels := [[0; 1; 1]%Z];
     input_z := [None];
     all_inds := None;
     label_indices := [] |}.

(** Regular sampling with spheres of radius 1 in the given role. *)
Definition cfg (role : string) (budget : Q) : Config :=
  {| set_ := role; data_sampler := "regular"; in_radius := 1;
     b_lim := budget; use_cubes := false; cylindric_input := false; dim := 3;
     num_classes := 2; label_values := [0; 1]%Z; ignored_labels := [];
     mix3D := 0; in_sub_size := 0; init_sub_size := 0 |}.

(** A queue of two centres, cursor at its start; the generator holds one
    more queue for a regeneration. *)
Definition start : State :=
  {| reg_sampling_i := 0; reg_votes := 0;
     reg_sample_pts := Some [[0; 0; 0]; [3; 0; 0]]%Q;
     reg_sample_clouds := Some [0; 0]%Z;
     rng := {| draws := []; queues := [([[3; 0; 0]; [0; 0; 0]]%Q, [0; 0]%Z)] |};
     slept := [] |}.

End RegularData.

Module RandomData.
Import Ref.

(** Sphere regions of radius 1 in the training role, centres chosen by
    the policy named [sampler]. *)
Definition cfg (sampler : string) : Config :=
  {| set_ := "training"; data_sampler := sampler; in_radius := 1;
     b_lim := 100; use_cubes := false; cylindric_input := false; dim := 3;
     num_classes := 2; label_values := [0; 1]%Z; ignored_labels := [];
     mix3D := 0; in_sub_size := 0; init_sub_size := 0 |}.

Definition scenes : Scenes :=
  Data.prepared (cfg "random") RegularData.scenes.

(** No queue; the generator will draw 1, then 2, then 3. *)
Definition start : State :=
  {| reg_sampling_i := 0; reg_votes := 0;
     reg_sample_pts := None; reg_sample_clouds := None;
     rng := {| draws := [1; 2; 3]; queues := [] |};
     slept := [] |}.

End RandomData.

Module FixedCountData.
Import Ref.

(** Three scenes of five, three and two points. *)
Definition scenes0 : Scenes :=
  {| input_trees :=
       [[[0; 0; 0]; [1; 0; 0]; [2; 0; 0]; [9 # 10; 9 # 10; 9 # 10]; [5; 5; 5]];
        [[0; 0; 0]; [1; 0; 0]; [3; 0; 0]];
        [[0; 0; 0]; [1; 0; 0]]]%Q;
     input_features :=
       [[[1]; [2]; [3]; [4]; [5]]; [[1]; [2]; [3]]; [[1]; [2]]]%Q;
     input_labels := [[0; 1; 1; 0; 1]; [0; 1; 1]; [1; 1]]%Z;
     input_z := [None; None; None];
     all_inds := None;
     label_indices := [] |}.

(** Regions of exactly [k = 2] points, spheres or cubes, uniform random
    centres, a budget of 3 points. *)
Definition cfg (cubes : bool) : Config :=
  {| set_ := "training"; data_sampler := "random"; in_radius := -2;
     b_lim := 3; use_cubes := cubes; cylindric_input := false; dim := 3;
     num_classes := 2; label_values := [0; 1]%Z; ignored_labels := [];
     mix3D := 0; in_sub_size := 0; init_sub_size := 0 |}.

Definition scenes : Scenes := Data.prepared (cfg false) scenes0.

Definition start : State :=
  {| reg_sampling_i := 0; reg_votes := 0;
     reg_sample_pts := None; reg_sample_clouds := None;
     rng := {| draws := [1; 2; 3]; queues := [] |};
     slept := [] |}.

End FixedCountData.

Module FarData.
Import Ref.

(** A queue whose only centre is far from every point of the scene. *)
Definition start : State :=
  {| reg_sampling_i := 0; reg_votes := 0;
     reg_sample_pts := Some [[10; 0; 0]]%Q;
     reg_sample_clouds := Some [0]%Z;
     rng := {| draws := []; queues := [] |};
     slept := [] |}.

End FarData.

Module ShapeData.
Import Ref.

(** One scene indexed in the plane, heights kept aside. *)
Definition scenes2d : Scenes :=
  {| input_trees := [[[0; 0]; [1 # 2; 0]; [3; 0]; [9 # 10; 1]]%Q];
     input_features := [[[1]; [2]; [3]; [4]]%Q];
     input_labels := [[0; 1; 1; 0]%Z];
     input_z := [Some [[0]; [1]; [2]; [3]]%Q];
     all_inds := None;
     label_indices := [] |}.

(** Regions of radius 1 around the centre: cylinders, or cubic cylinders. *)
Definition cfg (cubes : bool) : Config :=
  {| set_ := "training"; data_sampler := "random"; in_radius := 1;
     b_lim := 100; use_cubes := cubes; cylindric_input := true; dim := 3;
     num_classes := 2; label_values := [0; 1]%Z; ignored_labels := [];
     mix3D := 0; in_sub_size := 0; init_sub_size := 0 |}.

End ShapeData.

Module IgnoredData.
Import Ref.

(** Two labels, 1 and 2, the second one ignored; scene 1 holds points of
    the ignored label only. *)
Definition cfg : Config :=
  {| set_ := "training"; data_sampler := "c-random"; in_radius := 1;
     b_lim := 100; use_cubes := false; cylindric_input := false; dim := 3;
     num_classes := 2; label_values := [1; 2]%Z; ignored_labels := [2]%Z;
     mix3D := 0; in_sub_size := 0; init_sub_size := 0 |}.

Definition scenes : Scenes :=
  Data.prepared cfg
    {| input_trees := [[[0; 0; 0]]; [[5; 0; 0]; [6; 0; 0]]]%Q;
       input_features := [[[1]]; [[2]; [3]]]%Q;
       input_labels := [[1]; [2; 2]]%Z;
       input_z := [None; None];
       all_inds := None;
       label_indices := [] |}.

(** The generator draws 1, then 0. *)
Definition start : State :=
  {| reg_sampling_i := 0; reg_votes := 0;
     reg_sample_pts := None; reg_sample_clouds := None;
     rng := {| draws := [1; 0]; queues := [] |};
     slept := [] |}.

End IgnoredData.

Module CalibData.
Import Ref.

(** Uniform random centres; the generator draws 1, 2, 0, 1, 1, 1. *)
Definition start : State :=
  {| reg_sampling_i := 0; reg_votes := 0;
     reg_sample_pts := None; reg_sample_clouds := None;
     rng := {| draws := [1; 2; 0; 1; 1; 1]; queues := [] |};
     slept := [] |}.

End CalibData.


Module MixData.
Import Ref.

(** The training role with Mix3D on half of the regions, uniform random
    centres, spheres of radius 1 and a budget of 5 points. *)
Definition cfg : Config :=
  {| set_ := "training"; data_sampler := "random"; in_radius := 1;
     b_lim := 5; use_cubes := false; cylindric_input := false; dim := 3;
     num_classes := 2; label_values := [0; 1]%Z; ignored_labels := [];
     mix3D := 1 # 2; in_sub_size := 0; init_sub_size := 0 |}.

End MixData.
(* ------------------------------------------------------------------ *)
(** ** Properties of the Mix3D step *)

Section Mix3D.

Lemma wrap64_small (z : Z) :
  (- 2 ^ 63 <= z < 2 ^ 63)%Z -> wrap64 z = z.
Proof.
  intros Hz. unfold wrap64.
  rewrite Z.mod_small; lia.
Qed.

Lemma list_pair_ind (A : Type) (P : list A -> Prop) :
  P [] -> (forall a, P [a]) ->
  (forall a b l, P l -> P (a :: b :: l)) ->
  forall l, P l.
Proof.
  intros H0 H1 H2.
  assert (H : forall l, P l /\ forall a, P (a :: l)).
  { induction l as [|b l [IH1 IH2]]; split; auto. }
  intros l. apply H.
Qed.

Lemma pair_sums_adjacent (l : list Z) :
  Nat.even (List.length l) = true -> lengths_ok l ->
  pair_sums l = Ok (adjacent_sums l).
Proof.
  induction l as [| a | a b l IH] using list_pair_ind; intros Hev Hok.
  - reflexivity.
  - discriminate.
  - inversion Hok as [| ? ? Ha Hok1]; subst.
    inversion Hok1 as [| ? ? Hb Hok2]; subst.
    simpl. rewrite IH by assumption. simpl.
    rewrite wrap64_small by lia. reflexivity.
Qed.

Lemma total_adjacent_sums (l : list Z) :
  Nat.even (List.length l) = true -> total (adjacent_sums l) = total l.
Proof.
  induction l as [| a | a b l IH] using list_pair_ind; intros Hev.
  - reflexivity.
  - discriminate.
  - simpl in *. unfold total in *. simpl. rewrite IH by assumption. lia.
Qed.

Lemma total_app (l1 l2 : list Z) : total (l1 ++ l2) = (total l1 + total l2)%Z.
Proof.
  unfold total. induction l1 as [|a l1 IH]; simpl; [reflexivity|].
  rewrite IH. lia.
Qed.

Lemma lengths_ok_firstn (n : nat) (l : list Z) :
  lengths_ok l -> lengths_ok (firstn n l).
Proof.
  unfold lengths_ok. revert l. induction n as [|n IH]; intros l H; simpl.
  - constructor.
  - destruct l as [|a l]; [constructor|].
    inversion H; subst. constructor; auto.
Qed.

Lemma total_merged_prefix (n : nat) (l : list Z) :
  Nat.even n = true -> n <= List.length l ->
  total (merged_prefix n l) = total l.
Proof.
  intros Hev Hn. unfold merged_prefix.
  rewrite total_app, total_adjacent_sums.
  - rewrite <- total_app, firstn_skipn. reflexivity.
  - rewrite firstn_length_le; assumption.
Qed.

Lemma mix_lengths_merged (u : nat) (l : list Z) :
  Nat.even (merged_count (List.length l) u) = true -> lengths_ok l ->
  mix_lengths u l = Ok (merged_prefix (merged_count (List.length l) u) l).
Proof.
  intros Hev Hok. unfold mix_lengths, merged_prefix, merged_count in *.
  destruct u as [|u]; simpl.
  - reflexivity.
  - set (n := List.length l - S u) in *.
    assert (Hlen : List.length (firstn n l) = n).
    { apply firstn_length_le. unfold n. lia. }
    rewrite pair_sums_adjacent.
    + reflexivity.
    + rewrite Hlen. exact Hev.
    + apply lengths_ok_firstn. exact Hok.
Qed.

Lemma untouched_count_bounds (m : Q) (B : nat) :
  (0 < m)%Q ->
  (0 <= untouched_count m B <= Z.of_nat B)%Z
  /\ ((Z.of_nat B - untouched_count m B) mod 2 = 0)%Z.
Proof.
  intros Hm. unfold untouched_count.
  set (c := Qceiling (inject_Z (Z.of_nat B) * (1 - m))).
  assert (Hc : (c <= Z.of_nat B)%Z).
  { unfold c. rewrite <- (Qceiling_Z (Z.of_nat B)) at 2.
    apply Qceiling_resp_le.
    assert (0 <= inject_Z (Z.of_nat B))%Q.
    { change 0%Q with (inject_Z 0). rewrite <- Zle_Qle. lia. }
    nra. }
  set (u := Z.max 0 c).
  assert (Hu : (0 <= u <= Z.of_nat B)%Z) by (unfold u; lia).
  destruct (Z.eqb_spec ((Z.of_nat B - u) mod 2) 1) as [Hodd | Hodd].
  - assert (u < Z.of_nat B)%Z.
    { destruct (Z.eq_dec u (Z.of_nat B)) as [e|]; [|lia].
      rewrite e, Z.sub_diag in Hodd. discriminate. }
    split; [lia|].
    replace (Z.of_nat B - (u + 1))%Z with ((Z.of_nat B - u) - 1)%Z by lia.
    rewrite <- Zminus_mod_idemp_l, Hodd. reflexivity.
  - split; [lia|].
    pose proof (Z.mod_pos_bound (Z.of_nat B - u) 2). lia.
Qed.

Lemma Zmod2_of_nat (B : nat) :
  (Z.of_nat B mod 2 = if Nat.even B then 0 else 1)%Z.
Proof.
  destruct (Nat.even B) eqn:Ev.
  - apply Nat.even_spec in Ev. destruct Ev as [k ->].
    rewrite Nat2Z.inj_mul, Z.mul_comm. apply Z_mod_mult.
  - assert (Ho : Nat.odd B = true)
      by (rewrite <- Nat.negb_even, Ev; reflexivity).
    apply Nat.odd_spec in Ho. destruct Ho as [k ->].
    rewrite Nat2Z.inj_add, Nat2Z.inj_mul, Z.add_comm, Z.mul_comm.
    rewrite Z_mod_plus_full. reflexivity.
Qed.


Lemma mix3D_enabled (cfg : Config) :
  set_ cfg = "training" -> (0 < mix3D cfg)%Q ->
  String.eqb (set_ cfg) "training" && Qlt_bool 0 (mix3D cfg) = true.
Proof.
  intros Hs Hm. rewrite Hs. simpl. unfold Qlt_bool.
  destruct (Qle_bool (mix3D cfg) 0) eqn:Hle; [|reflexivity].
  apply Qle_bool_iff in Hle. lra.
Qed.

Lemma merged_count_even (m : Q) (B : nat) :
  (0 < m)%Q ->
  Nat.even (merged_count B (Z.to_nat (untouched_count m B))) = true
  /\ merged_count B (Z.to_nat (untouched_count m B)) <= B.
Proof.
  intros Hm. destruct (untouched_count_bounds B Hm) as [Hb Hpar].
  unfold merged_count.
  destruct (Z.to_nat (untouched_count m B)) as [|u] eqn:Hu.
  - split; [reflexivity | lia].
  - split; [|lia].
    pose proof (Zmod2_of_nat (B - S u)) as Hz.
    replace (Z.of_nat (B - S u)) with (Z.of_nat B - untouched_count m B)%Z
      in Hz by lia.
    rewrite Hpar in Hz.
    destruct (Nat.even (B - S u)); [reflexivity | discriminate].
Qed.

End Mix3D.

Section Mix3DClaims.

Lemma adjacent_sums_nth (l : list Z) (j : nat) :
  2 * j + 1 < List.length l ->
  nth j (adjacent_sums l) 0%Z = (nth (2 * j) l 0 + nth (2 * j + 1) l 0)%Z.
Proof.
  revert j. induction l as [| a | a b l IH] using list_pair_ind; intros j Hj.
  - simpl in Hj. lia.
  - simpl in Hj. lia.
  - destruct j as [|j].
    + reflexivity.
    + replace (2 * S j) with (S (S (2 * j))) by lia.
      simpl in Hj. simpl. rewrite IH by lia.
      replace (j + (j + 0)) with (2 * j) by lia. reflexivity.
Qed.

Lemma merged_prefix_nth (n : nat) (l : list Z) (j : nat) :
  n <= List.length l -> 2 * j + 1 < n ->
  nth j (merged_prefix n l) 0%Z = (nth (2 * j) l 0 + nth (2 * j + 1) l 0)%Z.
Proof.
  intros Hn Hj. unfold merged_prefix.
  assert (Hlen : List.length (firstn n l) = n)
    by (apply firstn_length_le; exact Hn).
  assert (Hpos : forall i, i < n -> nth i (firstn n l) 0%Z = nth i l 0%Z).
  { intros i Hi. rewrite <- (firstn_skipn n l) at 2.
    rewrite app_nth1 by lia. reflexivity. }
  assert (Hj' : j < List.length (adjacent_sums (firstn n l))).
  { clear Hpos. revert Hlen Hj. generalize (firstn n l). clear. intros l.
    revert n j. induction l as [| a | a b l IH] using list_pair_ind;
      intros n j Hlen Hj; simpl in *; try lia.
    destruct j as [|j]; [lia|]. apply -> Nat.succ_lt_mono.
    apply (IH (n - 2)); lia. }
  rewrite app_nth1 by exact Hj'.
  rewrite adjacent_sums_nth by lia.
  rewrite !Hpos by lia. reflexivity.
Qed.

Lemma mix3D_augment_merged (cfg : Config) (st : Stacked) (B : nat) :
  set_ cfg = "training" -> (0 < mix3D cfg)%Q ->
  List.length (stack_lengths st) = B ->
  List.length (stack_lengths0 st) = B ->
  lengths_ok (stack_lengths st) -> lengths_ok (stack_lengths0 st) ->
  let n := merged_count B (Z.to_nat (untouched_count (mix3D cfg) B)) in
  mix3D_augment cfg B st =
  Ok {| stacked_points := stacked_points st;
        stacked_features := stacked_features st;
        stacked_labels := stacked_labels st;
        center_points := center_points st;
        cloud_inds := cloud_inds st;
        stacked_inds := stacked_inds st;
        input_invs := input_invs st;
        stack_lengths := merged_prefix n (stack_lengths st);
        stack_lengths0 := merged_prefix n (stack_lengths0 st) |}.
Proof.
  intros Hset Hm Hl Hl0 Hok Hok0 n.
  destruct (merged_count_even B Hm) as [Hev _].
  unfold mix3D_augment. rewrite (mix3D_enabled cfg Hset Hm).
  rewrite (mix_lengths_merged (Z.to_nat (untouched_count (mix3D cfg) B))
             (l := stack_lengths st)) by (rewrite ?Hl; assumption).
  simpl.
  rewrite (mix_lengths_merged (Z.to_nat (untouched_count (mix3D cfg) B))
             (l := stack_lengths0 st)) by (rewrite ?Hl0; assumption).
  simpl. rewrite Hl, Hl0. reflexivity.
Qed.

(** C9. When Mix3D is enabled in the training role, the step changes
    only the two length vectors: the stacked points, features, labels,
    centres, cloud indices, point indices and inverse indices are those
    it was given.  An even number [n] of leading regions is merged: each
    merged entry is the sum of two adjacent original lengths, the other
    entries are kept, and both vectors keep their totals. *)
Theorem mix3D_alters_only_lengths (cfg : Config) (st : Stacked) (B : nat) :
  set_ cfg = "training" -> (0 < mix3D cfg)%Q ->
  List.length (stack_lengths st) = B ->
  List.length (stack_lengths0 st) = B ->
  lengths_ok (stack_lengths st) -> lengths_ok (stack_lengths0 st) ->
  exists (st' : Stacked) (n : nat),
    mix3D_augment cfg B st = Ok st'
    /\ (stacked_points st' = stacked_points st
        /\ stacked_features st' = stacked_features st
        /\ stacked_labels st' = stacked_labels st
        /\ center_points st' = center_points st
        /\ cloud_inds st' = cloud_inds st
        /\ stacked_inds st' = stacked_inds st
        /\ input_invs st' = input_invs st)
    /\ (Nat.even n = true /\ n <= B)
    /\ (stack_lengths st' = merged_prefix n (stack_lengths st)
        /\ stack_lengths0 st' = merged_prefix n (stack_lengths0 st))
    /\ (forall j, 2 * j + 1 < n ->
          nth j (stack_lengths st') 0%Z
          = (nth (2 * j) (stack_lengths st) 0
             + nth (2 * j + 1) (stack_lengths st) 0)%Z
          /\ nth j (stack_lengths0 st') 0%Z
             = (nth (2 * j) (stack_lengths0 st) 0
                + nth (2 * j + 1) (stack_lengths0 st) 0)%Z)
    /\ (total (stack_lengths st') = total (stack_lengths st)
        /\ total (stack_lengths0 st') = total (stack_lengths0 st)).
Proof.
  intros Hset Hm Hl Hl0 Hok Hok0.
  destruct (merged_count_even B Hm) as [Hev Hle].
  eexists. exists (merged_count B (Z.to_nat (untouched_count (mix3D cfg) B))).
  split; [apply mix3D_augment_merged; assumption|].
  simpl. repeat split; try reflexivity; try assumption.
  - apply merged_prefix_nth; [rewrite Hl; exact Hle | assumption].
  - apply merged_prefix_nth; [rewrite Hl0; exact Hle | assumption].
  - apply total_merged_prefix; [exact Hev | rewrite Hl; exact Hle].
  - apply total_merged_prefix; [exact Hev | rewrite Hl0; exact Hle].
Qed.

Lemma lengths_ok_small (l : list Z) :
  forallb (fun x => (0 <=? x)%Z && (x <? 2 ^ 62)%Z) l = true -> lengths_ok l.
Proof.
  intros H. unfold lengths_ok. apply Forall_forall. intros x Hx.
  rewrite forallb_forall in H. specialize (H x Hx).
  apply andb_true_iff in H. destruct H as [H1 H2].
  apply Z.leb_le in H1. apply Z.ltb_lt in H2. lia.
Qed.

Lemma mix3D_alters_only_lengths_witness :
  exists st' n,
    mix3D_augment (Data.train_cfg (1 # 2)) 4 Data.stacked4 = Ok st'
    /\ stack_lengths st' = merged_prefix n [3; 4; 5; 6]%Z
    /\ total (stack_lengths st') = 18%Z.
Proof.
  destruct (@mix3D_alters_only_lengths (Data.train_cfg (1 # 2)) Data.stacked4 4)
    as (st' & n & Hrun & _ & _ & [Hlen _] & _ & [Htot _]).
  - reflexivity.
  - reflexivity.
  - reflexivity.
  - reflexivity.
  - apply lengths_ok_small. reflexivity.
  - apply lengths_ok_small. reflexivity.
  - exists st', n. repeat split; assumption.
Defined.



End Mix3DClaims.

(* ------------------------------------------------------------------ *)
(** ** Properties of the regular sampler *)

Section PyFacts.

Lemma index_nth (A : Type) (l : list A) (i : nat) (d : A) :
  i < List.length l -> index l (Z.of_nat i) = Ok (nth i l d).
Proof.
  intros Hi. unfold index.
  destruct (Z.ltb_spec (Z.of_nat i) 0) as [Hneg | _]; [lia|].
  destruct (Z.ltb_spec (Z.of_nat i) 0) as [Hneg | _]; [lia|].
  rewrite Nat2Z.id.
  destruct (nth_error l i) as [a|] eqn:Hnth.
  - rewrite (nth_error_nth l i d Hnth). reflexivity.
  - apply nth_error_None in Hnth. lia.
Qed.

Lemma index_of_nat (A : Type) (l : list A) (i : nat) (a : A) :
  index l (Z.of_nat i) = Ok a -> nth_error l i = Some a.
Proof.
  unfold index.
  destruct (Z.ltb_spec (Z.of_nat i) 0) as [Hneg | _]; [lia|].
  destruct (Z.ltb_spec (Z.of_nat i) 0) as [Hneg | _]; [lia|].
  rewrite Nat2Z.id. destruct (nth_error l i); [|discriminate].
  intros H. injection H as <-. reflexivity.
Qed.

Lemma Qlt_bool_iff (x y : Q) : Qlt_bool x y = true <-> (x < y)%Q.
Proof.
  unfold Qlt_bool. destruct (Qle_bool y x) eqn:H; simpl.
  - apply Qle_bool_iff in H. split; [discriminate | intros; lra].
  - split; [intros _ | reflexivity].
    destruct (Qlt_le_dec x y) as [Hl | Hl]; [exact Hl|].
    apply Qle_bool_iff in Hl. congruence.
Qed.

Lemma Qlt_bool_false (x y : Q) : Qlt_bool x y = false <-> (y <= x)%Q.
Proof.
  unfold Qlt_bool. rewrite negb_false_iff. apply Qle_bool_iff.
Qed.

End PyFacts.

Section RegularSampler.
Context `{E : Externals}.
Variables (cfg : Config) (scenes : Scenes).
Hypothesis Hregular : data_sampler cfg = "regular".

Lemma sample_input_center_regular (sfuel : nat) (noise : Q) :
  sample_input_center cfg scenes sfuel noise = sample_regular cfg scenes.
Proof. unfold sample_input_center. rewrite Hregular. reflexivity. Qed.

Lemma queued_from_cons (i : nat) (clouds : list Z) (pts : Points) :
  List.length clouds = List.length pts -> i < List.length pts ->
  queued_from i clouds pts
  = Pair (nth i clouds 0%Z) (nth i pts []) :: queued_from (S i) clouds pts.
Proof.
  revert clouds pts. induction i as [|i IH]; intros clouds pts Hlen Hi.
  - destruct clouds as [|c clouds], pts as [|p pts]; simpl in *;
      try reflexivity; lia.
  - destruct clouds as [|c clouds], pts as [|p pts]; simpl in *; try lia.
    rewrite IH by lia. reflexivity.
Qed.

Lemma queued_from_end (i : nat) (clouds : list Z) (pts : Points) :
  List.length pts <= i -> queued_from i clouds pts = [].
Proof.
  revert clouds pts. induction i as [|i IH]; intros clouds pts Hi.
  - destruct clouds, pts; simpl in *; try reflexivity; lia.
  - destruct clouds, pts; simpl in *; try reflexivity. apply IH. lia.
Qed.

Lemma queued_from_all_pairs (i : nat) (clouds : list Z) (pts : Points) :
  forallb is_pair (queued_from i clouds pts) = true.
Proof.
  revert i pts. induction clouds as [|c clouds IH]; intros i pts.
  - destruct i; reflexivity.
  - destruct i, pts; simpl; try reflexivity; apply IH.
Qed.

Lemma queued_from_length (clouds : list Z) (pts : Points) :
  List.length clouds = List.length pts ->
  List.length (queued_from 0 clouds pts) = List.length pts.
Proof.
  revert pts. induction clouds as [|c clouds IH]; intros [|p pts] Hlen;
    simpl in *; try reflexivity; try lia.
  rewrite IH by lia. reflexivity.
Qed.

(** One call below the end of the queue. *)
Lemma sample_regular_next (s : State) (pts : Points) (clouds : list Z)
    (i : nat) :
  reg_sample_pts s = Some pts -> reg_sample_clouds s = Some clouds ->
  List.length clouds = List.length pts ->
  (Z.of_nat (List.length pts) < 2 ^ 63)%Z ->
  reg_sampling_i s = Z.of_nat i -> i < List.length pts ->
  sample_regular cfg scenes s
  = Ok (Pair (nth i clouds 0%Z) (nth i pts []),
        with_cursor s (Z.of_nat i + 1)).
Proof.
  intros Hpts Hclouds Hlen Hbig Hcur Hi.
  unfold sample_regular. rewrite Hpts, Hcur.
  destruct (Z.geb_spec (Z.of_nat i) (Z.of_nat (List.length pts))) as [Hge|_];
    [lia|].
  simpl. rewrite Hclouds, Hpts, Hcur.
  rewrite (index_nth clouds 0%Z) by lia.
  rewrite (index_nth pts []) by lia.
  simpl. rewrite wrap64_small by lia.
  reflexivity.
Qed.

Lemma with_cursor_fields (s : State) (i : Z) :
  reg_sample_pts (with_cursor s i) = reg_sample_pts s
  /\ reg_sample_clouds (with_cursor s i) = reg_sample_clouds s
  /\ reg_sampling_i (with_cursor s i) = i
  /\ reg_votes (with_cursor s i) = reg_votes s.
Proof. repeat split. Qed.

Lemma with_cursor_twice (s : State) (i j : Z) :
  with_cursor (with_cursor s i) j = with_cursor s j.
Proof. reflexivity. Qed.

(** [n] calls from position [i] return the next [n] queued centres. *)
Lemma draw_centers_regular (sfuel : nat) (noise : Q) (s : State)
    (pts : Points) (clouds : list Z) (n i : nat) :
  reg_sample_pts s = Some pts -> reg_sample_clouds s = Some clouds ->
  List.length clouds = List.length pts ->
  (Z.of_nat (List.length pts) < 2 ^ 63)%Z ->
  i + n = List.length pts ->
  draw_centers cfg scenes sfuel noise n (with_cursor s (Z.of_nat i))
  = Ok (queued_from i clouds pts,
        with_cursor s (Z.of_nat (List.length pts))).
Proof.
  intros Hpts Hclouds Hlen Hbig. revert i.
  induction n as [|n IH]; intros i Hin.
  - simpl. rewrite queued_from_end by lia.
    replace i with (List.length pts) by lia. reflexivity.
  - simpl. rewrite sample_input_center_regular.
    rewrite (@sample_regular_next (with_cursor s (Z.of_nat i)) pts clouds i);
      try assumption; try reflexivity; try lia.
    simpl bind. rewrite with_cursor_twice.
    replace (Z.of_nat i + 1)%Z with (Z.of_nat (S i)) by lia.
    rewrite (IH (S i)) by lia. simpl bind.
    rewrite (@queued_from_cons i clouds pts) by (assumption || lia).
    reflexivity.
Qed.

(** The call at the end of the queue, outside the validation role. *)
Lemma sample_regular_end (s : State) (pts : Points) :
  set_ cfg <> "validation" ->
  reg_sample_pts s = Some pts ->
  (Z.of_nat (List.length pts) <= reg_sampling_i s)%Z ->
  sample_regular cfg scenes s = Ok (NoneNone, s).
Proof.
  intros Hset Hpts Hcur. unfold sample_regular. rewrite Hpts.
  destruct (Z.geb_spec (reg_sampling_i s) (Z.of_nat (List.length pts)));
    [|lia].
  destruct (String.eqb_spec (set_ cfg) "validation") as [e|_];
    [contradiction|].
  reflexivity.
Qed.

(** The call at the end of the queue in the validation role. *)
Lemma sample_regular_regenerate (s : State) (pts : Points)
    (p0 : Point) (c0 : Z) (pts' : Points) (clouds' : list Z) (g : Rng) :
  set_ cfg = "validation" ->
  reg_sample_pts s = Some pts ->
  (Z.of_nat (List.length pts) <= reg_sampling_i s)%Z ->
  (0 <= in_radius cfg)%Q ->
  (- 2 ^ 63 <= reg_votes s < 2 ^ 63 - 1)%Z ->
  grid_queue cfg (input_trees scenes) (rng s)
  = ((p0 :: pts', c0 :: clouds'), g) ->
  sample_regular cfg scenes s
  = Ok (Pair c0 p0,
        {| reg_sampling_i := 1; reg_votes := reg_votes s + 1;
           reg_sample_pts := Some (p0 :: pts');
           reg_sample_clouds := Some (c0 :: clouds');
           rng := g; slept := slept s |}).
Proof.
  intros Hset Hpts Hcur Hrad Hvotes Hgrid.
  unfold sample_regular. rewrite Hpts.
  destruct (Z.geb_spec (reg_sampling_i s) (Z.of_nat (List.length pts)));
    [|lia].
  rewrite Hset. simpl String.eqb. cbv iota.
  unfold new_reg_sampling_pts.
  assert (Hr : Qlt_bool (in_radius cfg) 0 = false)
    by (apply Qlt_bool_false; exact Hrad).
  rewrite Hr. simpl rng. rewrite Hgrid. simpl.
  rewrite Z.mul_0_r.
  rewrite (wrap64_small (z := reg_votes s + 1)) by lia.
  reflexivity.
Qed.

End RegularSampler.

Lemma with_cursor_same `{E : Externals} (s : State) :
  with_cursor s (reg_sampling_i s) = s.
Proof. destruct s; reflexivity. Qed.

(** C1. Regular policy, queue of length [n], cursor at 0.  Every call
    made with the cursor at [i < n] returns the pair stored at [i] and
    moves the cursor to [i + 1], so [n] calls in a row return the [n]
    queued pairs, none of them [(None, None)], and leave the cursor at
    [n].  The next call returns [(None, None)] and changes nothing when
    the role is not validation (the test role); in the validation role it
    installs the regenerated queue, adds one vote and returns the first
    pair of the new queue, leaving the cursor at 1. *)
Theorem regular_sweep_then_exhaustion `{E : Externals}
    (cfg : Config) (scenes : Scenes) (sfuel : nat) (noise : Q)
    (s : State) (pts : Points) (clouds : list Z) :
  data_sampler cfg = "regular" ->
  reg_sample_pts s = Some pts -> reg_sample_clouds s = Some clouds ->
  List.length clouds = List.length pts ->
  (Z.of_nat (List.length pts) < 2 ^ 63)%Z ->
  reg_sampling_i s = 0%Z ->
  let n := List.length pts in
  let call := sample_input_center cfg scenes sfuel noise in
  let exhausted := with_cursor s (Z.of_nat n) in
  (forall i, i < n ->
     call (with_cursor s (Z.of_nat i))
     = Ok (Pair (nth i clouds 0%Z) (nth i pts []),
           with_cursor s (Z.of_nat i + 1)))
  /\ (exists cs,
        draw_centers cfg scenes sfuel noise n s = Ok (cs, exhausted)
        /\ cs = queued_from 0 clouds pts
        /\ List.length cs = n
        /\ forallb is_pair cs = true)
  /\ (set_ cfg <> "validation" -> call exhausted = Ok (NoneNone, exhausted))
  /\ (set_ cfg = "validation" ->
      forall (p0 : Point) (c0 : Z) (pts' : Points) (clouds' : list Z)
             (g : Rng),
        (0 <= in_radius cfg)%Q ->
        (- 2 ^ 63 <= reg_votes s < 2 ^ 63 - 1)%Z ->
        grid_queue cfg (input_trees scenes) (rng s)
        = ((p0 :: pts', c0 :: clouds'), g) ->
        call exhausted
        = Ok (Pair c0 p0,
              {| reg_sampling_i := 1; reg_votes := reg_votes s + 1;
                 reg_sample_pts := Some (p0 :: pts');
                 reg_sample_clouds := Some (c0 :: clouds');
                 rng := g; slept := slept s |})).
Proof.
  intros Hreg Hpts Hclouds Hlen Hbig Hcur n call exhausted.
  unfold call. rewrite (sample_input_center_regular cfg scenes Hreg).
  split; [|split; [|split]].
  - intros i Hi.
    exact (@sample_regular_next E cfg scenes (with_cursor s (Z.of_nat i))
             pts clouds i Hpts Hclouds Hlen Hbig eq_refl Hi).
  - exists (queued_from 0 clouds pts). split; [|split; [reflexivity|split]].
    + rewrite <- (with_cursor_same s) at 1. rewrite Hcur.
      apply (@draw_centers_regular E cfg scenes Hreg sfuel noise s pts clouds
               n 0); try assumption. reflexivity.
    + apply queued_from_length. exact Hlen.
    + apply queued_from_all_pairs.
  - intros Hset.
    apply (@sample_regular_end E cfg scenes exhausted pts Hset Hpts).
    simpl. lia.
  - intros Hset p0 c0 pts' clouds' g Hrad Hvotes Hgrid.
    apply (@sample_regular_regenerate E cfg scenes exhausted pts p0 c0 pts'
             clouds' g Hset Hpts); try assumption.
    simpl. lia.
Qed.

Lemma regular_sweep_then_exhaustion_witness :
  (exists cs,
     draw_centers (RegularData.cfg "test" 100) RegularData.scenes 0 (5 # 100) 2
       RegularData.start
     = Ok (cs, with_cursor RegularData.start 2)
     /\ forallb is_pair cs = true)
  /\ sample_input_center (RegularData.cfg "test" 100) RegularData.scenes 0
       (5 # 100) (with_cursor RegularData.start 2)
     = Ok (NoneNone, with_cursor RegularData.start 2)
  /\ exists s',
       sample_input_center (RegularData.cfg "validation" 100)
         RegularData.scenes 0 (5 # 100) (with_cursor RegularData.start 2)
       = Ok (Pair 0 [3; 0; 0]%Q, s')
       /\ reg_votes s' = 1%Z /\ reg_sampling_i s' = 1%Z.
Proof.
  pose proof (@regular_sweep_then_exhaustion Ref.externals
                (RegularData.cfg "test" 100) RegularData.scenes 0 (5 # 100)
                RegularData.start _ _
                eq_refl eq_refl eq_refl eq_refl eq_refl eq_refl)
    as (_ & (cs & Hrun & _ & _ & Hpairs) & Hend & _).
  pose proof (@regular_sweep_then_exhaustion Ref.externals
                (RegularData.cfg "validation" 100) RegularData.scenes 0
                (5 # 100) RegularData.start _ _
                eq_refl eq_refl eq_refl eq_refl eq_refl eq_refl)
    as (_ & _ & _ & Hval).
  split; [|split].
  - exists cs. split; [exact Hrun | exact Hpairs].
  - apply Hend. discriminate.
  - eexists. split; [|split].
    + apply (Hval eq_refl); [discriminate | simpl; lia | reflexivity].
    + reflexivity.
    + reflexivity.
Defined.

(* ------------------------------------------------------------------ *)
(** ** Unknown policy names *)

(** C3, as stated, fails: a name outside the documented policies is
    answered with [ValueError], not [ConfigurationError]; and a name that
    merely contains [random] is not refused at all, it is sampled
    uniformly. *)
Lemma unknown_sampler_counterexample :
  (~ In "grid" recognized_policies
   /\ sample_input_center (RandomData.cfg "grid") RandomData.scenes 0
        (5 # 100) RandomData.start
      = Raise "ValueError"
   /\ sample_input_center (RandomData.cfg "grid") RandomData.scenes 0
        (5 # 100) RandomData.start
      <> Raise "ConfigurationError")
  /\ (~ In "randomized" recognized_policies
      /\ exists s',
           sample_input_center (RandomData.cfg "randomized") RandomData.scenes
             0 (5 # 100) RandomData.start
           = Ok (Pair 0 [(1 # 2) + 0; 0 + 0; 0 + 0]%Q, s')).
Proof.
  split; [split; [|split]|split].
  - simpl. intros [H | [H | [H | [H | []]]]]; discriminate.
  - reflexivity.
  - discriminate.
  - simpl. intros [H | [H | [H | [H | []]]]]; discriminate.
  - eexists. reflexivity.
Qed.

(** C3, amended. A name that is not [regular] and does not contain
    [random] makes every call raise [ValueError], in every state: no
    pair is ever returned. *)
Theorem unknown_sampler_raises_ValueError `{E : Externals}
    (cfg : Config) (scenes : Scenes) (sfuel : nat) (noise : Q) (s : State) :
  data_sampler cfg <> "regular" ->
  contains "random" (data_sampler cfg) = false ->
  sample_input_center cfg scenes sfuel noise s = Raise "ValueError".
Proof.
  intros Hreg Hrand. unfold sample_input_center.
  destruct (String.eqb_spec (data_sampler cfg) "regular") as [e|_];
    [contradiction|].
  rewrite Hrand. reflexivity.
Qed.

Lemma unknown_sampler_raises_ValueError_witness :
  sample_input_center (RandomData.cfg "grid") RandomData.scenes 7 (5 # 100)
    RandomData.start
  = Raise "ValueError".
Proof.
  apply (@unknown_sampler_raises_ValueError Ref.externals
           (RandomData.cfg "grid")).
  - discriminate.
  - reflexivity.
Defined.

(* ------------------------------------------------------------------ *)
(** ** Properties of the batch loop *)

Section ResultFacts.

Lemma bind_Ok (A B : Type) (r : result A) (k : A -> result B) (b : B) :
  bind r k = Ok b -> exists a, r = Ok a /\ k a = Ok b.
Proof.
  destruct r as [a | e |]; simpl; intros H; try discriminate.
  exists a. split; [reflexivity | exact H].
Qed.

End ResultFacts.

Ltac bind_inv H :=
  let a := fresh "a" in
  let Ha := fresh "Hrun" in
  apply bind_Ok in H; destruct H as (a & Ha & H).

Section SamplerEnd.
Context `{E : Externals}.
Variables (cfg : Config) (scenes : Scenes).

Lemma sample_random_not_end (sfuel : nat) (noise : Q) (s s' : State) :
  sample_random cfg scenes sfuel noise s <> Ok (NoneNone, s').
Proof.
  unfold sample_random. intros H.
  bind_inv H. destruct a as [[cloud_ind point_ind] s1].
  bind_inv H. bind_inv H. bind_inv H.
  destruct (np_random_normal noise (List.length a1) (rng s1)) as [nz g].
  discriminate.
Qed.

(** [(None, None)] comes from the regular policy only, outside the
    validation role, with the queue used up; the state is not changed. *)
Lemma sample_end_inv (sfuel : nat) (noise : Q) (s s' : State) :
  sample_input_center cfg scenes sfuel noise s = Ok (NoneNone, s') ->
  data_sampler cfg = "regular" /\ set_ cfg <> "validation"
  /\ s' = s /\ exhausted s.
Proof.
  unfold sample_input_center.
  destruct (String.eqb_spec (data_sampler cfg) "regular") as [Hreg | Hreg].
  - unfold sample_regular.
    destruct (reg_sample_pts s) as [pts|] eqn:Hpts; [|discriminate].
    destruct (Z.geb_spec (reg_sampling_i s) (Z.of_nat (List.length pts)))
      as [Hge | Hlt].
    + destruct (String.eqb_spec (set_ cfg) "validation") as [Hval | Hval].
      * intros H. bind_inv H. bind_inv Hrun. destruct a0 as [u s1].
        injection Hrun as <-. simpl in H.
        destruct (reg_sample_clouds s1); [|discriminate].
        destruct (reg_sample_pts s1); [|discriminate].
        bind_inv H. bind_inv H. discriminate.
      * simpl. intros H. injection H as <-.
        repeat split; try assumption.
        exists pts. split; [exact Hpts | lia].
    + simpl. destruct (reg_sample_clouds s); [|discriminate].
      rewrite Hpts. intros H. bind_inv H. bind_inv H. discriminate.
  - destruct (contains "random" (data_sampler cfg)).
    + intros H. exfalso. exact (sample_random_not_end _ _ _ H).
    + discriminate.
Qed.

End SamplerEnd.

Section BatchLoop.
Context `{E : Externals}.
Variables (cfg : Config) (scenes : Scenes).

Lemma contribution_nil : (contribution cfg [] == 0)%Q.
Proof.
  unfold contribution. destruct (Qlt_bool (in_radius cfg) 0); simpl.
  - ring.
  - reflexivity.
Qed.

Lemma contribution_app (ps : list Points) (ip : Points) :
  (contribution cfg (ps ++ [ip])
   == contribution cfg ps + contribution cfg [ip])%Q.
Proof.
  unfold contribution. destruct (Qlt_bool (in_radius cfg) 0).
  - rewrite length_app, Nat2Z.inj_add, inject_Z_plus. simpl. ring.
  - rewrite concat_app, !length_app, !Nat2Z.inj_add, !inject_Z_plus.
    reflexivity.
Qed.

(** One accepted region: one more entry in [p_list], and its
    contribution added to the total. *)
Lemma accept_region_adds (acc : Acc) (c : Z) (p : Point) (r : Region)
    (g : Rng) :
  exists ip,
    p_list (fst (accept_region cfg acc c p r g)) = p_list acc ++ [ip]
    /\ (batch_n_pts (fst (accept_region cfg acc c p r g))
        == batch_n_pts acc + contribution cfg [ip])%Q.
Proof.
  unfold accept_region.
  destruct (augmentation_transform _ _ _ g) as [[[p2 f2] l2] g'].
  destruct (wants_subsampling cfg).
  - destruct (subsample_cloud p2 _ _ l2) as [[[sp sf] sl] inv].
    exists sp. simpl. split; [reflexivity|].
    unfold contribution. destruct (Qlt_bool (in_radius cfg) 0); simpl.
    + ring.
    + rewrite app_nil_r. reflexivity.
  - exists p2. simpl. split; [reflexivity|].
    unfold contribution. destruct (Qlt_bool (in_radius cfg) 0); simpl.
    + ring.
    + rewrite app_nil_r. reflexivity.
Qed.

Lemma batch_loop_step (sfuel fuel : nat) (acc : Acc) (s : State) :
  batch_loop cfg scenes sfuel (S fuel) acc s
  = ('(c, s1) <- sample_input_center cfg scenes sfuel (5 # 100) s ;;
     match c with
     | NoneNone => Ok (acc, s1)
     | Pair cloud_ind c_point =>
         r <- get_input_area cfg scenes cloud_ind c_point ;;
         if Nat.ltb (shape0 r) 1 then batch_loop cfg scenes sfuel fuel acc s1
         else if squeezed r then Raise "IndexError"
         else
           let '(acc', g) :=
             accept_region cfg acc cloud_ind c_point r (rng s1) in
           let s2 := with_rng s1 g in
           if batch_full cfg acc' then Ok (acc', s2)
           else batch_loop cfg scenes sfuel fuel acc' s2
     end).
Proof. reflexivity. Qed.

(** How the loop ends: with the regions [ps] it has appended, either the
    last one made the batch full, or the sampler has just answered
    [(None, None)]. *)
Lemma batch_loop_exit (sfuel fuel : nat) (acc : Acc) (s : State)
    (acc' : Acc) (s' : State) :
  batch_loop cfg scenes sfuel fuel acc s = Ok (acc', s') ->
  exists ps,
    p_list acc' = p_list acc ++ ps
    /\ (batch_n_pts acc' == batch_n_pts acc + contribution cfg ps)%Q
    /\ ((ps <> [] /\ batch_full cfg acc' = true)
        \/ (exists s0,
              sample_input_center cfg scenes sfuel (5 # 100) s0
              = Ok (NoneNone, s'))).
Proof.
  revert acc s. induction fuel as [|fuel IH]; intros acc s H.
  - discriminate.
  - rewrite batch_loop_step in H.
    bind_inv H. destruct a as [c s1].
    destruct c as [|cloud_ind c_point].
    + injection H as <- <-. exists []. rewrite app_nil_r.
      split; [reflexivity|]. split.
      * rewrite contribution_nil. ring.
      * right. exists s. exact Hrun.
    + bind_inv H. rename a into r.
      destruct (Nat.ltb (shape0 r) 1); [exact (IH _ _ H)|].
      destruct (squeezed r); [discriminate|].
      destruct (accept_region_adds acc cloud_ind c_point r (rng s1))
        as (ip & Hp & Hn).
      destruct (accept_region cfg acc cloud_ind c_point r (rng s1))
        as [acc1 g]. simpl in Hp, Hn.
      destruct (batch_full cfg acc1) eqn:Hfull.
      * injection H as <- <-. exists [ip]. split; [exact Hp|].
        split; [exact Hn|]. left. split; [discriminate | exact Hfull].
      * destruct (IH _ _ H) as (ps & Hps & Hnps & Hexit).
        exists (ip :: ps). split.
        { rewrite Hps, Hp, <- app_assoc. reflexivity. }
        split.
        { rewrite Hnps, Hn.
          change (ip :: ps) with ([ip] ++ ps).
          assert (Hc : (contribution cfg ([ip] ++ ps)
                        == contribution cfg [ip] + contribution cfg ps)%Q).
          { clear. unfold contribution.
            destruct (Qlt_bool (in_radius cfg) 0).
            - rewrite length_app, Nat2Z.inj_add, inject_Z_plus. ring.
            - rewrite concat_app, !length_app, !Nat2Z.inj_add,
                !inject_Z_plus. reflexivity. }
          rewrite Hc. ring. }
        destruct Hexit as [[_ Hf] | Hend].
        { left. split; [discriminate | exact Hf]. }
        { right. exact Hend. }
Qed.

End BatchLoop.

Section Budget.

Lemma int_lt_integer (b : Q) (t : Z) :
  (inject_Z (int b) < inject_Z t)%Q -> (b < inject_Z t)%Q.
Proof.
  unfold int. intros H. rewrite <- Zlt_Qlt in H.
  destruct (Qle_bool 0 b).
  - apply Qlt_le_trans with (inject_Z (Qfloor b + 1)).
    + apply Qlt_floor.
    + rewrite <- Zle_Qle. lia.
  - apply Qle_lt_trans with (inject_Z (Qceiling b)).
    + apply Qle_ceiling.
    + rewrite <- Zlt_Qlt. exact H.
Qed.

Lemma contribution_integral (cfg : Config) (ps : list Points) :
  ((in_radius cfg < 0)%Q -> exists k : Z, (in_radius cfg == inject_Z k)%Q) ->
  exists t : Z, (contribution cfg ps == inject_Z t)%Q.
Proof.
  intros Hk. unfold contribution.
  destruct (Qlt_bool (in_radius cfg) 0) eqn:Hneg.
  - apply Qlt_bool_iff in Hneg. destruct (Hk Hneg) as [k Hkk].
    exists (- k * Z.of_nat (List.length ps))%Z.
    rewrite Hkk, inject_Z_mult, inject_Z_opp. reflexivity.
  - eexists. reflexivity.
Qed.

End Budget.

(** C2, as stated, fails: in the test role a call returns two regions
    holding 3 points in all, under a budget of 100, because the queue
    ran out. *)
Lemma budget_counterexample :
  exists acc s' d,
    batch_loop (RegularData.cfg "test" 100) RegularData.scenes 0 5 empty_acc
      RegularData.start
    = Ok (acc, s')
    /\ __getitem__ (RegularData.cfg "test" 100) RegularData.scenes 0 5
         RegularData.start
       = Ok (FullDict d, s')
    /\ List.length (p_list acc) = 2
    /\ (batch_n_pts acc == 3)%Q
    /\ (batch_n_pts acc <= b_lim (RegularData.cfg "test" 100))%Q.
Proof.
  eexists. eexists. eexists.
  split; [vm_compute; reflexivity|].
  split; [vm_compute; reflexivity|].
  split; [reflexivity|].
  split; [reflexivity | discriminate].
Qed.

(** C2, amended. A call returns only when the running total strictly
    exceeds the budget [b_lim], or when the sampler has answered
    [(None, None)], with the regions collected so far, none or some.  The
    total is the sum of the contributions of the accepted regions; in
    fixed-count mode each accepted region adds exactly [k = -in_radius],
    whatever its point count. *)
Theorem batch_returns_full_or_exhausted `{E : Externals}
    (cfg : Config) (scenes : Scenes) (sfuel fuel : nat)
    (s : State) (d : InputDict) (s'' : State) :
  ((in_radius cfg < 0)%Q -> exists k : Z, (in_radius cfg == inject_Z k)%Q) ->
  __getitem__ cfg scenes sfuel fuel s = Ok (d, s'') ->
  exists acc s',
    batch_loop cfg scenes sfuel fuel empty_acc s = Ok (acc, s')
    /\ (d = EmptyDict <-> p_list acc = [])
    /\ (batch_n_pts acc == contribution cfg (p_list acc))%Q
    /\ ((p_list acc <> []
         /\ (inject_Z (int (b_lim cfg)) < batch_n_pts acc)%Q
         /\ (b_lim cfg < batch_n_pts acc)%Q)
        \/ (exists s0,
              sample_input_center cfg scenes sfuel (5 # 100) s0
              = Ok (NoneNone, s')))
    /\ ((in_radius cfg < 0)%Q ->
        (batch_n_pts acc
         == - in_radius cfg * inject_Z (Z.of_nat (List.length (p_list acc))))%Q
        /\ forall (a : Acc) (c : Z) (p : Point) (r : Region) (g : Rng),
             (batch_n_pts (fst (accept_region cfg a c p r g))
              == batch_n_pts a + - in_radius cfg)%Q).
Proof.
  intros Hk Hget. unfold __getitem__ in Hget.
  bind_inv Hget. destruct a as [acc s1].
  exists acc, s1. split; [exact Hrun|].
  destruct (batch_loop_exit cfg scenes sfuel fuel empty_acc s Hrun)
    as (ps & Hps & Hn & Hexit).
  simpl in Hps, Hn. subst ps.
  assert (Htot : (batch_n_pts acc == contribution cfg (p_list acc))%Q).
  { rewrite Hn. ring. }
  split; [|split; [exact Htot|split]].
  - destruct (p_list acc) as [|x l] eqn:Hp; simpl in Hget.
    + injection Hget as <- <-. split; reflexivity.
    + bind_inv Hget. injection Hget as <- <-.
      split; discriminate.
  - destruct Hexit as [[Hne Hfull] | Hend]; [left | right; exact Hend].
    split; [exact Hne|].
    unfold batch_full in Hfull. apply Qlt_bool_iff in Hfull.
    split; [exact Hfull|].
    destruct (contribution_integral cfg (p_list acc) Hk) as [t Ht].
    rewrite Htot, Ht. apply int_lt_integer.
    rewrite <- Ht, <- Htot. exact Hfull.
  - intros Hneg. apply Qlt_bool_iff in Hneg. split.
    + rewrite Htot. unfold contribution. rewrite Hneg. reflexivity.
    + intros a c p r g.
      destruct (accept_region_adds cfg a c p r g) as (ip & _ & Hadd).
      rewrite Hadd. unfold contribution. rewrite Hneg. simpl. ring.
Qed.

Lemma batch_returns_full_or_exhausted_witness :
  exists acc s',
    batch_loop (FixedCountData.cfg false) FixedCountData.scenes 0 5 empty_acc
      FixedCountData.start
    = Ok (acc, s')
    /\ (batch_n_pts acc
        == contribution (FixedCountData.cfg false) (p_list acc))%Q
    /\ (batch_n_pts acc
        == 2 * inject_Z (Z.of_nat (List.length (p_list acc))))%Q.
Proof.
  assert (Hget : { ds | __getitem__ (FixedCountData.cfg false)
                          FixedCountData.scenes 0 5 FixedCountData.start
                        = Ok ds }).
  { eexists. vm_compute. reflexivity. }
  destruct Hget as [[d s''] Hget].
  assert (Hk : (in_radius (FixedCountData.cfg false) < 0)%Q ->
               exists k : Z,
                 (in_radius (FixedCountData.cfg false) == inject_Z k)%Q).
  { intros _. exists (-2)%Z. reflexivity. }
  destruct (@batch_returns_full_or_exhausted Ref.externals
              (FixedCountData.cfg false) FixedCountData.scenes 0 5
              FixedCountData.start d s'' Hk Hget)
    as (acc & s' & Hrun & _ & Htot & _ & Hfixed).
  exists acc, s'. split; [exact Hrun|]. split; [exact Htot|].
  destruct Hfixed as [Hf _]; [reflexivity|].
  rewrite Hf. reflexivity.
Defined.

(* ------------------------------------------------------------------ *)
(** ** The empty batch *)

(** C7, as stated, fails on one point: the empty batch does not need
    [(None, None)] on the first draw.  Here the first draw returns a
    centre, its region is empty and is skipped, the second draw returns
    [(None, None)], and the call returns the empty batch. *)
Lemma empty_batch_counterexample :
  (exists s1,
     sample_input_center (RegularData.cfg "test" 100) RegularData.scenes 0
       (5 # 100) FarData.start
     = Ok (Pair 0 [10; 0; 0]%Q, s1)
     /\ exists r,
          @get_input_area Ref.externals
            (RegularData.cfg "test" 100) RegularData.scenes 0
            [10; 0; 0]%Q = Ok r
          /\ input_points r = [])
  /\ exists s',
       __getitem__ (RegularData.cfg "test" 100) RegularData.scenes 0 5
         FarData.start
       = Ok (EmptyDict, s').
Proof.
  split.
  - eexists. split; [reflexivity|].
    eexists. split; [vm_compute; reflexivity | reflexivity].
  - eexists. vm_compute. reflexivity.
Qed.

(** C7, amended. When the loop ends with no region collected, the call
    does not raise: it returns the empty dictionary, whose [points] is
    empty, after sleeping 0.1 s.  The empty dictionary is returned in
    that case only, and then the policy is [regular], the role is not
    validation, the queue is used up and the sampler has answered
    [(None, None)], on the first draw or after draws whose regions were
    empty. *)
Theorem empty_batch_only_when_exhausted `{E : Externals}
    (cfg : Config) (scenes : Scenes) (sfuel fuel : nat)
    (s : State) (acc : Acc) (s1 : State) :
  batch_loop cfg scenes sfuel fuel empty_acc s = Ok (acc, s1) ->
  (p_list acc = [] ->
   __getitem__ cfg scenes sfuel fuel s
   = Ok (EmptyDict, after_sleep s1 (1 # 10))
   /\ points EmptyDict = [])
  /\ (forall s',
        __getitem__ cfg scenes sfuel fuel s = Ok (EmptyDict, s') ->
        p_list acc = []
        /\ s' = after_sleep s1 (1 # 10)
        /\ data_sampler cfg = "regular"
        /\ set_ cfg <> "validation"
        /\ exhausted s1
        /\ sample_input_center cfg scenes sfuel (5 # 100) s1
           = Ok (NoneNone, s1)).
Proof.
  intros Hloop. split.
  - intros Hp. unfold __getitem__. rewrite Hloop. simpl. rewrite Hp.
    split; reflexivity.
  - intros s' Hget. unfold __getitem__ in Hget. rewrite Hloop in Hget.
    simpl in Hget.
    destruct (batch_loop_exit cfg scenes sfuel fuel empty_acc s Hloop)
      as (ps & Hps & _ & Hexit).
    simpl in Hps.
    destruct (p_list acc) as [|x l] eqn:Hp; simpl in Hget.
    + injection Hget as <-. subst ps.
      destruct Hexit as [[Hne _] | [s0 Hend]]; [contradiction|].
      destruct (sample_end_inv cfg scenes sfuel _ s0 Hend)
        as (Hreg & Hval & Heq & Hex).
      subst s0. repeat split; assumption.
    + bind_inv Hget. discriminate.
Qed.

Lemma empty_batch_only_when_exhausted_witness :
  exists s1,
    __getitem__ (RegularData.cfg "test" 100) RegularData.scenes 0 5
      FarData.start
    = Ok (EmptyDict, after_sleep s1 (1 # 10))
    /\ slept (after_sleep s1 (1 # 10)) = [(1 # 10)%Q].
Proof.
  assert (Hloop : { r | batch_loop (RegularData.cfg "test" 100)
                          RegularData.scenes 0 5 empty_acc FarData.start
                        = Ok (empty_acc, r) }).
  { eexists. vm_compute. reflexivity. }
  destruct Hloop as [s1 Hloop].
  destruct (@empty_batch_only_when_exhausted Ref.externals
              (RegularData.cfg "test" 100) RegularData.scenes 0 5
              FarData.start empty_acc s1 Hloop) as [Hempty Honly].
  destruct (Hempty eq_refl) as [Hget _].
  exists s1. split; [exact Hget|].
  revert Hloop. vm_compute. intros Hloop. injection Hloop as <-.
  reflexivity.
Defined.

(* ------------------------------------------------------------------ *)
(** ** Properties of the region extractor *)

Section TakeFacts.
Variable A : Type.

Lemma take_rows (l : list A) (inds : list nat) (r : list A) :
  take l inds = Ok r -> Forall2 (fun i a => nth_error l i = Some a) inds r.
Proof.
  revert r. induction inds as [|i inds IH]; intros r H; simpl in H.
  - injection H as <-. constructor.
  - destruct (nth_error l i) as [a|] eqn:Hi; [|discriminate].
    bind_inv H. injection H as <-. constructor; auto.
Qed.


End TakeFacts.

Lemma in_combine_seq (A : Type) (l : list A) (a i : nat) (x : A) :
  In (i, x) (combine (seq a (List.length l)) l) ->
  a <= i /\ nth_error l (i - a) = Some x.
Proof.
  revert a. induction l as [|y l IH]; intros a H; simpl in H.
  - contradiction.
  - destruct H as [H | H].
    + injection H as <- <-. rewrite Nat.sub_diag. split; [lia | reflexivity].
    + destruct (IH (S a) H) as [Hle Hn]. split; [lia|].
      replace (i - a) with (S (i - S a)) by lia. exact Hn.
Qed.

(** The linear scan satisfies the contract of the ball query. *)
Lemma ref_radius_query_sound : @radius_query_sound Ref.externals.
Proof.
  intros data q r_sq inds H. simpl in H. unfold Ref.query_radius in H.
  destruct (same_width q data); [|discriminate].
  injection H as <-. apply Forall_forall. intros i Hi.
  apply in_map_iff in Hi. destruct Hi as ([j p] & Hj & Hin). simpl in Hj.
  subst j. apply filter_In in Hin. destruct Hin as [Hin Hd].
  apply in_combine_seq in Hin. destruct Hin as [_ Hn].
  rewrite Nat.sub_0_r in Hn. exists p. split; [exact Hn|].
  simpl in Hd. apply Qle_bool_iff in Hd. exact Hd.
Qed.

Section ExtractorFacts.
Context `{E : Externals}.
Variables (cfg : Config) (scenes : Scenes).

Lemma in_cube_inside (q : Point) (R : Q) (p : Point) :
  List.length p = List.length q -> in_cube q R p = true -> inside_cube q R p.
Proof.
  intros Hlen H. unfold in_cube in H. apply andb_true_iff in H.
  destruct H as [Hlo Hhi]. split; [exact Hlen|].
  apply Forall_forall. intros xc Hxc.
  rewrite forallb_forall in Hlo, Hhi.
  specialize (Hlo xc Hxc). specialize (Hhi xc Hxc).
  apply Qlt_bool_iff in Hlo. apply Qlt_bool_iff in Hhi. split; assumption.
Qed.

Lemma filter_rows (data : Points) (f : nat * Point -> bool)
    (inds : list nat) (pts : Points) :
  Forall2 (fun i a => nth_error data i = Some a) inds pts ->
  Forall (fun ip => nth_error data (fst ip) = Some (snd ip) /\ f ip = true)
         (filter f (combine inds pts)).
Proof.
  intros H. induction H as [|i a inds pts Hi _ IH]; simpl.
  - constructor.
  - destruct (f (i, a)) eqn:Hf; [constructor; auto | exact IH].
Qed.

(** The radius regime of [get_input_inds]. *)
Lemma get_input_inds_radius (cloud_ind : Z) (center_point : Point)
    (inds : list nat) (pts : Points) (sq : bool) :
  radius_query_sound ->
  (0 <= in_radius cfg)%Q ->
  get_input_inds cfg scenes cloud_ind center_point = Ok (inds, pts, sq) ->
  exists data,
    index (input_trees scenes) cloud_ind = Ok data
    /\ sq = false
    /\ Forall2 (fun i p => nth_error data i = Some p) inds pts
    /\ Forall (fun p =>
                 if use_cubes cfg
                 then inside_cube (q_point_of cfg center_point)
                                  (in_radius cfg) p
                 else inside_ball (q_point_of cfg center_point)
                                  (in_radius cfg) p) pts.
Proof.
  intros Hsound Hrad H. unfold get_input_inds in H.
  apply Qlt_bool_false in Hrad. rewrite Hrad in H.
  bind_inv H. rename a into data. exists data. split; [exact Hrun|].
  bind_inv H. rename a into inds0. bind_inv H. rename a into pts0.
  pose proof (take_rows _ _ Hrun1) as Hrows.
  destruct (use_cubes cfg) eqn:Hcube.
  - destruct (same_width (q_point_of cfg center_point) pts0) eqn:Hw;
      [|discriminate].
    injection H as <- <- <-. split; [reflexivity|].
    pose proof (@filter_rows data
                  (fun ip => in_cube (q_point_of cfg center_point)
                                     (in_radius cfg) (snd ip))
                  inds0 pts0 Hrows) as Hk.
    assert (Hwide : forall ip,
               In ip (combine inds0 pts0) ->
               List.length (snd ip)
               = List.length (q_point_of cfg center_point)).
    { intros [i p] Hin. apply in_combine_r in Hin. simpl.
      unfold same_width in Hw. rewrite forallb_forall in Hw.
      apply Nat.eqb_eq. exact (Hw p Hin). }
    set (kept := filter _ (combine inds0 pts0)) in *.
    assert (Hsub : forall ip, In ip kept -> In ip (combine inds0 pts0)).
    { intros ip Hin. unfold kept in Hin. apply filter_In in Hin. tauto. }
    clearbody kept. split.
    + induction kept as [|[i p] kept IH]; simpl; [constructor|].
      inversion Hk as [|? ? [Hi _] Hk']; subst. constructor.
      * exact Hi.
      * apply IH; [exact Hk' | intros ip Hin; apply Hsub; right; exact Hin].
    + apply Forall_forall. intros p Hp. apply in_map_iff in Hp.
      destruct Hp as ([i p'] & Heq & Hin). simpl in Heq. subst p'.
      rewrite Forall_forall in Hk. destruct (Hk _ Hin) as [_ Hc].
      apply in_cube_inside; [|exact Hc].
      exact (Hwide _ (Hsub _ Hin)).
  - injection H as <- <- <-. split; [reflexivity|]. split; [exact Hrows|].
    specialize (Hsound _ _ _ _ Hrun0).
    unfold query_radius_sq in Hsound. rewrite Hcube in Hsound.
    clear - Hsound Hrows.
    induction Hrows as [|i p inds pts Hi _ IH]; [constructor|].
    inversion Hsound as [|? ? (p' & Hp' & Hd) Hs']; subst.
    constructor; [|exact (IH Hs')].
    rewrite Hi in Hp'. injection Hp' as <-. exact Hd.
Qed.

End ExtractorFacts.

(** [get_input_area] returns the indices found by [get_input_inds]. *)
Lemma get_input_area_inds `{E : Externals} (cfg : Config) (scenes : Scenes)
    (cloud_ind : Z) (center_point : Point) (r : Region) :
  get_input_area cfg scenes cloud_ind center_point = Ok r ->
  exists pts,
    get_input_inds cfg scenes cloud_ind center_point
    = Ok (input_inds r, pts, squeezed r)
    /\ (cylindric_input cfg = false -> input_points r = pts).
Proof.
  intros H. unfold get_input_area in H.
  bind_inv H. destruct a as [[inds pts] sq].
  bind_inv H. bind_inv H. bind_inv H. bind_inv H.
  injection H as <-. simpl. exists pts. split; [exact Hrun|].
  intros Hcyl. rewrite Hcyl in Hrun0. injection Hrun0 as <-. reflexivity.
Qed.

(** C4. For a radius [in_radius >= 0], [get_input_area] is a function of
    the scene and the centre: two calls with the same arguments return
    the same region.  Every index it returns is that of a point of the
    scene's tree which, with [q] the centre (its first two coordinates in
    cylindrical mode), is within Euclidean distance [in_radius] of [q]
    when [use_cubes] is off, and has every coordinate strictly within
    [in_radius] of that of [q] when it is on.  Coordinates are exact
    rationals; the ball query is any one that meets its contract. *)
Theorem get_input_area_in_shape `{E : Externals}
    (cfg : Config) (scenes : Scenes) (cloud_ind : Z) (center_point : Point)
    (r : Region) :
  radius_query_sound ->
  (0 <= in_radius cfg)%Q ->
  get_input_area cfg scenes cloud_ind center_point = Ok r ->
  (forall r',
     get_input_area cfg scenes cloud_ind center_point = Ok r' -> r' = r)
  /\ q_point_of cfg center_point
     = (if cylindric_input cfg then firstn 2 center_point else center_point)
  /\ exists data,
       index (input_trees scenes) cloud_ind = Ok data
       /\ Forall (fun i => exists p,
                    nth_error data i = Some p
                    /\ if use_cubes cfg
                       then inside_cube (q_point_of cfg center_point)
                                        (in_radius cfg) p
                       else inside_ball (q_point_of cfg center_point)
                                        (in_radius cfg) p)
                 (input_inds r)
       /\ (cylindric_input cfg = false ->
           Forall2 (fun i p => nth_error data i = Some p)
                   (input_inds r) (input_points r)).
Proof.
  intros Hsound Hrad Hrun. split; [|split].
  - intros r' Hrun'. rewrite Hrun in Hrun'. injection Hrun' as <-.
    reflexivity.
  - reflexivity.
  - destruct (get_input_area_inds cfg scenes cloud_ind center_point Hrun)
      as (pts & Hinds & Hpts).
    destruct (get_input_inds_radius cfg scenes cloud_ind center_point
                Hsound Hrad Hinds) as (data & Hdata & _ & Hrows & Hshape).
    exists data. split; [exact Hdata|]. split.
    + clear - Hrows Hshape.
      induction Hrows as [|i p inds pts Hi _ IH]; [constructor|].
      inversion Hshape; subst. constructor; [|apply IH; assumption].
      exists p. split; assumption.
    + intros Hcyl. rewrite (Hpts Hcyl). exact Hrows.
Qed.

Lemma get_input_area_in_shape_witness :
  (exists r,
     @get_input_area Ref.externals (RegularData.cfg "test" 100)
       RegularData.scenes 0 [0; 0; 0]%Q = Ok r
     /\ input_inds r = [0; 1]
     /\ Forall (fun i => exists p,
                  nth_error [[0; 0; 0]; [1 # 2; 0; 0]; [3; 0; 0]]%Q i = Some p
                  /\ inside_ball [0; 0; 0]%Q 1 p) (input_inds r))
  /\ (exists r,
        @get_input_area Ref.externals (ShapeData.cfg true)
          ShapeData.scenes2d 0 [0; 0; 7]%Q = Ok r
        /\ input_inds r = [0; 1]
        /\ Forall (fun i => exists p,
                     nth_error [[0; 0]; [1 # 2; 0]; [3; 0]; [9 # 10; 1]]%Q i
                     = Some p
                     /\ inside_cube [0; 0]%Q 1 p) (input_inds r)).
Proof.
  split.
  - eexists. split; [vm_compute; reflexivity|]. split; [reflexivity|].
    destruct (@get_input_area_in_shape Ref.externals
                (RegularData.cfg "test" 100) RegularData.scenes 0 [0; 0; 0]%Q
                _ ref_radius_query_sound ltac:(discriminate) eq_refl)
      as (_ & _ & data & Hdata & Hshape & _).
    vm_compute in Hdata. injection Hdata as <-. exact Hshape.
  - eexists. split; [vm_compute; reflexivity|]. split; [reflexivity|].
    destruct (@get_input_area_in_shape Ref.externals
                (ShapeData.cfg true) ShapeData.scenes2d 0 [0; 0; 7]%Q
                _ ref_radius_query_sound ltac:(discriminate) eq_refl)
      as (_ & _ & data & Hdata & Hshape & _).
    vm_compute in Hdata. injection Hdata as <-. exact Hshape.
Defined.

(* ------------------------------------------------------------------ *)
(** ** The reference index and selection meet their contracts *)

Lemma in_firstn (A : Type) (n : nat) (l : list A) (x : A) :
  In x (firstn n l) -> In x l.
Proof.
  intros H. rewrite <- (firstn_skipn n l). apply in_or_app. left. exact H.
Qed.

Lemma in_skipn (A : Type) (n : nat) (l : list A) (x : A) :
  In x (skipn n l) -> In x l.
Proof.
  intros H. rewrite <- (firstn_skipn n l). apply in_or_app. right. exact H.
Qed.

Section RefSorting.
Variable key : nat -> Q.

Lemma insert_by_perm (i : nat) (l : list nat) :
  Permutation (Ref.insert_by key i l) (i :: l).
Proof.
  induction l as [|j l IH]; simpl.
  - apply Permutation_refl.
  - destruct (Qle_bool (key i) (key j)).
    + apply Permutation_refl.
    + apply perm_trans with (j :: i :: l).
      * apply perm_skip. exact IH.
      * apply perm_swap.
Qed.

Lemma insert_by_sorted (i : nat) (l : list nat) :
  StronglySorted (key_le key) l ->
  StronglySorted (key_le key) (Ref.insert_by key i l).
Proof.
  intros Hs. induction Hs as [|j l Hs IH Hj]; simpl.
  - constructor; constructor.
  - destruct (Qle_bool (key i) (key j)) eqn:Hle.
    + apply Qle_bool_iff in Hle. constructor.
      * constructor; assumption.
      * constructor; [exact Hle|].
        apply Forall_forall. intros x Hx. rewrite Forall_forall in Hj.
        unfold key_le in *. apply Qle_trans with (key j); auto.
    + constructor; [exact IH|].
      assert (Hji : key_le key j i).
      { unfold key_le. destruct (Qlt_le_dec (key j) (key i)) as [H|H].
        - apply Qlt_le_weak. exact H.
        - apply Qle_bool_iff in H. congruence. }
      apply Forall_forall. intros x Hx.
      apply (Permutation_in _ (insert_by_perm i l)) in Hx.
      destruct Hx as [<- | Hx]; [exact Hji|].
      rewrite Forall_forall in Hj. apply Hj. exact Hx.
Qed.

Lemma sort_by_perm_sorted (l : list nat) :
  Permutation (fold_right (Ref.insert_by key) [] l) l
  /\ StronglySorted (key_le key) (fold_right (Ref.insert_by key) [] l).
Proof.
  induction l as [|i l [IHp IHs]]; simpl.
  - split; constructor.
  - split.
    + apply perm_trans with (i :: fold_right (Ref.insert_by key) [] l).
      * apply insert_by_perm.
      * apply perm_skip. exact IHp.
    + apply insert_by_sorted. exact IHs.
Qed.

Lemma sorted_split (l : list nat) (n : nat) (x y : nat) :
  StronglySorted (key_le key) l ->
  In x (firstn n l) -> In y (skipn n l) -> (key_le key) x y.
Proof.
  intros Hs. revert n. induction Hs as [|j l Hs IH Hj]; intros n Hx Hy.
  - destruct n; simpl in Hx; contradiction.
  - destruct n as [|n]; simpl in Hx, Hy; [contradiction|].
    destruct Hx as [<- | Hx].
    + rewrite Forall_forall in Hj. apply Hj.
      exact (in_skipn n l y Hy).
    + exact (IH n Hx Hy).
Qed.

End RefSorting.

Lemma argsort_perm (a : list Q) :
  Permutation (Ref.argsort a) (seq 0 (List.length a)).
Proof. unfold Ref.argsort. apply sort_by_perm_sorted. Qed.

Lemma ref_argpartition_sound : @argpartition_sound Ref.externals.
Proof.
  intros a kth Hk. simpl. split; [apply argsort_perm|].
  intros x y Hx Hy.
  exact (@sorted_split (fun i => nth i a 0%Q) _ kth x y
           (proj2 (sort_by_perm_sorted _ _)) Hx Hy).
Qed.

Lemma ref_knn_query_sound : @knn_query_sound Ref.externals.
Proof.
  intros data q k inds H. simpl in H. unfold Ref.query in H.
  destruct (same_width q data); [|discriminate].
  destruct (Nat.leb_spec k (List.length data)) as [Hk|]; [|discriminate].
  injection H as <-.
  pose proof (argsort_perm (map (dist_sq q) data)) as Hp.
  rewrite length_map in Hp.
  assert (Hnd : NoDup (Ref.argsort (map (dist_sq q) data))).
  { apply (Permutation_NoDup (Permutation_sym Hp)). apply seq_NoDup. }
  split; [|split].
  - rewrite firstn_length_le; [reflexivity|].
    rewrite (Permutation_length Hp), length_seq. exact Hk.
  - rewrite <- (firstn_skipn k) in Hnd. exact (NoDup_app_remove_r _ _ Hnd).
  - apply Forall_forall. intros i Hi. apply in_firstn in Hi.
    apply (Permutation_in _ Hp) in Hi. apply in_seq in Hi. lia.
Qed.

(* ------------------------------------------------------------------ *)
(** ** The fixed-count regime *)

Section FixedCountFacts.

Lemma as_int_inject (x : Q) (z : Z) :
  (x == inject_Z z)%Q -> as_int x = Ok z.
Proof.
  intros Hx. unfold as_int.
  assert (Hf : Qfloor x = z) by (rewrite Hx; apply Qfloor_Z).
  rewrite Hf.
  destruct (Qeq_bool x (inject_Z z)) eqn:Hb; [reflexivity|].
  apply Qeq_bool_iff in Hx. congruence.
Qed.

Lemma take_total (A : Type) (d : A) (l : list A) (inds : list nat) :
  Forall (fun i => i < List.length l) inds ->
  take l inds = Ok (map (fun i => nth i l d) inds).
Proof.
  induction 1 as [|i inds Hi _ IH]; simpl.
  - reflexivity.
  - destruct (nth_error l i) as [a|] eqn:Hn.
    + rewrite IH. simpl. rewrite (nth_error_nth l i d Hn). reflexivity.
    + apply nth_error_None in Hn. lia.
Qed.

Lemma take_seq_from (A : Type) (pre l : list A) :
  take (pre ++ l) (seq (List.length pre) (List.length l)) = Ok l.
Proof.
  revert pre. induction l as [|a l IH]; intros pre; simpl.
  - reflexivity.
  - rewrite nth_error_app2 by lia. rewrite Nat.sub_diag. simpl.
    specialize (IH (pre ++ [a])).
    rewrite <- app_assoc, length_app, Nat.add_1_r in IH. simpl in IH.
    rewrite IH. reflexivity.
Qed.

Lemma take_seq_all (A : Type) (l : list A) :
  take l (seq 0 (List.length l)) = Ok l.
Proof. exact (take_seq_from [] l). Qed.

Lemma nodup_positions (A : Type) (d : A) (l : list A) (pick : list nat) :
  NoDup l -> NoDup pick -> Forall (fun a => a < List.length l) pick ->
  NoDup (map (fun a => nth a l d) pick).
Proof.
  intros Hl Hp Hlt. induction Hp as [|a pick Ha Hp IH]; simpl.
  - constructor.
  - inversion Hlt as [|? ? Halt Hlt']; subst. constructor.
    + intros Hin. apply in_map_iff in Hin. destruct Hin as (b & Hb & Hbin).
      rewrite Forall_forall in Hlt'.
      assert (b = a).
      { apply (proj1 (NoDup_nth l d) Hl); auto. }
      subst b. contradiction.
    + apply IH. exact Hlt'.
Qed.

Lemma same_width_rows (q : Point) (data : Points) (inds : list nat)
    (pts : Points) :
  same_width q data = true -> take data inds = Ok pts ->
  same_width q pts = true.
Proof.
  intros Hw Ht. apply take_rows in Ht. unfold same_width in *.
  rewrite forallb_forall in Hw. apply forallb_forall. intros p Hp.
  induction Ht as [|i a inds pts Hi _ IH]; [contradiction|].
  destruct Hp as [<- | Hp]; [|exact (IH Hp)].
  apply Hw. exact (nth_error_In _ _ Hi).
Qed.

Lemma Qlt_bool_inject (a b : Z) :
  Qlt_bool (inject_Z a) (inject_Z b) = (a <? b)%Z.
Proof.
  destruct (Z.ltb_spec a b) as [H | H].
  - apply Qlt_bool_iff. rewrite <- Zlt_Qlt. exact H.
  - apply Qlt_bool_false. rewrite <- Zle_Qle. exact H.
Qed.

Lemma Qlt_bool_compat (x x' y y' : Q) :
  (x == x')%Q -> (y == y')%Q -> Qlt_bool x y = Qlt_bool x' y'.
Proof.
  intros Hx Hy. destruct (Qlt_bool x' y') eqn:H.
  - apply Qlt_bool_iff in H. apply Qlt_bool_iff. rewrite Hx, Hy. exact H.
  - apply Qlt_bool_false in H. apply Qlt_bool_false. rewrite Hx, Hy. exact H.
Qed.

End FixedCountFacts.

Section FixedCount.
Context `{E : Externals}.
Variables (cfg : Config) (scenes : Scenes).
Variable k : nat.
Hypothesis Hradius : (in_radius cfg == inject_Z (- Z.of_nat k))%Q.
Hypothesis Hk : 1 <= k.

Lemma fixed_count_regime : Qlt_bool (in_radius cfg) 0 = true.
Proof.
  rewrite (Qlt_bool_compat Hradius (Qeq_refl 0)).
  change 0%Q with (inject_Z 0). rewrite Qlt_bool_inject.
  apply Z.ltb_lt. lia.
Qed.

Lemma minus_radius : (- in_radius cfg == inject_Z (Z.of_nat k))%Q.
Proof. rewrite Hradius, <- inject_Z_opp, Z.opp_involutive. reflexivity. Qed.

Lemma minus_radius_twice :
  (- in_radius cfg * 2 == inject_Z (Z.of_nat (2 * k)))%Q.
Proof.
  rewrite minus_radius, Nat2Z.inj_mul, inject_Z_mult. simpl. ring.
Qed.

(** Spheres: a scene of at most [k] points is returned whole. *)
Lemma fixed_count_sphere_all (cloud_ind : Z) (center_point : Point)
    (data : Points) :
  use_cubes cfg = false ->
  index (input_trees scenes) cloud_ind = Ok data ->
  List.length data <= k ->
  get_input_inds cfg scenes cloud_ind center_point
  = Ok (seq 0 (List.length data), data, false).
Proof.
  intros Hcube Hdata Hn. unfold get_input_inds.
  rewrite fixed_count_regime, Hdata. simpl.
  unfold fixed_count_candidates. rewrite Hcube.
  rewrite (Qlt_bool_compat minus_radius (Qeq_refl _)), Qlt_bool_inject.
  destruct (Z.ltb_spec (Z.of_nat k) (Z.of_nat (List.length data))); [lia|].
  simpl. rewrite take_seq_all. reflexivity.
Qed.

(** Cubes: the candidates are the [2k] nearest neighbours of a scene of
    more than [2k] points, and all the points of a smaller scene. *)
Lemma fixed_count_cube_candidates (q : Point) (data : Points)
    (cands : list nat) (sq : bool) :
  knn_query_sound ->
  use_cubes cfg = true -> k < List.length data ->
  fixed_count_candidates cfg data q = Ok (cands, sq) ->
  (2 * k < List.length data -> tree_query data q (2 * k) = Ok cands)
  /\ (List.length data <= 2 * k -> cands = seq 0 (List.length data))
  /\ k < List.length cands /\ NoDup cands
  /\ Forall (fun i => i < List.length data) cands.
Proof.
  intros Hknn Hcube Hn H. unfold fixed_count_candidates in H.
  rewrite Hcube in H.
  rewrite (Qlt_bool_compat minus_radius_twice (Qeq_refl _)),
    Qlt_bool_inject in H.
  destruct (Z.ltb_spec (Z.of_nat (2 * k)) (Z.of_nat (List.length data)))
    as [Hbig | Hsmall].
  - rewrite (as_int_inject minus_radius_twice) in H. simpl bind in H.
    rewrite Nat2Z.id in H. bind_inv H. injection H as <- <-.
    destruct (Hknn _ _ _ _ Hrun) as (Hlen & Hnd & Hlt).
    split; [intros _; exact Hrun|]. split; [lia|].
    split; [lia|]. split; assumption.
  - injection H as <- <-. split; [lia|]. split; [reflexivity|].
    rewrite length_seq. split; [exact Hn|]. split; [apply seq_NoDup|].
    apply Forall_forall. intros i Hi. apply in_seq in Hi. lia.
Qed.

(** The crop keeps the [k] positions that come first in the partition. *)
Lemma fixed_count_crop_picks (q : Point) (cands : list nat) (pts0 : Points) :
  argpartition_sound ->
  same_width q pts0 = true ->
  List.length pts0 = List.length cands -> k < List.length cands ->
  let dists := map (cube_dist q) pts0 in
  let pick := firstn k (np_argpartition dists k) in
  fixed_count_crop cfg q cands pts0
  = Ok (map (fun a => nth a cands 0) pick, map (fun a => nth a pts0 []) pick)
  /\ List.length pick = k /\ NoDup pick
  /\ Forall (fun a => a < List.length cands) pick
  /\ (forall a b, In a pick -> b < List.length cands -> ~ In b pick ->
        (nth a dists 0 <= nth b dists 0)%Q).
Proof.
  intros Hpart Hw Hlen Hlt dists pick.
  assert (Hd : k < List.length dists)
    by (unfold dists; rewrite length_map; lia).
  destruct (Hpart dists k Hd) as [Hperm Hord].
  assert (Hdl : List.length dists = List.length cands)
    by (unfold dists; rewrite length_map; exact Hlen).
  assert (Hnd : NoDup (np_argpartition dists k)).
  { apply (Permutation_NoDup (Permutation_sym Hperm)). apply seq_NoDup. }
  assert (Hin : forall a, In a (np_argpartition dists k)
                          <-> a < List.length cands).
  { intros a. split; intros Ha.
    - apply (Permutation_in _ Hperm) in Ha. apply in_seq in Ha. lia.
    - apply (Permutation_in _ (Permutation_sym Hperm)). apply in_seq. lia. }
  assert (Hpick : Forall (fun a => a < List.length cands) pick).
  { apply Forall_forall. intros a Ha. apply Hin.
    exact (in_firstn _ _ _ Ha). }
  split; [|split; [|split; [|split]]].
  - unfold fixed_count_crop. rewrite Hw.
    rewrite (as_int_inject minus_radius). simpl bind.
    fold dists. rewrite Nat2Z.id.
    destruct (Z.ltb_spec (Z.of_nat k) (Z.of_nat (List.length dists))); [|lia].
    fold pick.
    assert (Hpick0 : Forall (fun a => a < List.length pts0) pick).
    { rewrite Hlen. exact Hpick. }
    rewrite (take_total [] pts0) by exact Hpick0.
    simpl bind. rewrite (take_total 0 cands) by exact Hpick.
    reflexivity.
  - unfold pick. apply firstn_length_le.
    rewrite (Permutation_length Hperm), length_seq. lia.
  - unfold pick. rewrite <- (firstn_skipn k) in Hnd.
    exact (NoDup_app_remove_r _ _ Hnd).
  - exact Hpick.
  - intros a b Ha Hb Hnb. apply Hord; [exact Ha|].
    apply Hin in Hb. rewrite <- (firstn_skipn k) in Hb.
    apply in_app_or in Hb. destruct Hb as [Hb | Hb]; [contradiction|].
    exact Hb.
Qed.

End FixedCount.

Lemma nth_map_lt (A B : Type) (f : A -> B) (l : list A) (a : nat)
    (d : A) (d' : B) :
  a < List.length l -> nth a (map f l) d' = f (nth a l d).
Proof.
  intros Ha. rewrite (nth_indep (map f l) d' (f d)).
  - apply map_nth.
  - rewrite length_map. exact Ha.
Qed.

(** C5, amended. Fixed-count regime, [in_radius = -k].  With spheres, a
    scene of at most [k] points is returned whole, in order, with no
    crop.  With cubes and a scene of more than [k] points, the candidates
    are the [2k] nearest neighbours when the scene has more than [2k]
    points and all its points otherwise; the crop keeps exactly [k]
    distinct candidates, none of which is farther from the centre, in
    Chebyshev distance, than a candidate it drops.  The nearest-neighbour
    query and the partial selection are any that meet their contracts. *)
Theorem fixed_count_fallback_and_crop `{E : Externals}
    (cfg : Config) (scenes : Scenes) (k : nat) (cloud_ind : Z)
    (center_point : Point) (data : Points) :
  knn_query_sound -> argpartition_sound ->
  (in_radius cfg == inject_Z (- Z.of_nat k))%Q -> 1 <= k ->
  index (input_trees scenes) cloud_ind = Ok data ->
  let q := q_point_of cfg center_point in
  let N := List.length data in
  (use_cubes cfg = false -> N <= k ->
   get_input_inds cfg scenes cloud_ind center_point = Ok (seq 0 N, data, false)
   /\ forall r,
        get_input_area cfg scenes cloud_ind center_point = Ok r ->
        input_inds r = seq 0 N
        /\ (cylindric_input cfg = false -> input_points r = data))
  /\ (use_cubes cfg = true -> k < N -> same_width q data = true ->
      forall cands sq,
        fixed_count_candidates cfg data q = Ok (cands, sq) ->
        (2 * k < N -> tree_query data q (2 * k) = Ok cands)
        /\ (N <= 2 * k -> cands = seq 0 N)
        /\ exists inds pts,
             get_input_inds cfg scenes cloud_ind center_point
             = Ok (inds, pts, sq)
             /\ List.length inds = k /\ NoDup inds /\ incl inds cands
             /\ Forall2 (fun i p => nth_error data i = Some p) inds pts
             /\ forall i j,
                  In i inds -> In j cands -> ~ In j inds ->
                  (cube_dist q (nth i data [])
                   <= cube_dist q (nth j data []))%Q).
Proof.
  intros Hknn Hpart Hradius Hk Hdata q N. split.
  - intros Hcube Hn.
    pose proof (fixed_count_sphere_all cfg scenes Hradius Hk cloud_ind
                  center_point Hcube Hdata Hn) as Hall.
    split; [exact Hall|]. intros r Hr.
    destruct (get_input_area_inds cfg scenes cloud_ind center_point Hr)
      as (pts & Hinds & Hpts).
    rewrite Hall in Hinds. injection Hinds as Hi Hp _.
    split; [symmetry; exact Hi|].
    intros Hcyl. rewrite (Hpts Hcyl). symmetry. exact Hp.
  - intros Hcube Hn Hw cands sq Hc.
    destruct (fixed_count_cube_candidates cfg Hradius Hk q data Hknn Hcube Hn
                Hc)
      as (Hquery & Hsmall & Hlen & Hnd & Hlt).
    split; [exact Hquery|]. split; [exact Hsmall|].
    set (pts0 := map (fun i => nth i data []) cands).
    assert (Htake : take data cands = Ok pts0)
      by (apply take_total; exact Hlt).
    assert (Hw0 : same_width q pts0 = true)
      by exact (same_width_rows q data cands Hw Htake).
    assert (Hlen0 : List.length pts0 = List.length cands)
      by (unfold pts0; apply length_map).
    destruct (fixed_count_crop_picks cfg Hradius Hk q cands pts0 Hpart Hw0
                Hlen0 Hlen) as (Hcrop & Hpk & Hpnd & Hplt & Hord).
    set (dists := map (cube_dist q) pts0) in *.
    set (pick := firstn k (np_argpartition dists k)) in *.
    exists (map (fun a => nth a cands 0) pick),
           (map (fun a => nth a pts0 []) pick).
    assert (Hrow : forall a, a < List.length cands ->
                     nth a pts0 [] = nth (nth a cands 0) data []).
    { intros a Ha. unfold pts0.
      exact (nth_map_lt (fun i => nth i data []) cands 0 [] Ha). }
    rewrite Forall_forall in Hplt, Hlt.
    split; [|split; [|split; [|split; [|split]]]].
    + unfold get_input_inds.
      rewrite (fixed_count_regime cfg Hradius Hk), Hdata. simpl bind.
      fold q. rewrite Hc. simpl bind. rewrite Htake. simpl bind.
      rewrite Hcube, Hcrop. reflexivity.
    + rewrite length_map. exact Hpk.
    + apply nodup_positions; [exact Hnd | exact Hpnd|].
      apply Forall_forall. exact Hplt.
    + intros i Hi. apply in_map_iff in Hi. destruct Hi as (a & <- & Ha).
      apply nth_In. exact (Hplt a Ha).
    + clear Hord Hpnd Hpk Hcrop.
      induction pick as [|a pick IH]; simpl; [constructor|].
      constructor.
      * rewrite (Hrow a) by (apply Hplt; left; reflexivity).
        apply nth_error_nth'. apply Hlt. apply nth_In.
        apply Hplt. left. reflexivity.
      * apply IH. intros b Hb. apply Hplt. right. exact Hb.
    + intros i j Hi Hj Hnj.
      apply in_map_iff in Hi. destruct Hi as (a & <- & Ha).
      destruct (In_nth cands j 0 Hj) as (b & Hb & <-).
      assert (Hnb : ~ In b pick).
      { intros Hin. apply Hnj. apply in_map_iff. exists b.
        split; [reflexivity | exact Hin]. }
      pose proof (Hord a b Ha Hb Hnb) as Hle.
      unfold dists in Hle.
      rewrite (nth_map_lt (cube_dist q) pts0 [] 0%Q) in Hle
        by (rewrite Hlen0; exact (Hplt a Ha)).
      rewrite (nth_map_lt (cube_dist q) pts0 [] 0%Q) in Hle
        by (rewrite Hlen0; exact Hb).
      rewrite (Hrow a (Hplt a Ha)), (Hrow b Hb) in Hle. exact Hle.
Qed.

(** C5, as stated, fails.  With cubes and [k = 2], a scene of three
    points has more than [k] points, yet no [2k = 4] neighbours are
    queried (the index holds only three): all three points are the
    candidates and the crop keeps two.  And a scene of two points, at
    most [k], is not returned whole with cubes: the crop is applied and
    raises [ValueError]. *)
Lemma fixed_count_counterexample :
  (@fixed_count_candidates Ref.externals (FixedCountData.cfg true)
     [[0; 0; 0]; [1; 0; 0]; [3; 0; 0]]%Q [0; 0; 0]%Q
   = Ok ([0; 1; 2], false)
   /\ @tree_query Ref.externals [[0; 0; 0]; [1; 0; 0]; [3; 0; 0]]%Q
        [0; 0; 0]%Q 4
      = Raise "ValueError"
   /\ @get_input_inds Ref.externals (FixedCountData.cfg true)
        FixedCountData.scenes 1 [0; 0; 0]%Q
      = Ok ([0; 1], [[0; 0; 0]; [1; 0; 0]]%Q, false))
  /\ @get_input_area Ref.externals (FixedCountData.cfg true)
       FixedCountData.scenes 2 [0; 0; 0]%Q
     = Raise "ValueError".
Proof.
  split; [split; [|split]|]; vm_compute; reflexivity.
Qed.

Lemma fixed_count_fallback_and_crop_witness :
  @get_input_inds Ref.externals (FixedCountData.cfg false)
    FixedCountData.scenes 2 [0; 0; 0]%Q
  = Ok ([0; 1], [[0; 0; 0]; [1; 0; 0]]%Q, false)
  /\ exists inds pts,
       @get_input_inds Ref.externals (FixedCountData.cfg true)
         FixedCountData.scenes 0 [0; 0; 0]%Q
       = Ok (inds, pts, false)
       /\ List.length inds = 2.
Proof.
  split.
  - destruct (@fixed_count_fallback_and_crop Ref.externals
                (FixedCountData.cfg false) FixedCountData.scenes 2 2
                [0; 0; 0]%Q _ ref_knn_query_sound ref_argpartition_sound
                (Qeq_refl _) (le_S _ _ (le_n 1)) eq_refl) as [Hsphere _].
    destruct (Hsphere eq_refl (le_n 2)) as [Hall _]. exact Hall.
  - destruct (@fixed_count_fallback_and_crop Ref.externals
                (FixedCountData.cfg true) FixedCountData.scenes 2 0
                [0; 0; 0]%Q _ ref_knn_query_sound ref_argpartition_sound
                (Qeq_refl _) (le_S _ _ (le_n 1)) eq_refl) as [_ Hcube].
    assert (Hc : { cs | @fixed_count_candidates Ref.externals
                          (FixedCountData.cfg true)
                          [[0; 0; 0]; [1; 0; 0]; [2; 0; 0];
                           [9 # 10; 9 # 10; 9 # 10]; [5; 5; 5]]%Q [0; 0; 0]%Q
                        = Ok (cs, false) }).
    { eexists. vm_compute. reflexivity. }
    destruct Hc as [cs Hc].
    destruct (Hcube eq_refl ltac:(simpl; lia) eq_refl cs false Hc)
      as (_ & _ & inds & pts & Hrun & Hlen & _).
    exists inds, pts. split; [exact Hrun | exact Hlen].
Defined.

(* ------------------------------------------------------------------ *)
(** ** Class-balanced sampling and ignored labels *)

(** Under any random policy a call never returns [(None, None)]. *)
Lemma random_never_ends `{E : Externals} (cfg : Config) (scenes : Scenes)
    (sfuel : nat) (noise : Q) (s s' : State) :
  contains "random" (data_sampler cfg) = true ->
  sample_input_center cfg scenes sfuel noise s <> Ok (NoneNone, s').
Proof.
  intros Hrand H. apply sample_end_inv in H. destruct H as (Hreg & _).
  rewrite Hreg in Hrand. discriminate.
Qed.

(** The label redrawn by the loop is never, as a number, one of the
    ignored labels. *)
Lemma redraw_label_not_ignored `{E : Externals} (cfg : Config)
    (fuel rand_l0 : nat) (s : State) (rand_l : nat) (s' : State) :
  redraw_label cfg fuel rand_l0 s = Ok (rand_l, s') ->
  mem (Z.of_nat rand_l) (ignored_labels cfg) = false.
Proof.
  revert rand_l0 s. induction fuel as [|fuel IH]; intros rand_l0 s H;
    simpl in H.
  - destruct (mem (Z.of_nat rand_l0) (ignored_labels cfg)) eqn:Hm;
      [discriminate|].
    injection H as <- <-. exact Hm.
  - destruct (mem (Z.of_nat rand_l0) (ignored_labels cfg)) eqn:Hm.
    + bind_inv H. destruct a as [r s1]. exact (IH _ _ H).
    + injection H as <- <-. exact Hm.
Qed.

(** C6 on a dataset whose label values are not their own indices: labels
    1 and 2, label 2 ignored, scene 1 made of points of label 2 only.
    The class index 1 is drawn; it is not the number 2, so the loop
    keeps it; [label_indices[1]] lists the points of label 2, and the
    centre returned is a point of scene 1. *)
Theorem c_random_selects_ignored_scene :
  In 2%Z (ignored_labels IgnoredData.cfg)
  /\ nth 1 (input_labels IgnoredData.scenes) [] = [2; 2]%Z
  /\ nth 1 (label_values IgnoredData.cfg) 0%Z = 2%Z
  /\ nth 1 (label_indices IgnoredData.scenes) [] = [(1, 0); (1, 1)]%Z
  /\ redraw_label IgnoredData.cfg 3 1 IgnoredData.start
     = Ok (1, IgnoredData.start)
  /\ exists s',
       sample_input_center IgnoredData.cfg IgnoredData.scenes 3 (5 # 100)
         IgnoredData.start
       = Ok (Pair 1 [5 + 0; 0 + 0; 0 + 0]%Q, s').
Proof.
  split; [left; reflexivity|].
  split; [reflexivity|]. split; [reflexivity|]. split; [reflexivity|].
  split; [reflexivity|].
  eexists. reflexivity.
Qed.

(* ------------------------------------------------------------------ *)
(** ** Properties of the batch-limit calibration *)

Section Calibration.
Context `{E : Externals}.
Variables (samples : nat) (sizes : list Z) (lim : Q).
Hypothesis Hsamples : 1 <= samples.
Hypothesis Hlen : List.length sizes = samples.
Hypothesis Hpos : Forall (fun n => (1 <= n)%Z) sizes.

Lemma choice_in_range (s : State) :
  exists j s',
    np_random_choice samples s = Ok (j, s') /\ j < samples.
Proof.
  unfold np_random_choice. destruct samples as [|m] eqn:Hm; [lia|].
  destruct (np_random_raw (rng s)) as [x g].
  eexists. eexists. split; [reflexivity|].
  apply Nat.mod_upper_bound. discriminate.
Qed.

Lemma size_pos (j : nat) : j < samples -> (1 <= nth j sizes 0)%Z.
Proof.
  intros Hj. rewrite Forall_forall in Hpos. apply Hpos. apply nth_In. lia.
Qed.

Lemma over_limit_spec (p : Z) :
  over_limit (Some lim) p = true <-> (lim < inject_Z p)%Q.
Proof. simpl. apply Qlt_bool_iff. Qed.

Lemma total_drawn_snoc (init : list nat) (j : nat) :
  total (drawn_sizes sizes (init ++ [j]))
  = (total (drawn_sizes sizes init) + nth j sizes 0)%Z.
Proof.
  unfold drawn_sizes. rewrite map_app, total_app. simpl. lia.
Qed.

Lemma simulate_batch_step (fuel : nat) (l : option Q) (bn bp : Z)
    (s : State) :
  simulate_batch (S fuel) samples sizes l bn bp s
  = ('(rand_i, s1) <- np_random_choice samples s ;;
     n <- index sizes (Z.of_nat rand_i) ;;
     if over_limit l (bp + n)%Z then Ok ((bn + 1, bp + n)%Z, s1)
     else simulate_batch fuel samples sizes l (bn + 1) (bp + n) s1).
Proof. reflexivity. Qed.

(** A synthetic batch ends: every draw adds at least one point.  [init]
    are the draws already made, none of which went over the limit. *)
Lemma simulate_batch_runs (fuel : nat) (init : list nat) (s : State) :
  Forall (fun i => i < samples) init ->
  (init <> [] -> (inject_Z (total (drawn_sizes sizes init)) <= lim)%Q) ->
  (Z.to_nat (Qfloor lim - total (drawn_sizes sizes init)) + 1 <= fuel) ->
  exists n pts s',
    simulate_batch fuel samples sizes (Some lim)
      (Z.of_nat (List.length init)) (total (drawn_sizes sizes init)) s
    = Ok ((n, pts), s')
    /\ simulated_batch samples sizes lim n pts.
Proof.
  revert init s. induction fuel as [|fuel IH]; intros init s Hin Hunder Hfuel.
  - lia.
  - rewrite simulate_batch_step.
    destruct (choice_in_range s) as (j & s1 & Hj & Hjlt).
    rewrite Hj. cbn [bind].
    rewrite (index_nth sizes 0%Z) by lia. cbn [bind].
    pose proof (size_pos Hjlt) as Hsz.
    assert (Hall : Forall (fun i => i < samples) (init ++ [j])).
    { apply Forall_app. split; [exact Hin|]. constructor; [exact Hjlt|].
      constructor. }
    destruct (over_limit (Some lim)
                (total (drawn_sizes sizes init) + nth j sizes 0%Z)) eqn:Hover.
    + apply over_limit_spec in Hover.
      eexists. eexists. eexists. split; [reflexivity|].
      exists init, j. split; [exact Hall|]. split.
      { rewrite length_app, Nat2Z.inj_add. reflexivity. }
      split; [symmetry; apply total_drawn_snoc|].
      split; [exact Hover | exact Hunder].
    + assert (Hle : (inject_Z (total (drawn_sizes sizes init)
                               + nth j sizes 0%Z) <= lim)%Q).
      { unfold over_limit in Hover. apply Qlt_bool_false in Hover.
        exact Hover. }
      assert (Hfl : (total (drawn_sizes sizes init) + nth j sizes 0%Z
                     <= Qfloor lim)%Z).
      { rewrite <- (Qfloor_Z (_ + _)). apply Qfloor_resp_le. exact Hle. }
      specialize (IH (init ++ [j]) s1 Hall).
      rewrite total_drawn_snoc, length_app, Nat2Z.inj_add in IH.
      apply IH.
      * intros _. exact Hle.
      * lia.
Qed.

(** The [todo] remaining batches all end, and are synthetic batches. *)
Lemma simulate_batches_run (fuel todo : nat) (ns pts : list Z) (s : State) :
  Z.to_nat (Qfloor lim) + 1 <= fuel ->
  exists ns' pts' s',
    simulate_batches fuel samples todo sizes (Some lim) ns pts s
    = Ok ((ns ++ ns', pts ++ pts'), s')
    /\ List.length ns' = todo
    /\ Forall2 (simulated_batch samples sizes lim) ns' pts'.
Proof.
  intros Hfuel. revert ns pts s.
  induction todo as [|todo IH]; intros ns pts s; simpl.
  - exists [], [], s. rewrite !app_nil_r.
    split; [reflexivity|]. split; [reflexivity | constructor].
  - destruct (@simulate_batch_runs fuel [] s) as (n & p & s1 & Hrun & Hb).
    + constructor.
    + intros H. contradiction.
    + simpl. rewrite Z.sub_0_r. exact Hfuel.
    + simpl in Hrun. rewrite Hrun. simpl bind.
      destruct (IH (ns ++ [n]) (pts ++ [p]) s1)
        as (ns' & pts' & s' & Hrest & Hl & Hall).
      exists (n :: ns'), (p :: pts'), s'.
      rewrite Hrest, <- !app_assoc. simpl.
      split; [reflexivity|]. split; [rewrite Hl; reflexivity|].
      constructor; assumption.
Qed.

End Calibration.

Section CalibrationSound.
Context `{E : Externals}.
Variables (samples : nat) (sizes : list Z) (lim : Q).

Lemma choice_inv (s : State) (j : nat) (s' : State) :
  np_random_choice samples s = Ok (j, s') -> j < samples.
Proof.
  unfold np_random_choice. destruct samples as [|m]; [discriminate|].
  destruct (np_random_raw (rng s)) as [x g]. intros H.
  assert (Hj : j = x mod S m) by congruence.
  rewrite Hj. apply Nat.mod_upper_bound. discriminate.
Qed.

Lemma index_nth_inv (A : Type) (l : list A) (i : nat) (a d : A) :
  index l (Z.of_nat i) = Ok a -> a = nth i l d.
Proof.
  intros H. apply index_of_nat in H. symmetry.
  exact (nth_error_nth l i d H).
Qed.

(** Whatever the sizes, a synthetic batch that ends is made of draws
    accumulated until the first total above the limit. *)
Lemma simulate_batch_sound (fuel : nat) (init : list nat) (s : State)
    (n pts : Z) (s' : State) :
  Forall (fun i => i < samples) init ->
  (init <> [] -> (inject_Z (total (drawn_sizes sizes init)) <= lim)%Q) ->
  simulate_batch fuel samples sizes (Some lim)
    (Z.of_nat (List.length init)) (total (drawn_sizes sizes init)) s
  = Ok ((n, pts), s') ->
  simulated_batch samples sizes lim n pts.
Proof.
  revert init s. induction fuel as [|fuel IH]; intros init s Hin Hunder H.
  - discriminate.
  - simpl in H. bind_inv H. destruct a as [j s1].
    bind_inv H. rename a into sz.
    pose proof (choice_inv _ Hrun) as Hj.
    rewrite (index_nth_inv sizes j 0%Z Hrun0) in H.
    assert (Hall : Forall (fun i => i < samples) (init ++ [j])).
    { apply Forall_app. split; [exact Hin|]. constructor; [exact Hj|].
      constructor. }
    assert (Htot : total (drawn_sizes sizes (init ++ [j]))
                   = (total (drawn_sizes sizes init) + nth j sizes 0)%Z).
    { unfold drawn_sizes. rewrite map_app, total_app. simpl. lia. }
    destruct (Qlt_bool lim
                (inject_Z (total (drawn_sizes sizes init) + nth j sizes 0%Z)))
      eqn:Hover.
    + injection H as <- <- <-. apply Qlt_bool_iff in Hover.
      exists init, j. split; [exact Hall|]. split.
      { rewrite length_app, Nat2Z.inj_add. reflexivity. }
      split; [symmetry; exact Htot|]. split; [exact Hover | exact Hunder].
    + apply Qlt_bool_false in Hover.
      apply (IH (init ++ [j]) s1 Hall).
      * intros _. rewrite Htot. exact Hover.
      * rewrite Htot, length_app, Nat2Z.inj_add. exact H.
Qed.

Lemma simulate_batches_sound (fuel todo : nat) (ns pts : list Z) (s : State)
    (ns1 pts1 : list Z) (s' : State) :
  simulate_batches fuel samples todo sizes (Some lim) ns pts s
  = Ok ((ns1, pts1), s') ->
  exists ns' pts',
    ns1 = ns ++ ns' /\ pts1 = pts ++ pts'
    /\ List.length ns' = todo
    /\ Forall2 (simulated_batch samples sizes lim) ns' pts'.
Proof.
  revert ns pts s. induction todo as [|todo IH]; intros ns pts s H;
    simpl in H.
  - injection H as <- <- <-. exists [], []. rewrite !app_nil_r.
    repeat split; constructor.
  - bind_inv H. destruct a as [[n p] s1].
    assert (Hb : simulated_batch samples sizes lim n p).
    { apply (@simulate_batch_sound fuel [] s n p s1).
      - constructor.
      - intros Hne. contradiction.
      - exact Hrun. }
    destruct (IH _ _ _ H) as (ns' & pts' & -> & -> & Hl & Hall).
    exists (n :: ns'), (p :: pts'). rewrite <- !app_assoc. simpl.
    split; [reflexivity|]. split; [reflexivity|].
    split; [rewrite Hl; reflexivity|]. constructor; assumption.
Qed.

End CalibrationSound.

Section CalibrationRun.
Context `{E : Externals}.
Variables (cfg : Config) (scenes : Scenes).

Lemma collect_cloud_n_unfold (sfuel fuel samples : nat) (acc : list Z)
    (s : State) :
  collect_cloud_n cfg scenes sfuel fuel samples acc s
  = if Nat.ltb (List.length acc) samples then
      match fuel with
      | O => Diverge
      | S fuel' =>
          '(c, s1) <- sample_input_center cfg scenes sfuel (5 # 100) s ;;
          match c with
          | NoneNone => Ok (acc, s1)
          | Pair cloud_ind center_p =>
              r <- get_input_area cfg scenes cloud_ind center_p ;;
              if Nat.ltb 0 (shape0 r) then
                if squeezed r then Raise "IndexError"
                else
                  let '((in_points, _, _), g) :=
                    calib_augment (input_points r) (region_features r)
                                  (region_labels r) (rng s1) in
                  let n :=
                    if wants_subsampling cfg
                    then List.length
                           (subsample_pack_batch in_points (in_sub_size cfg))
                    else List.length in_points in
                  collect_cloud_n cfg scenes sfuel fuel' samples
                    (acc ++ [Z.of_nat n]) (with_rng s1 g)
              else collect_cloud_n cfg scenes sfuel fuel' samples acc s1
          end
      end
    else Ok (acc, s).
Proof. destruct fuel; reflexivity. Qed.

(** The sizes recorded by the first loop are measured region sizes. *)
Lemma collect_cloud_n_measured (sfuel fuel samples : nat) (acc : list Z)
    (s : State) (sizes : list Z) (s1 : State) :
  collect_cloud_n cfg scenes sfuel fuel samples acc s = Ok (sizes, s1) ->
  exists new, sizes = acc ++ new /\ Forall (measured_size cfg) new.
Proof.
  revert acc s. induction fuel as [|fuel IH]; intros acc s H;
    rewrite collect_cloud_n_unfold in H;
    destruct (Nat.ltb (List.length acc) samples);
    try discriminate;
    try (injection H as <- <-; exists []; rewrite app_nil_r;
         split; [reflexivity | constructor]).
  bind_inv H. destruct a as [c s0]. destruct c as [|cloud_ind center_p].
  - injection H as <- <-. exists []. rewrite app_nil_r.
    split; [reflexivity | constructor].
  - bind_inv H. rename a into r.
    destruct (Nat.ltb_spec 0 (shape0 r)) as [Hr | Hr].
    + destruct (squeezed r); [discriminate|].
      destruct (calib_augment (input_points r) (region_features r)
                  (region_labels r) (rng s0)) as [[[ip f] l] g] eqn:Haug.
      destruct (IH _ _ H) as (new & Hnew & Hall).
      eexists. split; [rewrite Hnew, <- app_assoc; reflexivity|].
      constructor; [|exact Hall].
      exists r, (rng s0). split; [exact Hr|]. rewrite Haug. reflexivity.
    + exact (IH _ _ H).
Qed.

End CalibrationRun.

(** C8. When the first loop has recorded [samples] region sizes, each of
    them the point count of a non-empty region after augmentation and
    the optional subsampling, a call that returns has set the budget to
    exactly their mean times the target batch size, minus 1, and has
    checked it on [samples] synthetic batches, each made of draws with
    replacement among the recorded sizes, accumulated until the total
    strictly exceeds the new budget.  With sizes of at least one point
    the call does return, given fuel for the longest batch. *)
Theorem calib_batch_limit_mean_and_check `{E : Externals}
    (cfg : Config) (scenes : Scenes) (sfuel fuel : nat) (batch_size : Q)
    (samples : nat) (s : State) (sizes : list Z) (s1 : State) :
  1 <= samples ->
  collect_cloud_n cfg scenes sfuel fuel samples [] s = Ok (sizes, s1) ->
  List.length sizes = samples ->
  let lim :=
    (inject_Z (total sizes) / inject_Z (Z.of_nat samples) * batch_size - 1)%Q
  in
  Forall (measured_size cfg) sizes
  /\ (forall cal s2,
        calib_batch_limit cfg scenes sfuel fuel batch_size samples s
        = Ok (cal, s2) ->
        all_cloud_n cal = sizes
        /\ new_b_lim cal = Some lim
        /\ List.length (all_batch_n cal) = samples
        /\ Forall2 (simulated_batch samples sizes lim)
                   (all_batch_n cal) (all_batch_n_pts cal))
  /\ (Forall (fun n => (1 <= n)%Z) sizes ->
      Z.to_nat (Qfloor lim) + 1 <= fuel ->
      exists cal s2,
        calib_batch_limit cfg scenes sfuel fuel batch_size samples s
        = Ok (cal, s2)).
Proof.
  intros Hs Hcollect Hlen lim.
  assert (Hmean : np_mean sizes
                  = Some (inject_Z (total sizes)
                          / inject_Z (Z.of_nat samples))%Q).
  { unfold np_mean. destruct sizes as [|x l]; [simpl in Hlen; lia|].
    rewrite Hlen. reflexivity. }
  split; [|split].
  - destruct (collect_cloud_n_measured cfg scenes sfuel fuel samples [] s
                Hcollect) as (new & Hnew & Hm).
    simpl in Hnew. subst new. exact Hm.
  - intros cal s2 Hrun. unfold calib_batch_limit in Hrun.
    rewrite Hcollect in Hrun. cbn [bind] in Hrun.
    rewrite Hmean in Hrun. fold lim in Hrun.
    bind_inv Hrun. destruct a as [[ns pts] s3]. injection Hrun as <- <-.
    destruct (@simulate_batches_sound E samples sizes lim fuel samples [] []
                s1 ns pts s3 Hrun0)
      as (ns' & pts' & -> & -> & Hl & Hall).
    simpl. repeat split; assumption.
  - intros Hpos Hfuel. unfold calib_batch_limit.
    rewrite Hcollect. cbn [bind]. rewrite Hmean. fold lim.
    destruct (@simulate_batches_run E samples sizes lim Hs Hlen Hpos fuel
                samples [] [] s1 Hfuel)
      as (ns & pts & s2 & Hrun & _).
    rewrite Hrun. cbn [bind]. eexists. eexists. reflexivity.
Qed.

Lemma calib_batch_limit_mean_and_check_witness :
  exists cal s2,
    calib_batch_limit (RandomData.cfg "random") RandomData.scenes 0 3 2 2
      CalibData.start
    = Ok (cal, s2)
    /\ all_cloud_n cal = [2; 1]%Z
    /\ new_b_lim cal = Some (inject_Z 3 / inject_Z 2 * 2 - 1)%Q
    /\ List.length (all_batch_n cal) = 2.
Proof.
  assert (Hc : { s1 | collect_cloud_n (RandomData.cfg "random")
                        RandomData.scenes 0 3 2 [] CalibData.start
                      = Ok ([2; 1]%Z, s1) }).
  { eexists. vm_compute. reflexivity. }
  destruct Hc as [s1 Hc].
  destruct (@calib_batch_limit_mean_and_check Ref.externals
              (RandomData.cfg "random") RandomData.scenes 0 3 2 2
              CalibData.start [2; 1]%Z s1 (le_S _ _ (le_n 1)) Hc eq_refl)
    as (_ & Hvalue & Hreturns).
  destruct Hreturns as (cal & s2 & Hrun).
  - repeat constructor; discriminate.
  - vm_compute. lia.
  - destruct (Hvalue cal s2 Hrun) as (Hsizes & Hlim & Hn & _).
    exists cal, s2. repeat split; assumption.
Defined.

Section IdentityLabels.
Context `{E : Externals}.

Lemma in_enum_from (A : Type) (l : list A) (i : nat) (x : A) :
  In (i, x) (enum_from l) -> nth_error l i = Some x.
Proof.
  intros H. apply in_combine_seq in H. destruct H as [_ H].
  rewrite Nat.sub_0_r in H. exact H.
Qed.

(** An entry of the table of a label points to a point of that label. *)
Lemma label_table_entry (label : Z) (all_labels : list Labels) (c p : Z) :
  In (c, p)
     (flat_map (fun cl => label_inds_of label (fst cl) (snd cl))
               (enum_from all_labels)) ->
  exists ci ls,
    c = Z.of_nat ci /\ nth_error all_labels ci = Some ls /\ In label ls.
Proof.
  intros H. apply in_flat_map in H. destruct H as ([ci ls] & Hcl & Hin).
  simpl in Hin. unfold label_inds_of in Hin. apply in_map_iff in Hin.
  destruct Hin as ([pj l] & Heq & Hf). simpl in Heq.
  injection Heq as <- <-. apply filter_In in Hf. destruct Hf as [Hpj Hl].
  simpl in Hl. apply Z.eqb_eq in Hl. subst l.
  exists ci, ls. split; [reflexivity|].
  split; [exact (in_enum_from _ _ _ Hcl)|].
  apply in_enum_from in Hpj. exact (nth_error_In _ _ Hpj).
Qed.

(** When every label value is its own index, the class-balanced policy
    never returns a centre from a scene made of ignored labels only. *)
Lemma c_random_avoids_ignored_scene (cfg : Config) (sc0 scenes : Scenes)
    (sfuel : nat) (noise : Q) (s : State) (c : Z) (p : Point) (s' : State)
    (j : nat) (labels_j : Labels) :
  data_sampler cfg = "c-random" ->
  label_indices sc0 = [] ->
  prepare_label_inds cfg sc0 = Ok scenes ->
  (forall i, i < List.length (label_values cfg) ->
             nth i (label_values cfg) 0%Z = Z.of_nat i) ->
  nth_error (input_labels sc0) j = Some labels_j ->
  Forall (fun l => mem l (ignored_labels cfg) = true) labels_j ->
  sample_input_center cfg scenes sfuel noise s = Ok (Pair c p, s') ->
  c <> Z.of_nat j.
Proof.
  intros Hsampler Hempty Hprep Hid Hj Hign H Hc.
  unfold prepare_label_inds in Hprep.
  destruct (enum_from (input_labels sc0)) as [|cl0 cls] eqn:Hclouds;
    [discriminate|].
  rewrite <- Hclouds in Hprep. clear Hclouds cl0 cls.
  injection Hprep as <-.
  unfold sample_input_center in H. rewrite Hsampler in H. simpl in H.
  unfold sample_random in H. bind_inv H.
  destruct a as [[cloud_ind point_ind] s1].
  unfold choose_point in Hrun. rewrite Hsampler in Hrun. simpl in Hrun.
  bind_inv Hrun. destruct a as [rand_l0 s2].
  bind_inv Hrun. destruct a as [rand_l s3].
  bind_inv Hrun. rename a into col.
  bind_inv Hrun. destruct a as [rand_ind s4].
  bind_inv Hrun. injection Hrun as -> <-.
  apply redraw_label_not_ignored in Hrun1.
  apply index_of_nat in Hrun2. rewrite Hempty in Hrun2. simpl in Hrun2.
  apply index_of_nat in Hrun4. apply nth_error_In in Hrun4.
  assert (Hlt : rand_l < List.length (label_values cfg)).
  { rewrite <- (length_map
                  (fun label =>
                     flat_map (fun cl => label_inds_of label (fst cl) (snd cl))
                              (enum_from (input_labels sc0)))).
    apply nth_error_Some. rewrite Hrun2. discriminate. }
  rewrite nth_error_map in Hrun2.
  rewrite (nth_error_nth' _ 0%Z Hlt) in Hrun2. simpl in Hrun2.
  injection Hrun2 as <-. rewrite (Hid _ Hlt) in Hrun4.
  bind_inv H. bind_inv H. bind_inv H.
  destruct (np_random_normal _ _ _) as [nz g]. injection H as -> _ _.
  destruct (label_table_entry _ _ _ _ Hrun4) as (ci & ls & Hci & Hls & Hin).
  subst c. apply Nat2Z.inj in Hci. subst ci.
  rewrite Hls in Hj. injection Hj as ->.
  rewrite Forall_forall in Hign. rewrite (Hign _ Hin) in Hrun1.
  discriminate.
Qed.

End IdentityLabels.

(* ------------------------------------------------------------------ *)
(** ** The tables of [prepare_label_inds] *)

Section LabelTables.

Lemma nth_error_in_combine_seq (A : Type) (l : list A) (a i : nat) (x : A) :
  nth_error l i = Some x ->
  In (a + i, x) (combine (seq a (List.length l)) l).
Proof.
  revert a i. induction l as [|y l IH]; intros a i H.
  - destruct i; discriminate.
  - destruct i as [|i]; simpl in H.
    + injection H as <-. rewrite Nat.add_0_r. left. reflexivity.
    + right. rewrite <- Nat.add_succ_comm. apply IH. exact H.
Qed.

Lemma in_enum_from_iff (A : Type) (l : list A) (i : nat) (x : A) :
  In (i, x) (enum_from l) <-> nth_error l i = Some x.
Proof.
  split; [apply in_enum_from|].
  intros H. exact (nth_error_in_combine_seq l 0 i H).
Qed.

Lemma NoDup_firsts_combine_seq (A : Type) (P : nat * A -> bool)
    (l : list A) (a : nat) :
  NoDup (map fst (filter P (combine (seq a (List.length l)) l)))
  /\ Forall (fun j => a <= j)
            (map fst (filter P (combine (seq a (List.length l)) l))).
Proof.
  revert a. induction l as [|y l IH]; intros a; simpl.
  - split; constructor.
  - destruct (IH (S a)) as [Hnd Hge].
    assert (Hge' : Forall (fun j => a <= j)
                     (map fst (filter P (combine (seq (S a) (List.length l))
                                                 l)))).
    { eapply Forall_impl; [|exact Hge]. simpl. intros; lia. }
    destruct (P (a, y)); simpl; [|split; assumption].
    split.
    + constructor; [|exact Hnd]. intros Hin.
      rewrite Forall_forall in Hge. specialize (Hge _ Hin). lia.
    + constructor; [lia | exact Hge'].
Qed.

Lemma NoDup_map_injective (A B : Type) (f : A -> B) (l : list A) :
  (forall x y, f x = f y -> x = y) -> NoDup l -> NoDup (map f l).
Proof.
  intros Hinj Hnd. induction Hnd as [|x l Hx Hnd IH]; simpl.
  - constructor.
  - constructor; [|exact IH]. intros Hin. apply in_map_iff in Hin.
    destruct Hin as (y & Hy & Hyin). apply Hinj in Hy. subst y.
    contradiction.
Qed.

Lemma label_inds_of_NoDup (label : Z) (ci : nat) (ls : Labels) :
  NoDup (label_inds_of label ci ls).
Proof.
  unfold label_inds_of, enum_from.
  rewrite <- (map_map fst (fun j => (Z.of_nat ci, Z.of_nat j))).
  apply NoDup_map_injective.
  - intros x y H. injection H as H. apply Nat2Z.inj. exact H.
  - apply NoDup_firsts_combine_seq.
Qed.


(** Tables built cloud by cloud, each entry carrying its cloud index,
    have no repeated entry. *)
Lemma NoDup_flat_map_clouds (f : nat * Labels -> list (Z * Z))
    (l : list Labels) (a : nat) :
  (forall cl, NoDup (f cl)) ->
  (forall cl x, In x (f cl) -> fst x = Z.of_nat (fst cl)) ->
  NoDup (flat_map f (combine (seq a (List.length l)) l)).
Proof.
  intros Hnd Hfst. revert a. induction l as [|y l IH]; intros a; simpl.
  - constructor.
  - apply NoDup_app; [apply Hnd | apply IH|].
    intros x Hx Hin. apply in_flat_map in Hin.
    destruct Hin as ([ci ls] & Hcl & Hxin).
    apply in_combine_l in Hcl. apply in_seq in Hcl.
    apply Hfst in Hx. apply Hfst in Hxin. simpl in Hx, Hxin.
    rewrite Hx in Hxin. apply Nat2Z.inj in Hxin. lia.
Qed.

Lemma in_label_inds_of (label : Z) (ci : nat) (ls : Labels) (c p : Z) :
  In (c, p) (label_inds_of label ci ls)
  <-> c = Z.of_nat ci
      /\ exists pj, p = Z.of_nat pj /\ nth_error ls pj = Some label.
Proof.
  unfold label_inds_of. rewrite in_map_iff. split.
  - intros ([pj l] & Heq & Hin). simpl in Heq. injection Heq as <- <-.
    apply filter_In in Hin. destruct Hin as [Hin Hl]. simpl in Hl.
    apply Z.eqb_eq in Hl. subst l. apply in_enum_from in Hin.
    split; [reflexivity|]. exists pj. split; [reflexivity | exact Hin].
  - intros (-> & pj & -> & Hn). exists (pj, label).
    split; [reflexivity|]. apply filter_In. split.
    + apply in_enum_from_iff. exact Hn.
    + simpl. apply Z.eqb_refl.
Qed.



(** X2. [prepare_label_inds] keeps the tables already present and
    appends one table per entry of [label_values]: the table of the
    [i]-th label value holds, each exactly once, the points carrying
    that label value, and no other. *)
Theorem prepare_label_inds_tables (cfg : Config) (sc sc' : Scenes)
    (i : nat) (label : Z) :
  prepare_label_inds cfg sc = Ok sc' ->
  nth_error (label_values cfg) i = Some label ->
  List.length (label_indices sc')
  = List.length (label_indices sc) + List.length (label_values cfg)
  /\ firstn (List.length (label_indices sc)) (label_indices sc')
     = label_indices sc
  /\ exists table,
       nth_error (label_indices sc') (List.length (label_indices sc) + i)
       = Some table
       /\ NoDup table
       /\ forall c p,
            In (c, p) table
            <-> exists ci pj ls,
                  c = Z.of_nat ci /\ p = Z.of_nat pj
                  /\ nth_error (input_labels sc) ci = Some ls
                  /\ nth_error ls pj = Some label.
Proof.
  unfold prepare_label_inds. intros H Hlabel.
  destruct (enum_from (input_labels sc)) as [|cl0 cls] eqn:Hclouds;
    [discriminate|].
  rewrite <- Hclouds in H. clear Hclouds cl0 cls. injection H as <-. simpl.
  split; [rewrite length_app, length_map; reflexivity|].
  split; [rewrite firstn_app, Nat.sub_diag, firstn_all; simpl;
          apply app_nil_r|].
  eexists. split.
  - rewrite nth_error_app2 by lia.
    replace (List.length (label_indices sc) + i
             - List.length (label_indices sc)) with i by lia.
    rewrite nth_error_map, Hlabel. reflexivity.
  - split.
    + apply NoDup_flat_map_clouds.
      * intros [ci ls]. apply label_inds_of_NoDup.
      * intros [ci ls] [c p] Hin. apply in_label_inds_of in Hin.
        simpl. tauto.
    + intros c p. rewrite in_flat_map. split.
      * intros ([ci ls] & Hcl & Hin). apply in_enum_from in Hcl.
        apply in_label_inds_of in Hin. destruct Hin as (-> & pj & -> & Hn).
        exists ci, pj, ls. repeat split; assumption.
      * intros (ci & pj & ls & -> & -> & Hls & Hn). exists (ci, ls).
        split; [apply in_enum_from_iff; exact Hls|].
        apply in_label_inds_of. split; [reflexivity|]. exists pj.
        split; [reflexivity | exact Hn].
Qed.

End LabelTables.


Lemma prepare_label_inds_tables_witness :
  exists table,
    nth_error (label_indices RandomData.scenes) 1 = Some table
    /\ NoDup table.
Proof.
  destruct (@prepare_label_inds_tables (RandomData.cfg "random")
              RegularData.scenes RandomData.scenes 1 1%Z eq_refl eq_refl)
    as (_ & _ & table & Htable & Hnd & _).
  exists table. split; assumption.
Defined.

(* ------------------------------------------------------------------ *)
(** ** Shape of the regions *)

Section RegionRows.




Context `{E : Externals}.
Variables (cfg : Config) (scenes : Scenes).


End RegionRows.




(* ------------------------------------------------------------------ *)
(** ** The scaled ball covers the cube *)

Lemma ref_radius_query_complete : @radius_query_complete Ref.externals.
Proof.
  intros data q r_sq inds H i p Hi Hd. simpl in H.
  unfold Ref.query_radius in H.
  destruct (same_width q data); [|discriminate].
  injection H as <-. apply in_map_iff. exists (i, p). split; [reflexivity|].
  apply filter_In. split.
  - exact (nth_error_in_combine_seq data 0 i Hi).
  - simpl. apply Qle_bool_iff. exact Hd.
Qed.

Section CubeCover.

Lemma sum_squares_in_cube (R : Q) (l : list (Q * Q)) :
  Forall (fun xc => (snd xc - R < fst xc /\ fst xc < snd xc + R)%Q) l ->
  (fold_right Qplus 0
     (map (fun xc => (fst xc - snd xc) * (fst xc - snd xc)) l)
   <= R * R * inject_Z (Z.of_nat (List.length l)))%Q.
Proof.
  induction 1 as [|[x c] l [Hlo Hhi] _ IH].
  - simpl. change (inject_Z 0) with 0%Q. rewrite Qmult_0_r. apply Qle_refl.
  - cbn [map fold_right List.length fst snd] in *.
    rewrite Nat2Z.inj_succ, <- Z.add_1_r, inject_Z_plus.
    assert (Hsq : ((x - c) * (x - c) <= R * R)%Q) by nra.
    change (inject_Z 1) with 1%Q.
    set (rest := fold_right Qplus 0%Q
                   (map (fun xc => (fst xc - snd xc) * (fst xc - snd xc))%Q l))
      in *.
    set (n := inject_Z (Z.of_nat (List.length l))) in *.
    setoid_replace (R * R * (n + 1))%Q with (R * R + R * R * n)%Q by ring.
    apply Qplus_le_compat; [exact Hsq | exact IH].
Qed.

Lemma inside_cube_dist_sq (q : Point) (R : Q) (p : Point) :
  inside_cube q R p ->
  (dist_sq q p <= R * R * inject_Z (Z.of_nat (List.length q)))%Q.
Proof.
  intros [Hlen Hall]. unfold dist_sq.
  pose proof (sum_squares_in_cube Hall) as H.
  rewrite length_combine, Hlen, Nat.min_id in H. exact H.
Qed.

Lemma inside_cube_in_cube (q : Point) (R : Q) (p : Point) :
  inside_cube q R p -> in_cube q R p = true.
Proof.
  intros [_ Hall]. unfold in_cube. rewrite Forall_forall in Hall.
  apply andb_true_iff. split; apply forallb_forall; intros xc Hxc;
    apply Qlt_bool_iff; apply (Hall xc Hxc).
Qed.

Lemma Forall2_in_combine (A B : Type) (R : A -> B -> Prop)
    (l1 : list A) (l2 : list B) (x : A) (y : B) :
  Forall2 R l1 l2 -> In (x, y) (combine l1 l2) -> R x y.
Proof.
  induction 1 as [|u v l1 l2 Huv _ IH]; simpl; [contradiction|].
  intros [H | H]; [injection H as <- <-; exact Huv | exact (IH H)].
Qed.

Lemma Forall2_in_left (A B : Type) (R : A -> B -> Prop)
    (l1 : list A) (l2 : list B) (x : A) :
  Forall2 R l1 l2 -> In x l1 -> exists y, In (x, y) (combine l1 l2).
Proof.
  induction 1 as [|u v l1 l2 Huv _ IH]; simpl; [contradiction|].
  intros [<- | H].
  - exists v. left. reflexivity.
  - destruct (IH H) as [y Hy]. exists y. right. exact Hy.
Qed.

End CubeCover.

(** X4. Cube regions of the radius regime are exact: with a ball query
    that returns all the stored points within the radius, and a query
    point of [dim] coordinates ([dim - 1] in cylindrical mode), the
    indices returned are those of all the points of the scene lying
    strictly inside the cube of half-width [in_radius], and of no other:
    the ball of radius [in_radius * sqrt(dim)] leaves out no point of the
    cube. *)
Theorem cube_region_exact `{E : Externals} (cfg : Config) (scenes : Scenes)
    (cloud_ind : Z) (center_point : Point) (r : Region) (data : Points) :
  radius_query_complete ->
  use_cubes cfg = true -> (0 <= in_radius cfg)%Q ->
  Z.of_nat (List.length (q_point_of cfg center_point))
  = (if cylindric_input cfg then Z.of_nat (dim cfg) - 1
     else Z.of_nat (dim cfg))%Z ->
  index (input_trees scenes) cloud_ind = Ok data ->
  get_input_area cfg scenes cloud_ind center_point = Ok r ->
  forall i,
    In i (input_inds r)
    <-> exists p,
          nth_error data i = Some p
          /\ inside_cube (q_point_of cfg center_point) (in_radius cfg) p.
Proof.
  intros Hcomplete Hcube Hrad Hdim Hdata Hr i.
  destruct (get_input_area_inds cfg scenes cloud_ind center_point Hr)
    as (pts & Hinds & _).
  unfold get_input_inds in Hinds.
  apply Qlt_bool_false in Hrad. rewrite Hrad, Hdata in Hinds.
  cbn [bind] in Hinds. bind_inv Hinds. rename a into inds0.
  bind_inv Hinds. rename a into pts0. rewrite Hcube in Hinds.
  destruct (same_width (q_point_of cfg center_point) pts0) eqn:Hw;
    [|discriminate].
  injection Hinds as Hi _ _. rewrite <- Hi.
  pose proof (take_rows _ _ Hrun0) as Hrows.
  set (q := q_point_of cfg center_point) in *.
  split.
  - intros Hin. apply in_map_iff in Hin. destruct Hin as ([j p] & Hj & Hin).
    simpl in Hj. subst j. apply filter_In in Hin. destruct Hin as [Hin Hc].
    simpl in Hc. exists p. split.
    + exact (Forall2_in_combine _ _ Hrows Hin).
    + apply in_cube_inside; [|exact Hc].
      unfold same_width in Hw. rewrite forallb_forall in Hw.
      apply Nat.eqb_eq. apply Hw. exact (in_combine_r _ _ _ _ Hin).
  - intros (p & Hp & Hcubep).
    assert (Hd : (dist_sq q p <= query_radius_sq cfg)%Q).
    { pose proof (inside_cube_dist_sq Hcubep) as Hd.
      unfold query_radius_sq. rewrite Hcube.
      destruct (cylindric_input cfg); rewrite <- Hdim; exact Hd. }
    pose proof (Hcomplete _ _ _ _ Hrun i p Hp Hd) as Hin0.
    destruct (Forall2_in_left i Hrows Hin0) as [p' Hin].
    pose proof (Forall2_in_combine _ _ Hrows Hin) as Hp'.
    simpl in Hp'. rewrite Hp in Hp'. injection Hp' as <-.
    apply in_map_iff. exists (i, p). split; [reflexivity|].
    apply filter_In. split; [exact Hin|].
    simpl. apply inside_cube_in_cube. exact Hcubep.
Qed.

Lemma cube_region_exact_witness :
  exists r,
    @get_input_area Ref.externals (ShapeData.cfg true) ShapeData.scenes2d 0
      [0; 0; 7]%Q = Ok r
    /\ forall i,
         In i (input_inds r)
         <-> exists p,
               nth_error [[0; 0]; [1 # 2; 0]; [3; 0]; [9 # 10; 1]]%Q i
               = Some p
               /\ inside_cube [0; 0]%Q 1 p.
Proof.
  assert (Hr : { r | @get_input_area Ref.externals (ShapeData.cfg true)
                       ShapeData.scenes2d 0 [0; 0; 7]%Q = Ok r }).
  { eexists. vm_compute. reflexivity. }
  destruct Hr as [r Hr]. exists r. split; [exact Hr|].
  apply (@cube_region_exact Ref.externals (ShapeData.cfg true)
           ShapeData.scenes2d 0 [0; 0; 7]%Q r _ ref_radius_query_complete
           eq_refl); try reflexivity; try exact Hr.
  discriminate.
Defined.

(* ------------------------------------------------------------------ *)
(** ** Size of fixed-count sphere regions *)

(** X5. Fixed-count regime with spheres, [in_radius = -k]: a region
    holds [min(k, N)] distinct points of a scene of [N] points, for any
    nearest-neighbour query that meets its contract. *)
Theorem fixed_count_sphere_size `{E : Externals} (cfg : Config)
    (scenes : Scenes) (k : nat) (cloud_ind : Z) (center_point : Point)
    (r : Region) (data : Points) :
  knn_query_sound ->
  (in_radius cfg == inject_Z (- Z.of_nat k))%Q -> 1 <= k ->
  use_cubes cfg = false ->
  index (input_trees scenes) cloud_ind = Ok data ->
  get_input_area cfg scenes cloud_ind center_point = Ok r ->
  List.length (input_inds r) = Nat.min k (List.length data)
  /\ NoDup (input_inds r).
Proof.
  intros Hknn Hradius Hk Hcube Hdata Hr.
  destruct (get_input_area_inds cfg scenes cloud_ind center_point Hr)
    as (pts & Hinds & _).
  destruct (Nat.le_gt_cases (List.length data) k) as [Hsmall | Hbig].
  - rewrite (fixed_count_sphere_all cfg scenes Hradius Hk cloud_ind
               center_point Hcube Hdata Hsmall) in Hinds.
    injection Hinds as <- _ _. rewrite length_seq.
    split; [lia | apply seq_NoDup].
  - unfold get_input_inds in Hinds.
    rewrite (fixed_count_regime cfg Hradius Hk), Hdata in Hinds.
    cbn [bind] in Hinds. unfold fixed_count_candidates in Hinds.
    rewrite Hcube in Hinds.
    rewrite (Qlt_bool_compat (@minus_radius cfg k Hradius) (Qeq_refl _)),
      Qlt_bool_inject in Hinds.
    destruct (Z.ltb_spec (Z.of_nat k) (Z.of_nat (List.length data)));
      [|lia].
    rewrite (as_int_inject (@minus_radius cfg k Hradius)) in Hinds.
    cbn [bind] in Hinds. rewrite Nat2Z.id in Hinds.
    bind_inv Hinds. destruct a as [inds sq].
    bind_inv Hrun. injection Hrun as <- <-.
    bind_inv Hinds. injection Hinds as <- _ _.
    destruct (Hknn _ _ _ _ Hrun0) as (Hlen & Hnd & _).
    split; [lia | exact Hnd].
Qed.

Lemma fixed_count_sphere_size_witness :
  exists r,
    @get_input_area Ref.externals (FixedCountData.cfg false)
      FixedCountData.scenes 0 [0; 0; 0]%Q = Ok r
    /\ List.length (input_inds r) = 2.
Proof.
  assert (Hr : { r | @get_input_area Ref.externals (FixedCountData.cfg false)
                       FixedCountData.scenes 0 [0; 0; 0]%Q = Ok r }).
  { eexists. vm_compute. reflexivity. }
  destruct Hr as [r Hr]. exists r. split; [exact Hr|].
  destruct (@fixed_count_sphere_size Ref.externals (FixedCountData.cfg false)
              FixedCountData.scenes 2 0 [0; 0; 0]%Q r _ ref_knn_query_sound
              (Qeq_refl _) (le_S _ _ (le_n 1)) eq_refl eq_refl Hr)
    as [Hlen _].
  exact Hlen.
Defined.

(* ------------------------------------------------------------------ *)
(** ** What a call of the sampler does to the shared state *)

Section SamplerState.
Context `{E : Externals}.
Variables (cfg : Config) (scenes : Scenes).

Lemma same_sampling_state_refl (s : State) : same_sampling_state s s.
Proof. repeat split. Qed.

Lemma same_sampling_state_trans (s1 s2 s3 : State) :
  same_sampling_state s1 s2 -> same_sampling_state s2 s3 ->
  same_sampling_state s1 s3.
Proof.
  intros (a1 & a2 & a3 & a4 & a5) (b1 & b2 & b3 & b4 & b5).
  repeat split; congruence.
Qed.

Lemma np_random_choice_frame (n : nat) (s : State) (x : nat) (s' : State) :
  np_random_choice n s = Ok (x, s') -> same_sampling_state s s'.
Proof.
  unfold np_random_choice. destruct n; [discriminate|].
  destruct (np_random_raw (rng s)) as [y g]. intros H.
  assert (Hs : s' = with_rng s g) by congruence.
  rewrite Hs. repeat split.
Qed.

Lemma redraw_label_frame (fuel rand_l0 : nat) (s : State) (rand_l : nat)
    (s' : State) :
  redraw_label cfg fuel rand_l0 s = Ok (rand_l, s') ->
  same_sampling_state s s'.
Proof.
  revert rand_l0 s. induction fuel as [|fuel IH]; intros rand_l0 s H;
    simpl in H;
    destruct (mem (Z.of_nat rand_l0) (ignored_labels cfg));
    try discriminate;
    try (injection H as _ <-; apply same_sampling_state_refl).
  bind_inv H. destruct a as [x s1].
  apply np_random_choice_frame in Hrun.
  exact (same_sampling_state_trans Hrun (IH _ _ H)).
Qed.

Lemma choose_point_frame (fuel : nat) (s : State) (cp : Z * Z) (s' : State) :
  choose_point cfg scenes fuel s = Ok (cp, s') -> same_sampling_state s s'.
Proof.
  unfold choose_point. intros H.
  destruct (String.eqb (data_sampler cfg) "c-random").
  - bind_inv H. destruct a as [l0 s1]. bind_inv H. destruct a as [l s2].
    bind_inv H. bind_inv H. destruct a0 as [x s3]. bind_inv H.
    injection H as _ <-.
    apply np_random_choice_frame in Hrun, Hrun2.
    apply redraw_label_frame in Hrun0.
    exact (same_sampling_state_trans Hrun
             (same_sampling_state_trans Hrun0 Hrun2)).
  - destruct (String.eqb (data_sampler cfg) "A-random").
    + bind_inv H. destruct a as [c s1]. bind_inv H. bind_inv H.
      destruct a0 as [p s2]. injection H as _ <-.
      apply np_random_choice_frame in Hrun, Hrun1.
      exact (same_sampling_state_trans Hrun Hrun1).
    + destruct (all_inds scenes); [|discriminate].
      bind_inv H. destruct a as [x s1]. bind_inv H. injection H as _ <-.
      exact (np_random_choice_frame _ _ Hrun).
Qed.

Lemma sample_random_frame (sfuel : nat) (noise : Q)
    (s : State) (c : Center) (s' : State) :
  sample_random cfg scenes sfuel noise s = Ok (c, s') ->
  same_sampling_state s s'
  /\ exists cloud_ind p data,
       c = Pair cloud_ind p
       /\ index (input_trees scenes) cloud_ind = Ok data.
Proof.
  intros H. unfold sample_random in H. bind_inv H.
  destruct a as [[cloud_ind point_ind] s1].
  bind_inv H. rename a into data. bind_inv H. bind_inv H.
  destruct (np_random_normal _ _ _) as [nz g]. injection H as <- <-.
  split.
  - apply (same_sampling_state_trans (choose_point_frame _ _ Hrun)).
    repeat split.
  - exists cloud_ind, (add_noise a0 nz), data.
    split; [reflexivity | exact Hrun0].
Qed.

Lemma sample_input_center_random (sfuel : nat) (noise : Q)
    (s : State) (c : Center) (s' : State) :
  data_sampler cfg <> "regular" ->
  sample_input_center cfg scenes sfuel noise s = Ok (c, s') ->
  sample_random cfg scenes sfuel noise s = Ok (c, s').
Proof.
  intros Hreg H. unfold sample_input_center in H.
  destruct (String.eqb_spec (data_sampler cfg) "regular") as [e|_];
    [contradiction|].
  destruct (contains "random" (data_sampler cfg)); [exact H | discriminate].
Qed.


(** The three ways a call of the regular policy can return. *)
Lemma sample_regular_cases (s : State) (c : Center) (s' : State) :
  sample_regular cfg scenes s = Ok (c, s') ->
  exists pts,
    reg_sample_pts s = Some pts
    /\ (((reg_sampling_i s < Z.of_nat (List.length pts))%Z
         /\ s' = with_cursor s (wrap64 (reg_sampling_i s + 1))
         /\ exists cloud_ind p,
              c = Pair cloud_ind p
              /\ index pts (reg_sampling_i s) = Ok p)
        \/ ((Z.of_nat (List.length pts) <= reg_sampling_i s)%Z
            /\ set_ cfg <> "validation" /\ c = NoneNone /\ s' = s)
        \/ ((Z.of_nat (List.length pts) <= reg_sampling_i s)%Z
            /\ set_ cfg = "validation"
            /\ (0 <= in_radius cfg)%Q
            /\ exists pts2 clouds2 g p0 c0,
                 grid_queue cfg (input_trees scenes) (rng s)
                 = ((pts2, clouds2), g)
                 /\ index pts2 0 = Ok p0 /\ index clouds2 0 = Ok c0
                 /\ c = Pair c0 p0
                 /\ s' = {| reg_sampling_i := wrap64 (wrap64 0 + 1);
                            reg_votes := wrap64 (reg_votes s + 1);
                            reg_sample_pts := Some pts2;
                            reg_sample_clouds := Some clouds2;
                            rng := g; slept := slept s |})).
Proof.
  unfold sample_regular. intros H.
  destruct (reg_sample_pts s) as [pts|] eqn:Hpts; [|discriminate].
  exists pts. split; [reflexivity|].
  destruct (Z.geb_spec (reg_sampling_i s) (Z.of_nat (List.length pts)))
    as [Hge | Hlt].
  - destruct (String.eqb_spec (set_ cfg) "validation") as [Hval | Hval].
    + right. right. split; [lia|]. split; [exact Hval|].
      bind_inv H. bind_inv Hrun. destruct a0 as [u s1].
      unfold new_reg_sampling_pts in Hrun0.
      destruct (Qlt_bool (in_radius cfg) 0) eqn:Hrad; [discriminate|].
      apply Qlt_bool_false in Hrad. split; [exact Hrad|].
      simpl in Hrun0.
      destruct (grid_queue cfg (input_trees scenes) (rng s))
        as [[pts2 clouds2] g] eqn:Hgrid.
      injection Hrun0 as _ <-. injection Hrun as <-. simpl in H.
      bind_inv H. bind_inv H. injection H as <- <-.
      rewrite Z.mul_0_r in *.
      change (wrap64 0) with 0%Z in *.
      exists pts2, clouds2, g, a0, a. repeat split; assumption.
    + right. left. simpl in H. injection H as <- <-.
      repeat split; [lia | exact Hval].
  - left. split; [exact Hlt|]. simpl in H.
    destruct (reg_sample_clouds s); [|discriminate].
    rewrite Hpts in H. bind_inv H. bind_inv H. injection H as <- <-.
    split; [reflexivity|]. exists a, a0. split; [reflexivity | exact Hrun0].
Qed.

Lemma index_in_range (A : Type) (l : list A) (i : Z) (a : A) :
  (0 <= i)%Z -> index l i = Ok a -> (i < Z.of_nat (List.length l))%Z.
Proof.
  intros Hi H. unfold index in H.
  destruct (Z.ltb_spec i 0); [lia|].
  destruct (Z.ltb_spec i 0); [lia|].
  destruct (nth_error l (Z.to_nat i)) eqn:Hn; [|discriminate].
  assert (Z.to_nat i < List.length l)
    by (apply nth_error_Some; rewrite Hn; discriminate).
  lia.
Qed.

(** X7. The cursor never leaves the queue: if it is between 0 and the
    length of the queue before a call of [sample_input_center] that
    returns, it is so after the call, whatever the policy and the role,
    also when the call has replaced the queue. *)
Theorem cursor_stays_in_queue (sfuel : nat) (noise : Q)
    (s : State) (c : Center) (s' : State) :
  cursor_in_queue s -> queue_fits s ->
  sample_input_center cfg scenes sfuel noise s = Ok (c, s') ->
  cursor_in_queue s'.
Proof.
  intros (pts & Hpts & Hcur) Hfits H.
  destruct (String.eqb_spec (data_sampler cfg) "regular") as [Hreg | Hreg].
  - rewrite (sample_input_center_regular cfg scenes Hreg) in H.
    destruct (sample_regular_cases _ H) as (pts' & Hpts' & Hcases).
    rewrite Hpts in Hpts'. injection Hpts' as <-.
    specialize (Hfits pts Hpts).
    destruct Hcases as [(Hlt & -> & _) | [(_ & _ & _ & ->) | Hregen]].
    + exists pts. split; [exact Hpts|]. simpl.
      rewrite wrap64_small by lia. lia.
    + exists pts. split; assumption.
    + destruct Hregen as (_ & _ & _ & pts2 & clouds2 & g & p0 & c0
                          & _ & Hp0 & _ & _ & ->).
      exists pts2. split; [reflexivity|].
      apply index_in_range in Hp0; [|lia].
      cbn [reg_sampling_i]. change (wrap64 (wrap64 0 + 1)) with 1%Z.
      clear - Hp0. lia.
  - apply (sample_input_center_random _ _ _ Hreg) in H.
    destruct (sample_random_frame _ _ _ H) as ((Hi & _ & Hq & _) & _).
    exists pts. rewrite Hq, Hi. split; assumption.
Qed.

End SamplerState.


Lemma regular_start_in_queue :
  @cursor_in_queue Ref.externals RegularData.start
  /\ @queue_fits Ref.externals RegularData.start.
Proof.
  split.
  - eexists. split; [reflexivity|]. simpl. lia.
  - intros pts H. injection H as <-. reflexivity.
Qed.

Lemma cursor_stays_in_queue_witness :
  exists c s',
    @sample_input_center Ref.externals (RegularData.cfg "test" 100)
      RegularData.scenes 1 (5 # 100) RegularData.start = Ok (c, s')
    /\ @cursor_in_queue Ref.externals s'.
Proof.
  assert (Hr : { cs | @sample_input_center Ref.externals
                        (RegularData.cfg "test" 100) RegularData.scenes 1
                        (5 # 100) RegularData.start = Ok cs }).
  { eexists. vm_compute. reflexivity. }
  destruct Hr as [[c s'] Hr]. exists c, s'. split; [exact Hr|].
  exact (@cursor_stays_in_queue Ref.externals (RegularData.cfg "test" 100)
           RegularData.scenes 1 (5 # 100) RegularData.start c s'
           (proj1 regular_start_in_queue) (proj2 regular_start_in_queue) Hr).
Defined.

(* ------------------------------------------------------------------ *)
(** ** Progress of the sweep *)

Section Votes.
Context `{E : Externals}.
Variables (cfg : Config) (scenes : Scenes).

Lemma get_votes_regular (s : State) (pts : Points) :
  data_sampler cfg = "regular" ->
  reg_sample_pts s = Some pts ->
  pts <> [] ->
  get_votes cfg s
  = Ok (inject_Z (reg_votes s)
        + inject_Z (reg_sampling_i s)
          / inject_Z (Z.of_nat (List.length pts)))%Q.
Proof.
  intros Hreg Hpts Hne. unfold get_votes. rewrite Hreg, Hpts. simpl.
  destruct (Qeq_bool (inject_Z (Z.of_nat (List.length pts))) 0) eqn:Hz;
    [|reflexivity].
  apply Qeq_bool_iff in Hz. unfold Qeq in Hz. simpl in Hz.
  destruct pts; [contradiction | simpl in Hz; lia].
Qed.

Lemma get_votes_inv (s : State) (v : Q) :
  data_sampler cfg = "regular" ->
  get_votes cfg s = Ok v ->
  exists pts, reg_sample_pts s = Some pts /\ pts <> [].
Proof.
  intros Hreg H. unfold get_votes in H. rewrite Hreg in H. simpl in H.
  destruct (reg_sample_pts s) as [pts|]; [|discriminate].
  exists pts. split; [reflexivity|]. intros ->. discriminate.
Qed.

Lemma length_pos_Q (A : Type) (l : list A) :
  l <> [] -> (0 < inject_Z (Z.of_nat (List.length l)))%Q.
Proof.
  intros Hne. unfold Qlt. simpl. destruct l; [contradiction | simpl; lia].
Qed.

Lemma fraction_step (i : Z) (n : Q) :
  (0 < n)%Q -> (inject_Z i / n < inject_Z (i + 1) / n)%Q.
Proof.
  intros Hn. unfold Qdiv. rewrite inject_Z_plus.
  pose proof (Qinv_lt_0_compat n Hn) as Hx.
  setoid_replace ((inject_Z i + inject_Z 1) * / n)%Q
    with (inject_Z i * / n + / n)%Q by ring.
  rewrite <- (Qplus_0_r (inject_Z i * / n)) at 1.
  apply Qplus_lt_r. exact Hx.
Qed.

Lemma fraction_range (i n : Z) :
  (0 <= i <= n)%Z -> (0 < n)%Z ->
  (0 <= inject_Z i / inject_Z n <= 1)%Q.
Proof.
  intros Hi Hn.
  assert (Hq : (0 < inject_Z n)%Q) by (unfold Qlt; simpl; lia).
  pose proof (Qinv_lt_0_compat _ Hq) as Hx.
  unfold Qdiv. split.
  - apply Qmult_le_0_compat; [unfold Qle; simpl; lia | apply Qlt_le_weak, Hx].
  - setoid_replace 1%Q with (inject_Z n * / inject_Z n)%Q.
    + apply Qmult_le_compat_r; [|apply Qlt_le_weak, Hx].
      rewrite <- Zle_Qle. lia.
    + symmetry. apply Qmult_inv_r. intros Hz. rewrite Hz in Hq.
      exact (Qlt_irrefl _ Hq).
Qed.

(** X8. Regular policy.  [get_votes] lies between the vote counter and
    the vote counter plus one; a call of [sample_input_center] that
    returns a centre makes it strictly larger, also when the call
    regenerates the queue in the validation role, and a call that answers
    END leaves it as it was. *)
Theorem get_votes_progress (sfuel : nat) (noise : Q)
    (s : State) (c : Center) (s' : State) (v : Q) :
  data_sampler cfg = "regular" ->
  cursor_in_queue s -> queue_fits s ->
  (- 2 ^ 63 <= reg_votes s < 2 ^ 63 - 1)%Z ->
  get_votes cfg s = Ok v ->
  sample_input_center cfg scenes sfuel noise s = Ok (c, s') ->
  (inject_Z (reg_votes s) <= v <= inject_Z (reg_votes s) + 1)%Q
  /\ exists v',
       get_votes cfg s' = Ok v'
       /\ (is_pair c = true -> (v < v')%Q)
       /\ (c = NoneNone -> v' = v).
Proof.
  intros Hreg (pts & Hpts & Hcur) Hfits Hvotes Hv H.
  destruct (get_votes_inv _ Hreg Hv) as (pts0 & Hpts0 & Hne).
  rewrite Hpts in Hpts0. injection Hpts0 as <-.
  rewrite (get_votes_regular _ Hreg Hpts Hne) in Hv. injection Hv as <-.
  specialize (Hfits pts Hpts).
  pose proof (length_pos_Q Hne) as Hn.
  assert (HnZ : (0 < Z.of_nat (List.length pts))%Z)
    by (destruct pts; [contradiction | simpl; lia]).
  pose proof (fraction_range Hcur HnZ) as [Hf0 Hf1].
  split.
  { split.
    - rewrite <- (Qplus_0_r (inject_Z (reg_votes s))) at 1.
      apply Qplus_le_r. exact Hf0.
    - apply Qplus_le_r. exact Hf1. }
  rewrite (sample_input_center_regular cfg scenes Hreg) in H.
  destruct (@sample_regular_cases _ _ _ _ _ _ H) as (pts' & Hpts' & Hcases).
  rewrite Hpts in Hpts'. injection Hpts' as <-.
  destruct Hcases as [(Hlt & -> & ci & p & -> & _)
                     | [(_ & _ & -> & ->) | Hregen]].
  - eexists. split.
    + apply (get_votes_regular _ Hreg (pts := pts)); assumption.
    + simpl. rewrite wrap64_small by lia. split; [|discriminate].
      intros _. apply Qplus_lt_r. apply fraction_step. exact Hn.
  - eexists. split.
    + apply (get_votes_regular _ Hreg Hpts Hne).
    + split; [discriminate | reflexivity].
  - destruct Hregen as (Hge & _ & _ & pts2 & clouds2 & g & p0 & c0
                        & _ & Hp0 & _ & -> & ->).
    assert (Hne2 : pts2 <> []) by (intros ->; discriminate).
    eexists. split.
    + apply (get_votes_regular _ Hreg (pts := pts2)); [reflexivity|exact Hne2].
    + cbn [reg_votes reg_sampling_i]. split; [|discriminate]. intros _.
      rewrite (@wrap64_small (reg_votes s + 1)) by lia.
      change (wrap64 (wrap64 0 + 1)) with 1%Z.
      rewrite inject_Z_plus.
      pose proof (@fraction_step 0 _ (length_pos_Q Hne2)) as Hs.
      change (0 + 1)%Z with 1%Z in Hs.
      assert (H0 : (inject_Z 0 / inject_Z (Z.of_nat (List.length pts2))
                    == 0)%Q) by (unfold Qdiv; apply Qmult_0_l).
      rewrite H0 in Hs. clear H0.
      set (a := (inject_Z 1 / inject_Z (Z.of_nat (List.length pts2)))%Q) in *.
      set (b := (inject_Z (reg_sampling_i s)
                 / inject_Z (Z.of_nat (List.length pts)))%Q) in *.
      change (inject_Z 1) with 1%Q. lra.
Qed.

End Votes.

Lemma get_votes_progress_witness :
  exists v v',
    @get_votes Ref.externals (RegularData.cfg "test" 100) RegularData.start = Ok v
    /\ (0 <= v <= 1)%Q /\ (v < v')%Q.
Proof.
  assert (Hr : { cs | @sample_input_center Ref.externals
                        (RegularData.cfg "test" 100) RegularData.scenes 1
                        (5 # 100) RegularData.start = Ok cs
                      /\ is_pair (fst cs) = true }).
  { eexists. split; [vm_compute; reflexivity | reflexivity]. }
  destruct Hr as [[c s'] [Hr Hc]].
  assert (Hv : { v | @get_votes Ref.externals (RegularData.cfg "test" 100)
                       RegularData.start = Ok v }).
  { eexists. vm_compute. reflexivity. }
  destruct Hv as [v Hv].
  destruct (@get_votes_progress Ref.externals (RegularData.cfg "test" 100)
              RegularData.scenes 1 (5 # 100) RegularData.start c s' v
              eq_refl (proj1 regular_start_in_queue)
              (proj2 regular_start_in_queue)) as (Hrange & v' & _ & Hlt & _).
  - simpl. lia.
  - exact Hv.
  - exact Hr.
  - exists v, v'. split; [exact Hv|]. split; [exact Hrange | exact (Hlt Hc)].
Defined.

(* ------------------------------------------------------------------ *)
(** ** Batches at and around the end of a sweep *)

Section EpochEnd.
Context `{E : Externals}.
Variables (cfg : Config) (scenes : Scenes).
Hypothesis Hregular : data_sampler cfg = "regular".
Hypothesis Hrole : set_ cfg <> "validation".

Lemma getitem_exhausted (sfuel fuel : nat) (s : State) :
  exhausted s ->
  __getitem__ cfg scenes sfuel (S fuel) s
  = Ok (EmptyDict, after_sleep s (1 # 10)).
Proof.
  intros (pts & Hpts & Hcur). unfold __getitem__.
  rewrite batch_loop_step.
  rewrite (sample_input_center_regular cfg scenes Hregular).
  rewrite (sample_regular_end cfg scenes s Hrole Hpts Hcur).
  reflexivity.
Qed.

Lemma after_sleeps_succ (s : State) (t : Q) (n : nat) :
  after_sleeps (after_sleep s t) t n = after_sleeps s t (S n).
Proof.
  unfold after_sleeps, after_sleep. simpl. rewrite <- app_assoc. reflexivity.
Qed.

(** X9. Regular policy outside the validation role.  Once the queue is
    used up, every later call of [__getitem__] returns the empty batch
    after one sleep of 0.1 s and changes nothing else: [n] calls return
    [n] empty batches and leave the cursor, the votes, the queue and the
    random generator as they were. *)
Theorem exhausted_epoch_stays_empty (sfuel fuel n : nat) (s : State) :
  exhausted s -> 1 <= fuel ->
  get_items cfg scenes sfuel fuel n s
  = Ok (repeat EmptyDict n, after_sleeps s (1 # 10) n).
Proof.
  intros Hex Hfuel. destruct fuel as [|fuel]; [lia|]. clear Hfuel.
  revert s Hex. induction n as [|n IH]; intros s Hex.
  - simpl. unfold after_sleeps. simpl. rewrite app_nil_r.
    destruct s; reflexivity.
  - cbn [get_items]. rewrite (getitem_exhausted sfuel fuel Hex).
    cbn [bind]. rewrite IH.
    + cbn [bind]. rewrite after_sleeps_succ. reflexivity.
    + destruct Hex as (pts & Hpts & Hcur). exists pts. split; assumption.
Qed.

End EpochEnd.

Lemma exhausted_epoch_stays_empty_witness :
  @get_items Ref.externals (RegularData.cfg "test" 100) RegularData.scenes
    1 1 3 (with_cursor RegularData.start 2)
  = Ok (repeat EmptyDict 3,
        after_sleeps (with_cursor RegularData.start 2) (1 # 10) 3).
Proof.
  apply (@exhausted_epoch_stays_empty Ref.externals
           (RegularData.cfg "test" 100) RegularData.scenes eq_refl).
  - discriminate.
  - eexists. split; [reflexivity|]. simpl. lia.
  - lia.
Defined.

(* ------------------------------------------------------------------ *)
(** ** The budget is exceeded by the last region only *)

Section BatchBudget.
Context `{E : Externals}.
Variables (cfg : Config) (scenes : Scenes).

Lemma contribution_nonneg (ps : list Points) : (0 <= contribution cfg ps)%Q.
Proof.
  unfold contribution. destruct (Qlt_bool (in_radius cfg) 0) eqn:Hneg.
  - apply Qlt_bool_iff in Hneg. apply Qmult_le_0_compat.
    + apply (Qopp_le_compat (in_radius cfg) 0). apply Qlt_le_weak, Hneg.
    + unfold Qle. simpl. lia.
  - unfold Qle. simpl. lia.
Qed.

Lemma contribution_removelast (ps : list Points) :
  (contribution cfg (removelast ps) <= contribution cfg ps)%Q.
Proof.
  destruct ps as [|a l]; [apply Qle_refl|].
  assert (Hne : a :: l <> []) by discriminate.
  rewrite (app_removelast_last [] Hne) at 2.
  rewrite contribution_app.
  rewrite <- (Qplus_0_r (contribution cfg (removelast (a :: l)))) at 1.
  apply Qplus_le_r. apply contribution_nonneg.
Qed.

Lemma batch_loop_prefix_fits (sfuel fuel : nat) (acc : Acc) (s : State)
    (acc' : Acc) (s' : State) :
  (batch_n_pts acc == contribution cfg (p_list acc))%Q ->
  batch_full cfg acc = false ->
  batch_loop cfg scenes sfuel fuel acc s = Ok (acc', s') ->
  (contribution cfg (removelast (p_list acc'))
   <= inject_Z (int (b_lim cfg)))%Q.
Proof.
  revert acc s. induction fuel as [|fuel IH]; intros acc s Hn Hfull H.
  - discriminate.
  - rewrite batch_loop_step in H. bind_inv H. destruct a as [c s1].
    destruct c as [|cloud_ind c_point].
    + injection H as <- <-.
      apply Qle_trans with (contribution cfg (p_list acc));
        [apply contribution_removelast|].
      rewrite <- Hn. apply Qlt_bool_false. exact Hfull.
    + bind_inv H. rename a into r.
      destruct (Nat.ltb (shape0 r) 1); [exact (IH _ _ Hn Hfull H)|].
      destruct (squeezed r); [discriminate|].
      destruct (accept_region_adds cfg acc cloud_ind c_point r (rng s1))
        as (ip & Hp & Hadd).
      destruct (accept_region cfg acc cloud_ind c_point r (rng s1))
        as [acc1 g]. simpl in Hp, Hadd.
      destruct (batch_full cfg acc1) eqn:Hfull1.
      * injection H as <- <-. rewrite Hp, removelast_last, <- Hn.
        apply Qlt_bool_false. exact Hfull.
      * refine (IH acc1 (with_rng s1 g) _ Hfull1 H).
        rewrite Hp, contribution_app, Hadd, Hn. reflexivity.
Qed.

(** X10. A batch overshoots the budget by its last region only: for a
    budget [b_lim >= 0], when the loop of [__getitem__] returns, the
    regions collected before the last one count for at most
    [int(b_lim)] points (in the fixed-count regime, [k] for each). *)
Theorem batch_overshoots_by_last_region (sfuel fuel : nat) (s : State)
    (acc : Acc) (s' : State) :
  (0 <= b_lim cfg)%Q ->
  batch_loop cfg scenes sfuel fuel empty_acc s = Ok (acc, s') ->
  (contribution cfg (removelast (p_list acc)) <= inject_Z (int (b_lim cfg)))%Q
  /\ (contribution cfg (removelast (p_list acc)) <= b_lim cfg)%Q.
Proof.
  intros Hb H.
  assert (Hint : (inject_Z (int (b_lim cfg)) <= b_lim cfg)%Q
                 /\ (0 <= inject_Z (int (b_lim cfg)))%Q).
  { unfold int. apply Qle_bool_iff in Hb. rewrite Hb.
    apply Qle_bool_iff in Hb. split; [apply Qfloor_le|].
    change 0%Q with (inject_Z 0). rewrite <- Zle_Qle.
    rewrite <- (Qfloor_Z 0). apply Qfloor_resp_le. exact Hb. }
  destruct Hint as [Hle H0].
  assert (Hfit : (contribution cfg (removelast (p_list acc))
                  <= inject_Z (int (b_lim cfg)))%Q).
  { apply (@batch_loop_prefix_fits sfuel fuel empty_acc s acc s');
      [| |exact H].
    - simpl. symmetry. apply contribution_nil.
    - unfold batch_full. apply Qlt_bool_false. exact H0. }
  split; [exact Hfit | exact (Qle_trans _ _ _ Hfit Hle)].
Qed.

End BatchBudget.

Lemma batch_overshoots_by_last_region_witness :
  exists acc s',
    @batch_loop Ref.externals (RegularData.cfg "test" 1) RegularData.scenes
      1 5 empty_acc RegularData.start = Ok (acc, s')
    /\ (contribution (RegularData.cfg "test" 1) (removelast (p_list acc))
        <= 1)%Q.
Proof.
  assert (Hr : { r | @batch_loop Ref.externals (RegularData.cfg "test" 1)
                       RegularData.scenes 1 5 empty_acc RegularData.start
                     = Ok r }).
  { eexists. vm_compute. reflexivity. }
  destruct Hr as [[acc s'] Hr]. exists acc, s'. split; [exact Hr|].
  refine (proj2 (@batch_overshoots_by_last_region Ref.externals
                   (RegularData.cfg "test" 1) RegularData.scenes 1 5
                   RegularData.start acc s' _ Hr)).
  simpl. lra.
Defined.

(* ------------------------------------------------------------------ *)
(** ** A batch of the regular sweep serves the queue in order *)

Section RegularBatch.
Context `{E : Externals}.
Variables (cfg : Config) (scenes : Scenes).
Hypothesis Hregular : data_sampler cfg = "regular".
Hypothesis Hrole : set_ cfg <> "validation".

Lemma accept_region_centers (acc : Acc) (c : Z) (p : Point) (r : Region)
    (g : Rng) :
  ci_list (fst (accept_region cfg acc c p r g)) = ci_list acc ++ [c]
  /\ i_list (fst (accept_region cfg acc c p r g)) = i_list acc ++ [p].
Proof.
  unfold accept_region.
  destruct (augmentation_transform _ _ _ g) as [[[p2 f2] l2] g'].
  destruct (wants_subsampling cfg).
  - destruct (subsample_cloud p2 _ _ l2) as [[[sp sf] sl] inv].
    split; reflexivity.
  - split; reflexivity.
Qed.

Lemma combine_snoc (A B : Type) (l1 : list A) (l2 : list B) (a : A) (b : B) :
  List.length l1 = List.length l2 ->
  combine (l1 ++ [a]) (l2 ++ [b]) = combine l1 l2 ++ [(a, b)].
Proof.
  revert l2. induction l1 as [|x l1 IH]; intros [|y l2] Hlen;
    simpl in *; try discriminate; try reflexivity.
  rewrite IH by congruence. reflexivity.
Qed.

Lemma batch_centers_accept (acc : Acc) (c : Z) (p : Point) (r : Region)
    (g : Rng) :
  List.length (ci_list acc) = List.length (i_list acc) ->
  batch_centers (fst (accept_region cfg acc c p r g))
  = batch_centers acc ++ [Pair c p]
  /\ List.length (ci_list (fst (accept_region cfg acc c p r g)))
     = List.length (i_list (fst (accept_region cfg acc c p r g))).
Proof.
  intros Hlen. destruct (accept_region_centers acc c p r g) as [Hc Hi].
  unfold batch_centers. rewrite Hc, Hi. split.
  - rewrite combine_snoc by exact Hlen. rewrite map_app. reflexivity.
  - rewrite !length_app, Hlen. reflexivity.
Qed.

Lemma batch_loop_regular (sfuel fuel : nat) (pts : Points) (clouds : list Z) :
  List.length clouds = List.length pts ->
  (Z.of_nat (List.length pts) < 2 ^ 63)%Z ->
  forall (acc : Acc) (s : State) (i : nat) (acc' : Acc) (s' : State),
    reg_sample_pts s = Some pts -> reg_sample_clouds s = Some clouds ->
    reg_sampling_i s = Z.of_nat i ->
    List.length (ci_list acc) = List.length (i_list acc) ->
    batch_loop cfg scenes sfuel fuel acc s = Ok (acc', s') ->
    exists n,
      n <= List.length pts - i
      /\ reg_sampling_i s' = Z.of_nat (i + n)
      /\ reg_sample_pts s' = Some pts
      /\ reg_sample_clouds s' = Some clouds
      /\ reg_votes s' = reg_votes s
      /\ batch_centers acc'
         = batch_centers acc
           ++ filter (region_nonempty cfg scenes)
                     (firstn n (queued_from i clouds pts))
      /\ (i + n < List.length pts -> batch_full cfg acc' = true).
Proof.
  intros Hlen Hbig.
  induction fuel as [|fuel IH];
    intros acc s i acc' s' Hpts Hclouds Hcur Hacc H.
  - discriminate.
  - rewrite batch_loop_step in H.
    rewrite (sample_input_center_regular cfg scenes Hregular) in H.
    destruct (Nat.lt_ge_cases i (List.length pts)) as [Hi | Hi].
    + rewrite (@sample_regular_next _ cfg scenes s pts clouds i) in H
        by assumption.
      cbn [bind] in H. bind_inv H. rename a into r.
      set (c := nth i clouds 0%Z) in *. set (p := nth i pts []) in *.
      assert (Hq : queued_from i clouds pts
                   = Pair c p :: queued_from (S i) clouds pts)
        by (apply queued_from_cons; assumption).
      assert (Hcur1 : reg_sampling_i (with_cursor s (Z.of_nat i + 1))
                      = Z.of_nat (S i)) by (simpl; lia).
      destruct (Nat.ltb (shape0 r) 1) eqn:Hempty.
      * destruct (IH acc (with_cursor s (Z.of_nat i + 1)) (S i) acc' s'
                     Hpts Hclouds Hcur1 Hacc H)
          as (n & Hn & Hc' & Hp' & Hcl' & Hv' & Hb & Hf).
        exists (S n). split; [lia|].
        split; [rewrite Hc'; f_equal; lia|].
        split; [exact Hp'|]. split; [exact Hcl'|]. split; [exact Hv'|].
        split.
        { rewrite Hq. cbn [firstn filter region_nonempty].
          rewrite Hrun, Hempty. exact Hb. }
        { intros Hlt. apply Hf. lia. }
      * destruct (squeezed r); [discriminate|].
        destruct (batch_centers_accept acc c p r
                    (rng (with_cursor s (Z.of_nat i + 1))) Hacc)
          as [Hbc Hacc1].
        destruct (accept_region cfg acc c p r
                    (rng (with_cursor s (Z.of_nat i + 1)))) as [acc1 g].
        simpl fst in Hbc, Hacc1.
        assert (Hkeep : filter (region_nonempty cfg scenes) [Pair c p]
                        = [Pair c p]).
        { cbn [filter region_nonempty]. rewrite Hrun, Hempty. reflexivity. }
        destruct (batch_full cfg acc1) eqn:Hfull.
        { injection H as <- <-. exists 1. split; [lia|].
          split; [simpl; lia|].
          split; [exact Hpts|]. split; [exact Hclouds|].
          split; [reflexivity|]. split; [|intros _; exact Hfull].
          rewrite Hq. cbn [firstn]. rewrite Hkeep. exact Hbc. }
        { cbv zeta in H.
          destruct (IH acc1 (with_rng (with_cursor s (Z.of_nat i + 1)) g)
                      (S i) acc' s' Hpts Hclouds Hcur1 Hacc1 H)
            as (n & Hn & Hc' & Hp' & Hcl' & Hv' & Hb & Hf).
          exists (S n). split; [lia|].
          split; [rewrite Hc'; f_equal; lia|].
          split; [exact Hp'|]. split; [exact Hcl'|]. split; [exact Hv'|].
          split.
          - rewrite Hq. cbn [firstn].
            change (Pair c p :: firstn n (queued_from (S i) clouds pts))
              with ([Pair c p] ++ firstn n (queued_from (S i) clouds pts)).
            rewrite filter_app, Hkeep, Hb, Hbc, <- app_assoc. reflexivity.
          - intros Hlt. apply Hf. lia. }
    + rewrite (sample_regular_end cfg scenes s Hrole Hpts) in H by lia.
      cbn [bind] in H. injection H as <- <-. exists 0.
      split; [lia|]. split; [rewrite Hcur; f_equal; lia|].
      split; [exact Hpts|]. split; [exact Hclouds|].
      split; [reflexivity|]. split; [|intros Hlt; lia].
      simpl. rewrite app_nil_r. reflexivity.
Qed.

(** X11. Regular policy outside the validation role.  A call of the
    loop of [__getitem__] that starts with the cursor at position [i]
    consumes some [n] consecutive entries of the queue, moving the cursor
    to [i + n] and leaving the queue and the votes as they were; the
    centres recorded in the batch are, in order, those of these [n]
    entries whose region is not empty.  It stops before the end of the
    queue only on a full batch: no queued centre is skipped or served
    twice. *)
Theorem regular_batch_serves_queue_in_order (sfuel fuel : nat)
    (pts : Points) (clouds : list Z) (s : State) (i : nat)
    (acc : Acc) (s' : State) :
  reg_sample_pts s = Some pts -> reg_sample_clouds s = Some clouds ->
  List.length clouds = List.length pts ->
  (Z.of_nat (List.length pts) < 2 ^ 63)%Z ->
  reg_sampling_i s = Z.of_nat i ->
  batch_loop cfg scenes sfuel fuel empty_acc s = Ok (acc, s') ->
  exists n,
    n <= List.length pts - i
    /\ reg_sampling_i s' = Z.of_nat (i + n)
    /\ reg_sample_pts s' = Some pts
    /\ reg_sample_clouds s' = Some clouds
    /\ reg_votes s' = reg_votes s
    /\ batch_centers acc
       = filter (region_nonempty cfg scenes)
                (firstn n (queued_from i clouds pts))
    /\ (i + n < List.length pts -> batch_full cfg acc = true).
Proof.
  intros Hpts Hclouds Hlen Hbig Hcur H.
  exact (@batch_loop_regular sfuel fuel pts clouds Hlen Hbig empty_acc s i
           acc s' Hpts Hclouds Hcur eq_refl H).
Qed.

End RegularBatch.

Lemma regular_batch_serves_queue_in_order_witness :
  exists acc s' n,
    @batch_loop Ref.externals (RegularData.cfg "test" 1) RegularData.scenes
      1 5 empty_acc RegularData.start = Ok (acc, s')
    /\ reg_sampling_i s' = Z.of_nat (0 + n)
    /\ batch_centers acc
       = filter (@region_nonempty Ref.externals (RegularData.cfg "test" 1)
                   RegularData.scenes)
                (firstn n (queued_from 0 [0; 0]%Z
                             [[0; 0; 0]; [3; 0; 0]]%Q)).
Proof.
  assert (Hr : { r | @batch_loop Ref.externals (RegularData.cfg "test" 1)
                       RegularData.scenes 1 5 empty_acc RegularData.start
                     = Ok r }).
  { eexists. vm_compute. reflexivity. }
  destruct Hr as [[acc s'] Hr].
  destruct (@regular_batch_serves_queue_in_order Ref.externals
              (RegularData.cfg "test" 1) RegularData.scenes eq_refl)
    with (sfuel := 1) (fuel := 5) (pts := [[0; 0; 0]; [3; 0; 0]]%Q)
         (clouds := [0; 0]%Z) (s := RegularData.start) (i := 0)
         (acc := acc) (s' := s')
    as (n & _ & Hcur & _ & _ & _ & Hb & _);
    try reflexivity.
  - discriminate.
  - exact Hr.
  - exists acc, s', n. split; [exact Hr|]. split; [exact Hcur | exact Hb].
Defined.

(* ------------------------------------------------------------------ *)
(** ** Layout of a returned batch *)

Section PackLayout.
Context `{E : Externals}.
Variables (cfg : Config) (scenes : Scenes).

Lemma accept_region_lists (acc : Acc) (c : Z) (p : Point) (r : Region)
    (g : Rng) :
  List.length (p_list (fst (accept_region cfg acc c p r g)))
  = S (List.length (p_list acc))
  /\ List.length (pi_list (fst (accept_region cfg acc c p r g)))
     = S (List.length (pi_list acc))
  /\ List.length (ci_list (fst (accept_region cfg acc c p r g)))
     = S (List.length (ci_list acc))
  /\ List.length (i_list (fst (accept_region cfg acc c p r g)))
     = S (List.length (i_list acc)).
Proof.
  unfold accept_region.
  destruct (augmentation_transform _ _ _ g) as [[[p2 f2] l2] g'].
  destruct (wants_subsampling cfg).
  - destruct (subsample_cloud p2 _ _ l2) as [[[sp sf] sl] inv].
    simpl. rewrite !length_app. simpl. lia.
  - simpl. rewrite !length_app. simpl. lia.
Qed.

(** The lists of the loop grow together. *)
Lemma batch_loop_aligned (sfuel fuel : nat) (acc : Acc) (s : State)
    (acc' : Acc) (s' : State) :
  List.length (pi_list acc) = List.length (p_list acc) ->
  List.length (ci_list acc) = List.length (p_list acc) ->
  List.length (i_list acc) = List.length (p_list acc) ->
  batch_loop cfg scenes sfuel fuel acc s = Ok (acc', s') ->
  List.length (pi_list acc') = List.length (p_list acc')
  /\ List.length (ci_list acc') = List.length (p_list acc')
  /\ List.length (i_list acc') = List.length (p_list acc').
Proof.
  revert acc s. induction fuel as [|fuel IH]; intros acc s H1 H2 H3 H.
  - discriminate.
  - rewrite batch_loop_step in H. bind_inv H. destruct a as [c s1].
    destruct c as [|cloud_ind c_point].
    + injection H as <- <-. repeat split; assumption.
    + bind_inv H. rename a into r.
      destruct (Nat.ltb (shape0 r) 1); [exact (IH _ _ H1 H2 H3 H)|].
      destruct (squeezed r); [discriminate|].
      destruct (accept_region_lists acc cloud_ind c_point r (rng s1))
        as (Hp & Hpi & Hci & Hi).
      destruct (accept_region cfg acc cloud_ind c_point r (rng s1))
        as [acc1 g]. simpl fst in Hp, Hpi, Hci, Hi.
      assert (A1 : List.length (pi_list acc1) = List.length (p_list acc1))
        by congruence.
      assert (A2 : List.length (ci_list acc1) = List.length (p_list acc1))
        by congruence.
      assert (A3 : List.length (i_list acc1) = List.length (p_list acc1))
        by congruence.
      destruct (batch_full cfg acc1).
      * injection H as <- <-. repeat split; assumption.
      * exact (IH acc1 (with_rng s1 g) A1 A2 A3 H).
Qed.

Lemma total_map_length (A : Type) (l : list (list A)) :
  total (map (fun pp => Z.of_nat (List.length pp)) l)
  = Z.of_nat (List.length (List.concat l)).
Proof.
  unfold total. induction l as [|x l IH]; [reflexivity|].
  simpl. rewrite length_app, Nat2Z.inj_add, IH. reflexivity.
Qed.

Lemma length_adjacent_sums (l : list Z) :
  List.length (adjacent_sums l) = Nat.div2 (List.length l).
Proof.
  induction l as [| a | a b l IH] using list_pair_ind;
    try reflexivity.
  simpl. rewrite IH. reflexivity.
Qed.

Lemma length_merged_prefix (n : nat) (l1 l2 : list Z) :
  List.length l1 = List.length l2 ->
  List.length (merged_prefix n l1) = List.length (merged_prefix n l2).
Proof.
  intros Hlen. unfold merged_prefix.
  rewrite !length_app, !length_adjacent_sums, !length_firstn,
    !length_skipn, Hlen.
  reflexivity.
Qed.

(** X12. When the loop of [__getitem__] has collected at least one
    region, the call returns a full batch and never fails in the Mix3D
    step, whose two length vectors are always aligned.  In the returned
    dictionary the lengths given to the pyramid add up to the number of
    stacked points, [lengths0] adds up to the number of input indices,
    both vectors have the same number of entries, and there is one cloud
    index and one centre for each collected region.  (With Mix3D on, the
    sums of two lengths are assumed not to overflow.) *)
Theorem getitem_pack_layout (sfuel fuel : nat) (s : State) (acc : Acc)
    (s1 : State) :
  batch_loop cfg scenes sfuel fuel empty_acc s = Ok (acc, s1) ->
  p_list acc <> [] ->
  (set_ cfg = "training" -> (0 < mix3D cfg)%Q ->
   lengths_ok (stack_lengths (stack acc))
   /\ lengths_ok (stack_lengths0 (stack acc))) ->
  exists d lens,
    __getitem__ cfg scenes sfuel fuel s = Ok (FullDict d, s1)
    /\ pyramid d = build_pyramid cfg (List.concat (p_list acc)) lens
    /\ total lens = Z.of_nat (List.length (List.concat (p_list acc)))
    /\ dict_input_inds d = List.concat (pi_list acc)
    /\ total (lengths0 d) = Z.of_nat (List.length (dict_input_inds d))
    /\ List.length lens = List.length (lengths0 d)
    /\ List.length (dict_cloud_inds d) = List.length (p_list acc)
    /\ List.length (dict_center_points d) = List.length (p_list acc).
Proof.
  intros H Hne Hok.
  destruct (@batch_loop_aligned sfuel fuel empty_acc s acc s1
              eq_refl eq_refl eq_refl H) as (Hpi & Hci & Hi).
  unfold __getitem__. rewrite H. cbn [bind].
  destruct (Nat.ltb_spec (List.length (p_list acc)) 1) as [Hlt | _].
  { destruct (p_list acc); [contradiction | simpl in Hlt; lia]. }
  assert (HB : List.length (stack_lengths (stack acc))
               = List.length (p_list acc)) by apply length_map.
  assert (HB0 : List.length (stack_lengths0 (stack acc))
                = List.length (p_list acc))
    by (simpl; rewrite length_map; exact Hpi).
  destruct (String.eqb (set_ cfg) "training" && Qlt_bool 0 (mix3D cfg))
    eqn:Hmix.
  - apply andb_true_iff in Hmix. destruct Hmix as [Hset Hm].
    apply String.eqb_eq in Hset. apply Qlt_bool_iff in Hm.
    destruct (Hok Hset Hm) as [Hl Hl0].
    rewrite (mix3D_augment_merged cfg (stack acc) Hset Hm HB HB0 Hl Hl0).
    cbn [bind].
    destruct (merged_count_even (List.length (p_list acc)) Hm) as [Hev Hle].
    eexists. eexists. split; [reflexivity|]. cbn.
    split; [reflexivity|].
    split.
    { rewrite total_merged_prefix;
        [apply total_map_length | exact Hev | rewrite length_map; exact Hle]. }
    split; [reflexivity|].
    split.
    { rewrite total_merged_prefix;
        [apply total_map_length | exact Hev |
         rewrite length_map, Hpi; exact Hle]. }
    split.
    { apply length_merged_prefix. rewrite !length_map. symmetry. exact Hpi. }
    split; assumption.
  - unfold mix3D_augment. rewrite Hmix. cbn [bind].
    eexists. eexists. split; [reflexivity|]. cbn.
    split; [reflexivity|].
    split; [apply total_map_length|].
    split; [reflexivity|].
    split; [apply total_map_length|].
    split; [rewrite !length_map; symmetry; exact Hpi|].
    split; assumption.
Qed.

End PackLayout.

Lemma getitem_pack_layout_witness :
  exists d s1,
    @__getitem__ Ref.externals MixData.cfg RandomData.scenes 1 6
      RandomData.start = Ok (FullDict d, s1)
    /\ total (lengths0 d) = Z.of_nat (List.length (dict_input_inds d))
    /\ List.length (dict_cloud_inds d) = 4.
Proof.
  assert (Hr : { r | @batch_loop Ref.externals MixData.cfg RandomData.scenes
                       1 6 empty_acc RandomData.start = Ok r
                     /\ List.length (p_list (fst r)) = 4
                     /\ forallb (fun x => (0 <=? x)%Z && (x <? 2 ^ 62)%Z)
                          (stack_lengths (stack (fst r))) = true
                     /\ forallb (fun x => (0 <=? x)%Z && (x <? 2 ^ 62)%Z)
                          (stack_lengths0 (stack (fst r))) = true }).
  { eexists. split; [vm_compute; reflexivity|].
    split; [reflexivity|]. split; reflexivity. }
  destruct Hr as [[acc s1] (Hr & Hlen & Hl & Hl0)]. simpl fst in Hlen, Hl, Hl0.
  destruct (@getitem_pack_layout Ref.externals MixData.cfg RandomData.scenes
              1 6 RandomData.start acc s1 Hr)
    as (d & lens & Hrun & _ & _ & _ & Htot & _ & Hci & _).
  - intros Hnil. rewrite Hnil in Hlen. discriminate.
  - intros _ _. split; apply lengths_ok_small; assumption.
  - exists d, s1. split; [exact Hrun|]. split; [exact Htot|].
    rewrite Hci. exact Hlen.
Defined.

(* ------------------------------------------------------------------ *)
(** ** Batch-size calibration *)

Section SizeCalibrationFacts.
Context `{E : Externals}.
Variables (cfg : Config) (scenes : Scenes).
Variable calib_augment_points : Points -> Rng -> Points * Rng.

Lemma size_batch_step (sfuel fuel : nat) (bn bp : Z) (s : State) :
  size_batch cfg scenes calib_augment_points sfuel (S fuel) bn bp s
  = ('(c, s1) <- sample_input_center cfg scenes sfuel (5 # 100) s ;;
     match c with
     | NoneNone => Raise "TypeError"
     | Pair cloud_ind center_p =>
         r <- get_input_area cfg scenes cloud_ind center_p ;;
         if squeezed r then Raise "IndexError"
         else
           let '(in_points, g) :=
             calib_augment_points (input_points r) (rng s1) in
           let s2 := with_rng s1 g in
           if Nat.ltb 0 (List.length in_points) then
             let n :=
               if wants_subsampling cfg
               then List.length
                      (subsample_pack_batch in_points (in_sub_size cfg))
               else List.length in_points in
             let batch_n_pts := (bp + Z.of_nat n)%Z in
             let batch_n := (bn + 1)%Z in
             if Qlt_bool (b_lim cfg) (inject_Z batch_n_pts)
             then Ok ((batch_n, batch_n_pts), s2)
             else size_batch cfg scenes calib_augment_points sfuel fuel
                    batch_n batch_n_pts s2
           else size_batch cfg scenes calib_augment_points sfuel fuel
                  bn bp s2
     end).
Proof. reflexivity. Qed.

(** A trial batch that ends has counted at least one more region and
    holds more points than the budget. *)
Lemma size_batch_sound (sfuel fuel : nat) (bn bp : Z) (s : State)
    (n p : Z) (s' : State) :
  size_batch cfg scenes calib_augment_points sfuel fuel bn bp s
  = Ok ((n, p), s') ->
  (bn < n)%Z /\ (bp <= p)%Z /\ (b_lim cfg < inject_Z p)%Q.
Proof.
  revert bn bp s. induction fuel as [|fuel IH]; intros bn bp s H.
  - discriminate.
  - rewrite size_batch_step in H. bind_inv H. destruct a as [c s1].
    destruct c as [|cloud_ind center_p]; [discriminate|].
    bind_inv H. rename a into r.
    destruct (squeezed r); [discriminate|].
    destruct (calib_augment_points (input_points r) (rng s1))
      as [in_points g].
    cbv zeta in H.
    destruct (Nat.ltb 0 (List.length in_points)).
    + destruct (Qlt_bool (b_lim cfg) _) eqn:Hfull.
      * injection H as <- <- <-. apply Qlt_bool_iff in Hfull.
        split; [lia|]. split; [lia | exact Hfull].
      * destruct (IH _ _ _ H) as (H1 & H2 & H3).
        split; [lia|]. split; [lia | exact H3].
    + exact (IH _ _ _ H).
Qed.

Lemma size_batches_sound (sfuel fuel todo : nat) (ns pts : list Z)
    (s : State) (ns' pts' : list Z) (s' : State) :
  size_batches cfg scenes calib_augment_points sfuel fuel todo ns pts s
  = Ok ((ns', pts'), s') ->
  exists ns1 pts1,
    ns' = ns ++ ns1 /\ pts' = pts ++ pts1
    /\ List.length ns1 = todo
    /\ Forall2 (fun n p => (1 <= n)%Z /\ (b_lim cfg < inject_Z p)%Q)
               ns1 pts1.
Proof.
  revert ns pts s. induction todo as [|todo IH]; intros ns pts s H.
  - simpl in H. injection H as <- <- <-. exists [], [].
    rewrite !app_nil_r. repeat split. constructor.
  - cbn [size_batches] in H. bind_inv H. destruct a as [[n p] s1].
    destruct (size_batch_sound _ _ _ _ _ Hrun) as (Hn & _ & Hp).
    destruct (IH _ _ _ H) as (ns1 & pts1 & -> & -> & Hlen & Hall).
    exists (n :: ns1), (p :: pts1). rewrite <- !app_assoc.
    split; [reflexivity|]. split; [reflexivity|].
    split; [simpl; congruence|].
    constructor; [split; [lia | exact Hp] | exact Hall].
Qed.

Lemma total_ge_length (l p : list Z) (P : Z -> Prop) :
  Forall2 (fun n q => (1 <= n)%Z /\ P q) l p ->
  (Z.of_nat (List.length l) <= total l)%Z.
Proof.
  unfold total. induction 1 as [|n q l p [Hn _] _ IH]; [reflexivity|].
  cbn [List.length fold_right]. lia.
Qed.

(** X13. When [calib_batch_size] returns, it has measured [samples]
    trial batches, each with at least one region and with strictly more
    points than [b_lim]; the new [b_n] is the mean of the region counts,
    at least 1, and is [nan] only for [samples = 0]. *)
Theorem calib_batch_size_measures (sfuel fuel samples : nat) (s : State)
    (cal : SizeCalibration) (s' : State) :
  calib_batch_size cfg scenes calib_augment_points sfuel fuel samples s
  = Ok (cal, s') ->
  List.length (size_batch_n cal) = samples
  /\ Forall2 (fun n p => (1 <= n)%Z /\ (b_lim cfg < inject_Z p)%Q)
             (size_batch_n cal) (size_batch_n_pts cal)
  /\ (samples = 0 -> new_b_n cal = None)
  /\ (1 <= samples ->
      exists b_n,
        new_b_n cal = Some b_n
        /\ (b_n == inject_Z (total (size_batch_n cal))
                   / inject_Z (Z.of_nat samples))%Q
        /\ (1 <= b_n)%Q).
Proof.
  unfold calib_batch_size. intros H. bind_inv H.
  destruct a as [[ns pts] s1]. injection H as <- <-. cbn.
  destruct (size_batches_sound _ _ _ _ _ _ Hrun)
    as (ns1 & pts1 & Hns & Hpts & Hlen & Hall).
  simpl in Hns, Hpts. subst ns pts.
  split; [exact Hlen|]. split; [exact Hall|].
  split.
  - intros H0. rewrite H0 in Hlen. destruct ns1; [reflexivity|discriminate].
  - intros H1. unfold np_mean.
    destruct ns1 as [|n ns1]; [simpl in Hlen; lia|].
    eexists. split; [reflexivity|].
    rewrite <- Hlen. split; [reflexivity|].
    pose proof (@total_ge_length _ _ _ Hall) as Hge. unfold total in Hge.
    set (l := n :: ns1) in *.
    assert (Hpos : (0 < inject_Z (Z.of_nat (List.length l)))%Q)
      by (unfold Qlt; simpl; lia).
    apply Qle_shift_div_l; [exact Hpos|].
    rewrite Qmult_1_l. rewrite <- Zle_Qle. exact Hge.
Qed.

End SizeCalibrationFacts.

Lemma calib_batch_size_measures_witness :
  exists cal s' b_n,
    @calib_batch_size Ref.externals MixData.cfg RandomData.scenes
      (fun p g => (p, g)) 1 6 2 RandomData.start = Ok (cal, s')
    /\ List.length (size_batch_n cal) = 2
    /\ new_b_n cal = Some b_n /\ (1 <= b_n)%Q.
Proof.
  assert (Hr : { r | @calib_batch_size Ref.externals MixData.cfg
                       RandomData.scenes (fun p g => (p, g)) 1 6 2
                       RandomData.start = Ok r }).
  { eexists. vm_compute. reflexivity. }
  destruct Hr as [[cal s'] Hr].
  destruct (@calib_batch_size_measures Ref.externals MixData.cfg
              RandomData.scenes (fun p g => (p, g)) 1 6 2 RandomData.start
              cal s' Hr) as (Hlen & _ & _ & Hmean).
  destruct (Hmean (le_S _ _ (le_n 1))) as (b_n & Hb & _ & Hge).
  exists cal, s', b_n. repeat split; assumption.
Defined.

(* ------------------------------------------------------------------ *)
(** ** Calibration on a sampler that has ended *)

Section CalibrationAtEnd.
Context `{E : Externals}.
Variables (cfg : Config) (scenes : Scenes).
Variable calib_augment_points : Points -> Rng -> Points * Rng.

Lemma index_nil (A : Type) (k : nat) :
  index (@nil A) (Z.of_nat k) = Raise "IndexError".
Proof.
  unfold index. simpl.
  destruct (Z.ltb_spec (Z.of_nat k) 0) as [Hlt | _]; [lia|].
  destruct (Z.ltb_spec (Z.of_nat k) 0) as [Hlt | _]; [lia|].
  destruct (Z.to_nat (Z.of_nat k)); reflexivity.
Qed.

(** X14. [calib_batch_size] does not test the answer of the sampler: in
    a state where [sample_input_center] answers [(None, None)] (regular
    policy, queue used up, role other than validation), a calibration of
    at least one sample raises [TypeError], where [__getitem__] returns
    the empty batch. *)
Theorem calib_batch_size_at_end (sfuel fuel samples : nat) (s : State) :
  data_sampler cfg = "regular" -> set_ cfg <> "validation" ->
  exhausted s -> 1 <= fuel -> 1 <= samples ->
  calib_batch_size cfg scenes calib_augment_points sfuel fuel samples s
  = Raise "TypeError"
  /\ exists s',
       __getitem__ cfg scenes sfuel fuel s = Ok (EmptyDict, s').
Proof.
  intros Hreg Hrole Hex Hfuel Hsamples.
  destruct fuel as [|fuel]; [lia|]. destruct samples as [|samples]; [lia|].
  split.
  - destruct Hex as (pts & Hpts & Hcur).
    unfold calib_batch_size. cbn [size_batches].
    rewrite size_batch_step.
    rewrite (sample_input_center_regular cfg scenes Hreg).
    rewrite (sample_regular_end cfg scenes s Hrole Hpts Hcur).
    reflexivity.
  - eexists. apply getitem_exhausted; assumption.
Qed.

(** X15. [calib_batch_limit] stops its first loop when the sampler
    answers [(None, None)]; when it has then recorded no region size at
    all, the verification loop indexes the empty list and the call raises
    [IndexError].  This is what happens with the regular policy once the
    queue is used up, in a role other than validation. *)
Theorem calib_batch_limit_without_sizes (sfuel fuel : nat) (batch_size : Q)
    (samples : nat) (s s1 : State) :
  1 <= fuel -> 1 <= samples ->
  (collect_cloud_n cfg scenes sfuel fuel samples [] s = Ok ([], s1) ->
   calib_batch_limit cfg scenes sfuel fuel batch_size samples s
   = Raise "IndexError")
  /\ (data_sampler cfg = "regular" -> set_ cfg <> "validation" ->
      exhausted s ->
      calib_batch_limit cfg scenes sfuel fuel batch_size samples s
      = Raise "IndexError").
Proof.
  intros Hfuel Hsamples.
  assert (Hempty : forall s0 s2,
            collect_cloud_n cfg scenes sfuel fuel samples [] s0
            = Ok ([], s2) ->
            calib_batch_limit cfg scenes sfuel fuel batch_size samples s0
            = Raise "IndexError").
  { intros s0 s2 H. unfold calib_batch_limit. rewrite H. cbn [bind np_mean].
    destruct fuel as [|fuel']; [lia|].
    destruct samples as [|samples']; [lia|].
    cbn [simulate_batches simulate_batch].
    unfold np_random_choice.
    destruct (np_random_raw (rng s2)) as [x g]. cbn [bind].
    rewrite index_nil. reflexivity. }
  split; [apply Hempty|].
  intros Hreg Hrole (pts & Hpts & Hcur).
  apply (Hempty s s).
  destruct fuel as [|fuel']; [lia|].
  destruct samples as [|samples']; [lia|].
  cbn [collect_cloud_n List.length Nat.ltb Nat.leb].
  rewrite (sample_input_center_regular cfg scenes Hreg).
  rewrite (sample_regular_end cfg scenes s Hrole Hpts Hcur).
  reflexivity.
Qed.

End CalibrationAtEnd.

Lemma calib_batch_size_at_end_witness :
  @calib_batch_size Ref.externals (RegularData.cfg "test" 100)
    RegularData.scenes (fun p g => (p, g)) 1 3 2
    (with_cursor RegularData.start 2)
  = Raise "TypeError".
Proof.
  refine (proj1 (@calib_batch_size_at_end Ref.externals
                   (RegularData.cfg "test" 100) RegularData.scenes
                   (fun p g => (p, g)) 1 3 2
                   (with_cursor RegularData.start 2) eq_refl _ _ _ _)).
  - discriminate.
  - eexists. split; [reflexivity|]. simpl. lia.
  - lia.
  - lia.
Defined.

Lemma calib_batch_limit_without_sizes_witness :
  @calib_batch_limit Ref.externals (RegularData.cfg "test" 100)
    RegularData.scenes 1 3 4 2 (with_cursor RegularData.start 2)
  = Raise "IndexError".
Proof.
  refine (proj2 (@calib_batch_limit_without_sizes Ref.externals
                   (RegularData.cfg "test" 100) RegularData.scenes
                   1 3 4 2 (with_cursor RegularData.start 2)
                   (with_cursor RegularData.start 2) _ _) eq_refl _ _).
  - lia.
  - lia.
  - discriminate.
  - eexists. split; [reflexivity|]. simpl. lia.
Defined.

(* ------------------------------------------------------------------ *)
(** ** Calibration rewinds the sweep *)

Section CalibrationRewind.
Context `{E : Externals}.
Variables (cfg : Config) (scenes : Scenes).
Variable calib_augment_points : Points -> Rng -> Points * Rng.
Hypothesis Hpass : single_pass cfg.

Lemma same_queue_refl (s : State) : same_queue s s.
Proof. repeat split. Qed.

Lemma same_queue_trans (s1 s2 s3 : State) :
  same_queue s1 s2 -> same_queue s2 s3 -> same_queue s1 s3.
Proof.
  intros (a1 & a2 & a3 & a4) (b1 & b2 & b3 & b4).
  repeat split; congruence.
Qed.

Lemma same_queue_with_rng (s s' : State) (g : Rng) :
  same_queue s s' -> same_queue s (with_rng s' g).
Proof. intros H. exact H. Qed.

Lemma sample_input_center_same_queue (sfuel : nat) (noise : Q) (s : State)
    (c : Center) (s' : State) :
  sample_input_center cfg scenes sfuel noise s = Ok (c, s') ->
  same_queue s s'.
Proof.
  intros H.
  destruct (String.eqb_spec (data_sampler cfg) "regular") as [Hreg | Hreg].
  - rewrite (sample_input_center_regular cfg scenes Hreg) in H.
    destruct (@sample_regular_cases _ _ _ _ _ _ H) as (pts & _ & Hcases).
    destruct Hcases as [(_ & -> & _) | [(_ & _ & _ & ->) | Hregen]].
    + repeat split.
    + apply same_queue_refl.
    + destruct Hregen as (_ & Hval & _).
      destruct Hpass as [Hp | Hp]; contradiction.
  - apply sample_input_center_random in H; [|exact Hreg].
    destruct (@sample_random_frame _ _ _ _ _ _ _ _ H)
      as ((_ & Hv & Hp & Hc & Hs) & _).
    repeat split; assumption.
Qed.

Lemma np_random_choice_same_queue (n : nat) (s : State) (x : nat)
    (s' : State) :
  np_random_choice n s = Ok (x, s') -> same_queue s s'.
Proof.
  intros H.
  destruct (@np_random_choice_frame _ _ _ _ _ H) as (_ & Hv & Hp & Hc & Hs).
  repeat split; assumption.
Qed.

Lemma size_batch_same_queue (sfuel fuel : nat) (bn bp : Z) (s : State)
    (r : Z * Z) (s' : State) :
  size_batch cfg scenes calib_augment_points sfuel fuel bn bp s
  = Ok (r, s') ->
  same_queue s s'.
Proof.
  revert bn bp s. induction fuel as [|fuel IH]; intros bn bp s H.
  - discriminate.
  - rewrite size_batch_step in H. bind_inv H. destruct a as [c s1].
    apply sample_input_center_same_queue in Hrun.
    destruct c as [|cloud_ind center_p]; [discriminate|].
    bind_inv H. rename a into reg.
    destruct (squeezed reg); [discriminate|].
    destruct (calib_augment_points (input_points reg) (rng s1))
      as [in_points g].
    cbv zeta in H.
    destruct (Nat.ltb 0 (List.length in_points)).
    + destruct (Qlt_bool (b_lim cfg) _).
      * injection H as _ <-. exact Hrun.
      * exact (same_queue_trans (same_queue_with_rng g Hrun) (IH _ _ _ H)).
    + exact (same_queue_trans (same_queue_with_rng g Hrun) (IH _ _ _ H)).
Qed.

Lemma size_batches_same_queue (sfuel fuel todo : nat) (ns pts : list Z)
    (s : State) (r : list Z * list Z) (s' : State) :
  size_batches cfg scenes calib_augment_points sfuel fuel todo ns pts s
  = Ok (r, s') ->
  same_queue s s'.
Proof.
  revert ns pts s. induction todo as [|todo IH]; intros ns pts s H.
  - simpl in H. injection H as _ <-. apply same_queue_refl.
  - cbn [size_batches] in H. bind_inv H. destruct a as [[n p] s1].
    exact (same_queue_trans (size_batch_same_queue _ _ _ _ _ Hrun)
             (IH _ _ _ H)).
Qed.

Lemma collect_cloud_n_same_queue (sfuel fuel samples : nat) (acc : list Z)
    (s : State) (sizes : list Z) (s' : State) :
  collect_cloud_n cfg scenes sfuel fuel samples acc s = Ok (sizes, s') ->
  same_queue s s'.
Proof.
  revert acc s. induction fuel as [|fuel IH]; intros acc s H;
    rewrite collect_cloud_n_unfold in H;
    destruct (Nat.ltb (List.length acc) samples);
    try discriminate;
    try (injection H as _ <-; apply same_queue_refl).
  bind_inv H. destruct a as [c s1].
  apply sample_input_center_same_queue in Hrun.
  destruct c as [|cloud_ind center_p].
  - injection H as _ <-. exact Hrun.
  - bind_inv H. rename a into reg.
    destruct (Nat.ltb 0 (shape0 reg)).
    + destruct (squeezed reg); [discriminate|].
      destruct (calib_augment _ _ _ _) as [[[in_points f] l] g].
      exact (same_queue_trans (same_queue_with_rng g Hrun) (IH _ _ H)).
    + exact (same_queue_trans Hrun (IH _ _ H)).
Qed.

Lemma simulate_batch_same_queue (fuel samples : nat) (sizes : list Z)
    (lim : option Q) (bn bp : Z) (s : State) (r : Z * Z) (s' : State) :
  simulate_batch fuel samples sizes lim bn bp s = Ok (r, s') ->
  same_queue s s'.
Proof.
  revert bn bp s. induction fuel as [|fuel IH]; intros bn bp s H.
  - discriminate.
  - cbn [simulate_batch] in H. bind_inv H. destruct a as [rand_i s1].
    apply np_random_choice_same_queue in Hrun. bind_inv H.
    destruct (over_limit lim (bp + a)).
    + injection H as _ <-. exact Hrun.
    + exact (same_queue_trans Hrun (IH _ _ _ H)).
Qed.

Lemma simulate_batches_same_queue (fuel samples todo : nat) (sizes : list Z)
    (lim : option Q) (ns pts : list Z) (s : State) (r : list Z * list Z)
    (s' : State) :
  simulate_batches fuel samples todo sizes lim ns pts s = Ok (r, s') ->
  same_queue s s'.
Proof.
  revert ns pts s. induction todo as [|todo IH]; intros ns pts s H.
  - simpl in H. injection H as _ <-. apply same_queue_refl.
  - cbn [simulate_batches] in H. bind_inv H. destruct a as [[n p] s1].
    exact (same_queue_trans (simulate_batch_same_queue _ _ _ _ _ _ _ Hrun)
             (IH _ _ _ H)).
Qed.

Lemma calib_batch_inner_same_queue (sfuel fuel : nat) (b_n : Q) (s : State)
    (r : option Q * option Q) (s1 : State) :
  (if Qlt_bool 0 (b_lim cfg) then
     '(cal, s1) <-
       calib_batch_size cfg scenes calib_augment_points sfuel fuel 20 s ;;
     Ok ((new_b_n cal, Some (b_lim cfg)), s1)
   else
     '(cal, s1) <- calib_batch_limit cfg scenes sfuel fuel b_n 100 s ;;
     Ok ((Some b_n, new_b_lim cal), s1)) = Ok (r, s1) ->
  same_queue s s1
  /\ ((0 < b_lim cfg)%Q -> snd r = Some (b_lim cfg))
  /\ ((b_lim cfg <= 0)%Q -> fst r = Some b_n).
Proof.
  intros H. destruct (Qlt_bool 0 (b_lim cfg)) eqn:Hlim.
  - apply Qlt_bool_iff in Hlim.
    bind_inv H. destruct a as [cal s2]. injection H as <- <-.
    unfold calib_batch_size in Hrun. bind_inv Hrun.
    destruct a as [[ns pts] s3]. injection Hrun as _ <-.
    split; [exact (size_batches_same_queue _ _ _ _ _ _ Hrun0)|].
    split; [reflexivity | intros Hle; lra].
  - apply Qlt_bool_false in Hlim.
    bind_inv H. destruct a as [cal s2]. injection H as <- <-.
    unfold calib_batch_limit in Hrun. bind_inv Hrun.
    destruct a as [sizes s3]. bind_inv Hrun.
    destruct a as [[ns pts] s4]. injection Hrun as _ <-.
    split.
    + exact (same_queue_trans (collect_cloud_n_same_queue _ _ _ _ _ Hrun0)
               (simulate_batches_same_queue _ _ _ _ _ _ _ _ Hrun1)).
    + split; [intros Hlt; lra | reflexivity].
Qed.

(** X16. When [calib_batch] returns in a setting where the queue is
    never regenerated (any policy but [regular], or any role but
    validation), the cursor of the regular sweep is back at 0 and the
    queue, the votes and the sleep log are those of before: the centres
    used up by the calibration will be served again.  A positive batch
    limit is kept and the batch size is measured; otherwise the batch
    size is kept and the limit is searched.  The result is written to
    [cfg.train] in the training role (and to [cfg.test] when
    [update_test]), and to [cfg.test] alone in the other roles. *)
Theorem calib_batch_rewinds (sfuel fuel : nat) (b_n : Q)
    (update_test : bool) (s : State) (res : BatchCalibration) (s' : State) :
  calib_batch cfg scenes calib_augment_points sfuel fuel b_n update_test s
  = Ok (res, s') ->
  reg_sampling_i s' = 0%Z
  /\ same_queue s s'
  /\ ((0 < b_lim cfg)%Q -> calibrated_b_lim res = Some (b_lim cfg))
  /\ ((b_lim cfg <= 0)%Q -> calibrated_b_n res = Some b_n)
  /\ (let written := Some (calibrated_b_n res, calibrated_b_lim res) in
      if String.eqb (set_ cfg) "training"
      then train_batch res = written
           /\ test_batch res = (if update_test then written else None)
      else train_batch res = None /\ test_batch res = written).
Proof.
  unfold calib_batch. intros H. bind_inv H. destruct a as [[new_n new_lim] s1].
  destruct (calib_batch_inner_same_queue _ _ _ _ Hrun) as (Hq & Hlim & Hn).
  simpl in Hlim, Hn.
  destruct (String.eqb (set_ cfg) "training");
    injection H as <- <-; cbn;
    (split; [rewrite Z.mul_0_r; reflexivity|]);
    (split; [exact Hq|]);
    (split; [exact Hlim|]); (split; [exact Hn|]);
    split; reflexivity.
Qed.

End CalibrationRewind.
